(** * Buffer composition engine of libs/image (ImageOps.cpp)

    A shallow embedding of the operations of [ImageOps.cpp] on linear
    images: [vectorsToColors], [hstack], [vstack], [combineChannels],
    [transpose], [cropRegion] and [compare], and of the helpers of
    [test_sampler.cpp] that build and compare the images of the tests:
    [createImageFromAscii], [diffImages], [solve] and [intersect].  Sizes are the 32-bit unsigned
    integers of the source, with their wrap-around written out; pixel
    storage is a list of binary32 floats accessed by index, and an access
    outside the storage is undefined behaviour, kept apart from the
    precondition panics of the source. *)

From Stdlib Require Import ZArith Lia Bool Ascii String.
From Stdlib Require Import Floats.SpecFloat.
From stdpp Require Import base list.

Local Open Scope Z_scope.

(** ** 32-bit unsigned arithmetic *)

Definition two32 : Z := 4294967296.

(** [uint32_t] arithmetic is arithmetic modulo 2^32. *)
Definition wrap32 (x : Z) : Z := x mod two32.

(** ** Binary32 floating point *)

Module F32.

Definition prec : Z := 24.
Definition emax : Z := 128.

Definition float : Type := spec_float.

Definition valid (x : float) : bool := valid_binary prec emax x.

Definition add : float -> float -> float := SFadd prec emax.
Definition sub : float -> float -> float := SFsub prec emax.
Definition mul : float -> float -> float := SFmul prec emax.
Definition leb : float -> float -> bool := SFleb.

Definition zero : float := S754_zero false.
Definition half : float := S754_finite false 8388608 (-24).
Definition one : float := S754_finite false 8388608 (-23).
Definition minus_one : float := S754_finite true 8388608 (-23).
Definition ten : float := S754_finite false 10485760 (-20).

End F32.

Abbreviation float := F32.float.

(** ** Outcomes of a call

    A call returns a value, stops on a failed [ASSERT_PRECONDITION] with
    the message of the assertion, accesses memory outside a buffer
    ([Undefined]), or does not leave its [while] loop ([Diverges], fuel
    exhausted). *)

Inductive outcome (A : Type) : Type :=
| Ok (a : A)
| PreconditionPanic (msg : string)
| Undefined
| Diverges.

Arguments Ok {A} a.
Arguments PreconditionPanic {A} msg.
Arguments Undefined {A}.
Arguments Diverges {A}.

Definition bind {A B : Type} (m : outcome A) (k : A -> outcome B) : outcome B :=
  match m with
  | Ok a => k a
  | PreconditionPanic msg => PreconditionPanic msg
  | Undefined => Undefined
  | Diverges => Diverges
  end.

Notation "'let!' x ':=' m 'in' k" := (bind m (fun x => k))
  (at level 10, x pattern, m at level 100, k at level 200).

(** Modelled from the spec: ASSERT_PRECONDITION of utils/Panic.h, which is
    not among the sources.  A violated precondition is reported at once
    to the caller and the operation does not continue. *)
Definition ASSERT_PRECONDITION (cond : bool) (msg : string) : outcome unit :=
  if cond then Ok tt else PreconditionPanic msg.

(** ** Loops *)

(** [for (i = lo; i < lo + n; ++i) body], threading the state [s]. *)
Fixpoint for_range {S : Type} (lo : Z) (n : nat)
    (body : Z -> S -> outcome S) (s : S) : outcome S :=
  match n with
  | O => Ok s
  | Datatypes.S n' => let! s' := body lo s in for_range (lo + 1) n' body s'
  end.

(** [for (c = 0; c < count; ++c) { img = first[c]; body }]. *)
Fixpoint for_each {A S : Type} (l : list A)
    (body : A -> S -> outcome S) (s : S) : outcome S :=
  match l with
  | [] => Ok s
  | x :: l' => let! s' := body x s in for_each l' body s'
  end.

(** [while (cond) body], with fuel. *)
Fixpoint while_loop {S : Type} (fuel : nat) (cond : S -> bool)
    (body : S -> outcome S) (s : S) : outcome S :=
  match fuel with
  | O => if cond s then Diverges else Ok s
  | Datatypes.S fuel' =>
      if cond s then let! s' := body s in while_loop fuel' cond body s'
      else Ok s
  end.

(** ** Memory: a buffer of floats accessed by index *)

Definition load (buf : list float) (i : Z) : outcome float :=
  if 0 <=? i then
    match buf !! Z.to_nat i with
    | Some x => Ok x
    | None => Undefined
    end
  else Undefined.

Definition store (buf : list float) (i : Z) (x : float) : outcome (list float) :=
  if (0 <=? i) && (i <? Z.of_nat (length buf))
  then Ok (<[Z.to_nat i := x]> buf)
  else Undefined.

(** [memcpy(dst + doff, src + soff, n * sizeof(float))]. *)
Definition memcpy (dst : list float) (doff : Z) (src : list float) (soff : Z)
    (n : Z) : outcome (list float) :=
  if (0 <=? doff) && (0 <=? soff) && (0 <=? n)
     && (doff + n <=? Z.of_nat (length dst))
     && (soff + n <=? Z.of_nat (length src))
  then Ok (take (Z.to_nat doff) dst
           ++ take (Z.to_nat n) (drop (Z.to_nat soff) src)
           ++ drop (Z.to_nat (doff + n)) dst)
  else Undefined.

(** ** Linear images *)

(** Modelled from the spec: LinearImage of image/LinearImage.h, which is
    not among the sources.  A buffer has a width, a height, a channel
    count and a storage block of width * height * channels floats, in
    row-major order. *)
Record LinearImage : Type := mkLinearImage {
  getWidth : Z;
  getHeight : Z;
  getChannels : Z;
  get : list float
}.

(** Modelled from the spec: the constructor LinearImage(width, height,
    channels), which allocates the storage of a buffer of that size. *)
Definition newLinearImage (width height channels : Z) : LinearImage :=
  mkLinearImage width height channels
    (replicate (Z.to_nat (width * height * channels)) F32.zero).

(** Modelled from the spec: the offset of pixel (row, col), the layout
    invariant of the data model; [image.get(column, row)] in the source. *)
Definition pixelOffset (image : LinearImage) (column row : Z) : Z :=
  (row * getWidth image + column) * getChannels image.

(** Component [k] of the pixel at ([row], [col]). *)
Definition pixel (image : LinearImage) (row col k : Z) : option float :=
  get image !! Z.to_nat (pixelOffset image col row + k).

(** A buffer as the data model has it: 32-bit dimensions, and a storage
    block of width * height * channels floats that 32-bit indices reach. *)
Record valid_image (image : LinearImage) : Prop := {
  valid_width : 0 <= getWidth image < two32;
  valid_height : 0 <= getHeight image < two32;
  valid_channels : 0 <= getChannels image < two32;
  valid_size : getWidth image * getHeight image * getChannels image < two32;
  valid_storage :
    length (get image)
    = Z.to_nat (getWidth image * getHeight image * getChannels image)
}.

(** No dimension of a buffer of the data model is zero. *)
Definition positive_image (image : LinearImage) : Prop :=
  0 < getWidth image /\ 0 < getHeight image /\ 0 < getChannels image.

(** ** [transpose] (ImageOps.cpp, lines 136-153) *)

Definition transpose (image : LinearImage) : outcome LinearImage :=
  let width := getWidth image in
  let height := getHeight image in
  let channels := getChannels image in
  let result := newLinearImage height width channels in
  let source := get image in
  let! target := for_range 0 (Z.to_nat (wrap32 (width * height)))
    (fun n target =>
       let i := n / width in
       let j := n mod width in
       let src := wrap32 (channels * n) in
       let dst := wrap32 (channels * wrap32 (wrap32 (height * j) + i)) in
       for_range 0 (Z.to_nat channels)
         (fun c target =>
            let! x := load source (src + c) in
            store target (dst + c) x)
         target)
    (get result) in
  Ok (mkLinearImage height width channels target).

(** ** [vectorsToColors] (lines 29-39) *)

Definition float3 : Type := float * float * float.

(** Modelled from the spec: the operators of math/vec3.h, which is not
    among the sources; they act on every component. *)
Definition float3_add (a b : float3) : float3 :=
  let '(a0, a1, a2) := a in
  let '(b0, b1, b2) := b in
  (F32.add a0 b0, F32.add a1 b1, F32.add a2 b2).

Definition float3_scale (k : float) (a : float3) : float3 :=
  let '(a0, a1, a2) := a in
  (F32.mul k a0, F32.mul k a1, F32.mul k a2).

Definition float3_splat (k : float) : float3 := (k, k, k).

(** The storage seen as an array of [float3]: reading and writing its
    element [n]. *)
Definition load3 (buf : list float) (n : Z) : outcome float3 :=
  let! x := load buf (3 * n) in
  let! y := load buf (3 * n + 1) in
  let! z := load buf (3 * n + 2) in
  Ok (x, y, z).

Definition store3 (buf : list float) (n : Z) (v : float3) : outcome (list float) :=
  let '(x, y, z) := v in
  let! buf := store buf (3 * n) x in
  let! buf := store buf (3 * n + 1) y in
  store buf (3 * n + 2) z.

Definition vectorsToColors (image : LinearImage) : outcome LinearImage :=
  let! _ := ASSERT_PRECONDITION (getChannels image =? 3)
              "Must be a 3-channel image." in
  let width := getWidth image in
  let height := getHeight image in
  let result := newLinearImage width height 3 in
  let src := get image in
  let! dst := for_range 0 (Z.to_nat (wrap32 (width * height)))
    (fun n dst =>
       let! v := load3 src n in
       store3 dst n (float3_scale F32.half (float3_add v (float3_splat F32.one))))
    (get result) in
  Ok (mkLinearImage width height 3 dst).

(** ** [hstack] (lines 46-81) *)

(** The first loop: the final size, with the checks on the way.  One
    round takes the widths added so far and the height and channel count
    seen so far, zero when none was seen. *)
Definition hstack_size_step (img : LinearImage) (st : Z * Z * Z)
    : outcome (Z * Z * Z) :=
  let '(width, height, nchannels) := st in
  let width := wrap32 (width + getWidth img) in
  let! height :=
    if height =? 0 then Ok (getHeight img)
    else let! _ := ASSERT_PRECONDITION (height =? getHeight img)
                     "Inconsistent heights." in
         Ok height in
  let! nchannels :=
    if nchannels =? 0 then Ok (getChannels img)
    else let! _ := ASSERT_PRECONDITION (nchannels =? getChannels img)
                     "Inconsistent channels." in
         Ok nchannels in
  Ok (width, height, nchannels).

Definition hstack_size (first : list LinearImage) : outcome (Z * Z * Z) :=
  for_each first hstack_size_step (0, 0, 0).

(** The second loop: each row of each source image, copied in turn.  The
    state is the storage of the result and the offset [dst] in it.  The
    row counter is compared with [height] as an unsigned number. *)
Definition hstack_copy_row (row nchannels : Z) (img : LinearImage)
    (st : list float * Z) : outcome (list float * Z) :=
  let '(target, dst) := st in
  let swidth := getWidth img in
  let src := wrap32 (wrap32 (row * swidth) * nchannels) in
  let n := wrap32 (swidth * nchannels) in
  let! target := memcpy target dst (get img) src n in
  Ok (target, dst + n).

Definition hstack_copy (first : list LinearImage) (height nchannels : Z)
    (target : list float) : outcome (list float * Z) :=
  for_range 0 (Z.to_nat height)
    (fun row st => for_each first (hstack_copy_row row nchannels) st)
    (target, 0).

Definition hstack (first : list LinearImage) : outcome LinearImage :=
  let count := Z.of_nat (length first) in
  let! _ := ASSERT_PRECONDITION (0 <? count)
              "Must supply one or more images for stacking." in
  let! (width, height, nchannels) := hstack_size first in
  let result := newLinearImage width height nchannels in
  let! (target, _) := hstack_copy first height nchannels (get result) in
  Ok (mkLinearImage width height nchannels target).

(** ** [vstack] (lines 91-100) *)

(** One round of the loop that fills [flipped]. *)
Definition vstack_flip (img : LinearImage) (flipped : list LinearImage)
    : outcome (list LinearImage) :=
  let! t := transpose img in
  Ok (flipped ++ [t]).

Definition vstack (first : list LinearImage) : outcome LinearImage :=
  let count := Z.of_nat (length first) in
  let! _ := ASSERT_PRECONDITION (0 <? count)
              "Must supply one or more images for stacking." in
  let! flipped := for_each first vstack_flip [] in
  let! result := hstack flipped in
  transpose result.

(** ** [combineChannels] (lines 107-129) *)

Definition two64 : Z := 18446744073709551616.

(** [size_t] arithmetic is arithmetic modulo 2^64. *)
Definition wrap64 (x : Z) : Z := x mod two64.

(** The checks on one plane. *)
Definition combine_check (width height : Z) (plane : LinearImage) (_ : unit)
    : outcome unit :=
  let! _ := ASSERT_PRECONDITION (getWidth plane =? width)
              "Planes must all have same width." in
  let! _ := ASSERT_PRECONDITION (getHeight plane =? height)
              "Planes must all have same height." in
  ASSERT_PRECONDITION (getChannels plane =? 1)
    "Planes must be single channel.".

(** The body of the inner loop: the value of one plane at [sindex] goes to
    [dindex], which moves on. *)
Definition combine_plane (sindex : Z) (plane : LinearImage)
    (st : list float * Z) : outcome (list float * Z) :=
  let '(dst, dindex) := st in
  let! x := load (get plane) sindex in
  let! dst := store dst dindex x in
  Ok (dst, wrap32 (dindex + 1)).

(** The body of the outer loop: one pixel of every plane. *)
Definition combine_pixel (img : list LinearImage) (st : list float * Z * Z)
    : outcome (list float * Z * Z) :=
  let '(dst, sindex, dindex) := st in
  let! (dst, dindex) := for_each img (combine_plane sindex) (dst, dindex) in
  Ok (dst, wrap32 (sindex + 1), dindex).

(** [count] is a [size_t], and so is the bound of the [while] loop;
    [sindex] and [dindex] are 32-bit.  A round moves [dindex] by [count],
    so the loop is left after [width * height] rounds, the fuel given
    here, unless [dindex] wraps around below the bound. *)
Definition combineChannels (img : list LinearImage) : outcome LinearImage :=
  let count := Z.of_nat (length img) in
  let! _ := ASSERT_PRECONDITION (0 <? count)
              "Must supply one or more image planes for combining." in
  match img with
  | [] => Undefined
  | img0 :: _ =>
      let width := getWidth img0 in
      let height := getHeight img0 in
      let! _ := for_each img (combine_check width height) tt in
      let result := newLinearImage width height (wrap32 count) in
      let limit := wrap64 (wrap32 (width * height) * count) in
      let! (dst, _, _) :=
        while_loop (Datatypes.S (Z.to_nat (wrap32 (width * height))))
          (fun st => snd st <? limit)
          (combine_pixel img)
          (get result, 0, 0) in
      Ok (mkLinearImage width height (wrap32 count) dst)
  end.

(** ** [cropRegion] (lines 155-169) *)

(** One round of the row loop.  The state is the storage of the result
    and the offsets [target] and [source] of the two moving pointers.  As
    in [hstack], the row counter is compared with [height] as an unsigned
    number. *)
Definition cropRegion_row (image : LinearImage) (width channels : Z)
    (st : list float * Z * Z) : outcome (list float * Z * Z) :=
  let '(buf, target, source) := st in
  let n := wrap32 (width * channels) in
  let! buf := memcpy buf target (get image) source n in
  Ok (buf, target + n, source + wrap32 (getWidth image * channels)).

Definition cropRegion (image : LinearImage) (left top right bottom : Z)
    : outcome LinearImage :=
  let width := wrap32 (right - left) in
  let height := wrap32 (bottom - top) in
  let channels := getChannels image in
  let result := newLinearImage width height channels in
  let source := pixelOffset image left top in
  let! (target, _, _) :=
    for_range 0 (Z.to_nat height)
      (fun row st => cropRegion_row image width channels st)
      (get result, 0, source) in
  Ok (mkLinearImage width height channels target).

(** ** [compare] (lines 171-182) *)

(** [std::lexicographical_compare] over two ranges, with the comparison
    [comp] in the place of "less". *)
Fixpoint lexicographical_compare {A : Type} (comp : A -> A -> bool)
    (l1 l2 : list A) : bool :=
  match l1, l2 with
  | x :: l1', y :: l2' =>
      if comp x y then true
      else if comp y x then false
      else lexicographical_compare comp l1' l2'
  | [], _ :: _ => true
  | _, [] => false
  end.

(** The lambda of [compare]: [x >= y - epsilon && x <= y + epsilon]. *)
Definition within (epsilon x y : float) : bool :=
  F32.leb (F32.sub y epsilon) x && F32.leb x (F32.add y epsilon).

(** The range [data, data + n). *)
Definition range (data : list float) (n : Z) : outcome (list float) :=
  if n <=? Z.of_nat (length data) then Ok (take (Z.to_nat n) data)
  else Undefined.

Definition compare (a b : LinearImage) (epsilon : float) : outcome Z :=
  let w := getWidth a in
  let h := getHeight a in
  let c := getChannels a in
  if negb (getWidth b =? w) || negb (getHeight b =? h)
     || negb (getChannels b =? c)
  then Ok (-1)
  else
    let n := wrap32 (wrap32 (w * h) * c) in
    let! adata := range (get a) n in
    let! bdata := range (get b) n in
    Ok (Z.b2z (lexicographical_compare (within epsilon) adata bdata)).


(** * The helpers of the tests (test_sampler.cpp) *)

(** ** More binary32 operations *)

Module F32Ext.

Definition abs : float -> float := SFabs.
Definition div : float -> float -> float := SFdiv F32.prec F32.emax.
Definition sqrt : float -> float := SFsqrt F32.prec F32.emax.
Definition ltb : float -> float -> bool := SFltb.
Definition eqb : float -> float -> bool := SFeqb.

(** [std::numeric_limits<float>::max()]. *)
Definition max_float : float := SFmax_float F32.prec F32.emax.

(** The conversion of an [int] to [float]. *)
Definition of_int (z : Z) : float :=
  binary_normalize F32.prec F32.emax z 0 false.

Definition minus_half : float := S754_finite true 8388608 (-24).

(** [std::max(a, b)] is [(a < b) ? b : a], and [std::min(a, b)] is
    [(b < a) ? b : a]. *)
Definition std_max (a b : float) : float := if ltb a b then b else a.
Definition std_min (a b : float) : float := if ltb b a then b else a.

(** Neither infinite nor a NaN. *)
Definition finite (x : float) : Prop :=
  match x with
  | S754_zero _ | S754_finite _ _ _ => True
  | S754_infinity _ | S754_nan => False
  end.

End F32Ext.

(** ** [diffImages] (lines 403-423) *)

(** The body of the first loop: the absolute difference of one component,
    and the largest and smallest difference so far. *)
Definition diff_scan (srca srcb : list float) (n : Z)
    (st : list float * float * float) : outcome (list float * float * float) :=
  let '(dst, largest, smallest) := st in
  let! x := load srca n in
  let! y := load srcb n in
  let delta := F32Ext.abs (F32.sub x y) in
  let largest := F32Ext.std_max largest delta in
  let smallest := F32Ext.std_min smallest delta in
  let! dst := store dst n delta in
  Ok (dst, largest, smallest).

(** The body of the second loop. *)
Definition diff_scale (smallest scale : float) (n : Z) (dst : list float)
    : outcome (list float) :=
  let! x := load dst n in
  store dst n (F32.mul (F32.sub x smallest) scale).

Definition diffImages (a b : LinearImage) : outcome LinearImage :=
  let width := getWidth a in
  let height := getHeight a in
  let nchan := getChannels a in
  let! _ := ASSERT_PRECONDITION
              ((width =? getWidth b) && (height =? getHeight b)
               && (nchan =? getChannels b))
              "Images must have same shape." in
  let result := newLinearImage width height nchan in
  let count := wrap32 (wrap32 (width * height) * nchan) in
  let! (dst, largest, smallest) :=
    for_range 0 (Z.to_nat count) (diff_scan (get a) (get b))
      (get result, F32Ext.of_int 0, F32Ext.max_float) in
  let scale :=
    if F32Ext.eqb largest smallest then F32.one
    else F32.sub (F32Ext.div F32.one largest) smallest in
  let! dst := for_range 0 (Z.to_nat count) (diff_scale smallest scale) dst in
  Ok (mkLinearImage width height nchan dst).

(** ** [createImageFromAscii] (lines 309-331) *)

(** The white space of the classic locale, which [istream >> row] skips
    and stops at. *)
Definition isspace (c : ascii) : bool :=
  match N_of_ascii c with
  | 9%N | 10%N | 11%N | 12%N | 13%N | 32%N => true
  | _ => false
  end.

(** The rows that the successive [istream >> row] read; [cur] is the row
    being read, last character first. *)
Fixpoint read_rows (cur : list ascii) (s : list ascii) : list (list ascii) :=
  match s with
  | [] => match cur with [] => [] | _ => [rev cur] end
  | ch :: s' =>
      if isspace ch
      then match cur with
           | [] => read_rows [] s'
           | _ => rev cur :: read_rows [] s'
           end
      else read_rows (ch :: cur) s'
  end.

(** The value of a character of the pattern, [c - '0'] as a float.  The
    character is taken by its code, on which the signed and the unsigned
    [char] agree for the 7-bit characters. *)
Definition char_value (ch : ascii) : float :=
  F32Ext.of_int (Z.of_N (N_of_ascii ch) - 48).

(** The first loop: the width is the size of the row read last, the
    height the number of rows. *)
Definition ascii_size (rows : list (list ascii)) : Z * Z :=
  fold_left
    (fun (st : Z * Z) row =>
       (wrap32 (Z.of_nat (length row)), wrap32 (snd st + 1)))
    rows (0, 0).

(** [seq[i++] = c - '0']. *)
Definition ascii_put (ch : ascii) (st : list float * Z)
    : outcome (list float * Z) :=
  let '(seq, i) := st in
  let! seq := store seq i (char_value ch) in
  Ok (seq, i + 1).

Definition createImageFromAscii (pattern : string) : outcome LinearImage :=
  let rows := read_rows [] (list_ascii_of_string pattern) in
  let '(width, height) := ascii_size rows in
  let result := newLinearImage width height 1 in
  let! (seq, _) :=
    for_each rows (fun row st => for_each row ascii_put st) (get result, 0) in
  Ok (mkLinearImage width height 1 seq).

(** ** [solve] and [intersect] (lines 373-401) *)

(** The roots are returned through two pointers when the result is
    [true]. *)
Definition solve (a b c : float) : option (float * float) :=
  let discr :=
    F32.sub (F32.mul b b) (F32.mul (F32.mul (F32Ext.of_int 4) a) c) in
  if F32Ext.ltb discr (F32Ext.of_int 0) then None
  else
    let '(x0, x1) :=
      if F32Ext.eqb discr (F32Ext.of_int 0)
      then let x := F32Ext.div (F32.mul F32Ext.minus_half b) a in (x, x)
      else
        let q :=
          if F32Ext.ltb (F32Ext.of_int 0) b
          then F32.mul F32Ext.minus_half (F32.add b (F32Ext.sqrt discr))
          else F32.mul F32Ext.minus_half (F32.sub b (F32Ext.sqrt discr)) in
        (F32Ext.div q a, F32Ext.div c q) in
    let '(x0, x1) := if F32Ext.ltb x1 x0 then (x1, x0) else (x0, x1) in
    Some (x0, x1).

Record Ray : Type := mkRay { orig : float3; dir : float3 }.
Record Sphere : Type := mkSphere { center : float3; radius2 : float }.

Section Intersect.

(** The difference and the dot product of math/vec3.h, which is not among
    the sources. *)
Variable float3_sub : float3 -> float3 -> float3.
Variable dot : float3 -> float3 -> float.

Definition intersect (ray : Ray) (sphere : Sphere) : option float :=
  let L := float3_sub (orig ray) (center sphere) in
  let a := dot (dir ray) (dir ray) in
  let b := F32.mul (F32Ext.of_int 2) (dot (dir ray) L) in
  let c := F32.sub (dot L L) (radius2 sphere) in
  match solve a b c with
  | None => None
  | Some (t0, t1) =>
      let '(t0, t1) := if F32Ext.ltb t1 t0 then (t1, t0) else (t0, t1) in
      if F32Ext.ltb t0 (F32Ext.of_int 0)
      then let t0 := t1 in
           if F32Ext.ltb t0 (F32Ext.of_int 0) then None else Some t0
      else Some t0
  end.

End Intersect.

(** * Vocabulary of the properties *)

(** ** Shapes *)

(** The widths, and the heights, of a sequence of buffers, added up. *)
Definition sum_widths (images : list LinearImage) : Z :=
  foldr (fun img acc => getWidth img + acc) 0 images.

Definition sum_heights (images : list LinearImage) : Z :=
  foldr (fun img acc => getHeight img + acc) 0 images.

(** The widths added as the first loop of [hstack] adds them. *)
Definition sum_widths32 (acc : Z) (images : list LinearImage) : Z :=
  fold_left (fun acc img => wrap32 (acc + getWidth img)) images acc.

(** A buffer of this shape is a buffer of the data model. *)
Definition representable (width height channels : Z) : Prop :=
  valid_image (newLinearImage width height channels).

(** Where [transpose] puts pixel [n] of a [w] x [h] image. *)
Definition flip (w h n : Z) : Z := h * (n mod w) + n / w.

(** Some buffer of the sequence differs from the first in the stacked
    dimension [dim] or in its channel count. *)
Definition differs_from_first (dim : LinearImage -> Z)
    (images : list LinearImage) : Prop :=
  exists img0 rest,
    images = img0 :: rest
    /\ Exists (fun img => dim img <> dim img0
                          \/ getChannels img <> getChannels img0) rest.

(** A plane that fails a check of [combineChannels]. *)
Definition odd_plane (width height : Z) (plane : LinearImage) : Prop :=
  getWidth plane <> width \/ getHeight plane <> height \/ getChannels plane <> 1.

(** ** Failures

    The assertions of the stacking operations on inconsistent shapes, and
    those of [combineChannels] on its planes. *)

Definition shape_panic (A : Type) (o : outcome A) : Prop :=
  o = PreconditionPanic "Inconsistent heights."
  \/ o = PreconditionPanic "Inconsistent channels.".

Definition plane_panic (A : Type) (o : outcome A) : Prop :=
  o = PreconditionPanic "Planes must all have same width."
  \/ o = PreconditionPanic "Planes must all have same height."
  \/ o = PreconditionPanic "Planes must be single channel.".

(** ** Components *)

(** What [vectorsToColors] does to one component. *)
Definition remap (v : float) : float := F32.mul F32.half (F32.add v F32.one).

(** A component in the range of a unit vector, and of a colour. *)
Definition unit_component (v : float) : Prop :=
  F32.valid v = true
  /\ F32.leb F32.minus_one v = true /\ F32.leb v F32.one = true.

Definition colour_component (v : float) : Prop :=
  F32.leb F32.zero v = true /\ F32.leb v F32.one = true.

(** ** Patterns *)

(** The rows of a pattern, separated by single blanks. *)
Fixpoint join_rows (rows : list (list ascii)) : list ascii :=
  match rows with
  | [] => []
  | [row] => row
  | row :: rest => row ++ " "%char :: join_rows rest
  end.

(** A row that [istream >> row] reads whole: not empty, and without white
    space. *)
Definition solid_row (row : list ascii) : Prop :=
  row <> [] /\ Forall (fun ch => isspace ch = false) row.

(** ** Small buffers *)

Definition f2 : float := S754_finite false 8388608 (-22).
Definition f3 : float := S754_finite false 12582912 (-22).

Definition quarter : float := S754_finite false 8388608 (-25).

(** A componentwise difference and a dot product summed from the left,
    to run [intersect] with. *)
Definition vec_sub (a b : float3) : float3 :=
  let '(ax, ay, az) := a in
  let '(bx, by_, bz) := b in
  (F32.sub ax bx, F32.sub ay by_, F32.sub az bz).

Definition vec_dot (a b : float3) : float :=
  let '(ax, ay, az) := a in
  let '(bx, by_, bz) := b in
  F32.add (F32.add (F32.mul ax bx) (F32.mul ay by_)) (F32.mul az bz).

(** A ray from (0, 0, 1) down the z axis, and the sphere of radius 1/2
    around the origin. *)
Definition ray_down : Ray :=
  mkRay (F32.zero, F32.zero, F32.one) (F32.zero, F32.zero, F32.minus_one).

Definition sphere_half : Sphere :=
  mkSphere (F32.zero, F32.zero, F32.zero) quarter.

(** A buffer without channels, as wide as 32 bits allow. *)
Definition img_wide : LinearImage := mkLinearImage 4294967295 1 0 [].

(** The transposed [img2x2]. *)
Definition img2x2_flipped : LinearImage :=
  mkLinearImage 2 2 1 [F32.zero; f2; F32.one; f3].

(** The rows of the patterns 01 23 45 and 012 3. *)
Definition rows_grid : list (list ascii) :=
  [list_ascii_of_string "01"; list_ascii_of_string "23";
   list_ascii_of_string "45"].

Definition rows_ragged : list (list ascii) := [list_ascii_of_string "012"].

(** The 2 x 2 single-channel buffer 0 1 / 2 3. *)
Definition img2x2 : LinearImage :=
  mkLinearImage 2 2 1 [F32.zero; F32.one; f2; f3].

Definition img_tens : LinearImage :=
  mkLinearImage 2 2 1 [F32.ten; F32.ten; F32.ten; F32.ten].

Definition img_row (x y : float) : LinearImage := mkLinearImage 2 1 1 [x; y].

(** One pixel of three channels. *)
Definition img_vector : LinearImage :=
  mkLinearImage 1 1 3 [F32.minus_one; F32.zero; F32.one].

(** A concrete buffer is a buffer of the data model, by computation. *)
Ltac concrete_image :=
  unfold representable; try constructor; cbn; unfold two32;
  first [lia | reflexivity | apply length_replicate].

(** * Properties *)

(** ** Arithmetic *)

Lemma wrap32_small (x : Z) : 0 <= x < two32 -> wrap32 x = x.
Proof. intros H. unfold wrap32. apply Z.mod_small. exact H. Qed.

(** The index of row [i], column [j] in a [w]-wide image determines both. *)
Lemma div_row_col (w i j : Z) : 0 <= j < w -> (i * w + j) / w = i.
Proof.
  intros H. rewrite Z.add_comm, Z.div_add by lia. rewrite Z.div_small; lia.
Qed.

Lemma mod_row_col (w i j : Z) : 0 <= j < w -> (i * w + j) mod w = j.
Proof.
  intros H. rewrite Z.add_comm, Z.mod_add by lia. apply Z.mod_small; lia.
Qed.

Lemma row_col_bound (w h i j : Z) :
  0 <= i < h -> 0 <= j < w -> 0 <= i * w + j < w * h.
Proof. intros. nia. Qed.

Lemma cell_inj (c m m' k k' : Z) :
  0 <= k < c -> 0 <= k' < c -> c * m + k = c * m' + k' -> m = m' /\ k = k'.
Proof.
  intros Hk Hk' E.
  assert (m = m') as -> by (destruct (Z.lt_trichotomy m m') as [|[|]]; nia).
  split; [reflexivity | lia].
Qed.

(** ** Outcomes and loops *)

Lemma bind_Ok {A B : Type} (m : outcome A) (k : A -> outcome B) (b : B) :
  bind m k = Ok b -> exists a, m = Ok a /\ k a = Ok b.
Proof. destruct m; simpl; intros H; try discriminate. eauto. Qed.

Lemma for_range_inv {S : Type} (I : Z -> S -> Prop)
    (body : Z -> S -> outcome S) (n : nat) :
  forall (lo : Z) (s : S),
    I lo s ->
    (forall i s, lo <= i < lo + Z.of_nat n -> I i s ->
       exists s', body i s = Ok s' /\ I (i + 1) s') ->
    exists s', for_range lo n body s = Ok s' /\ I (lo + Z.of_nat n) s'.
Proof.
  induction n as [|n IH]; intros lo s HI Hstep.
  - exists s. simpl. rewrite Z.add_0_r. auto.
  - destruct (Hstep lo s ltac:(lia) HI) as (s1 & Hb & HI1).
    destruct (IH (lo + 1) s1 HI1) as (s2 & Hr & HI2).
    + intros i s0 Hi. apply Hstep. lia.
    + exists s2. simpl. rewrite Hb. simpl. split; [exact Hr|].
      replace (lo + Z.of_nat (Datatypes.S n)) with (lo + 1 + Z.of_nat n) by lia.
      exact HI2.
Qed.

(** ** Memory *)

Lemma load_Some (buf : list float) (i : Z) (x : float) :
  0 <= i -> buf !! Z.to_nat i = Some x -> load buf i = Ok x.
Proof.
  intros Hi Hx. unfold load. destruct (Z.leb_spec 0 i); [|lia]. now rewrite Hx.
Qed.

Lemma store_in_range (buf : list float) (i : Z) (x : float) :
  0 <= i < Z.of_nat (length buf) -> store buf i x = Ok (<[Z.to_nat i := x]> buf).
Proof.
  intros Hi. unfold store.
  destruct (Z.leb_spec 0 i); [|lia].
  destruct (Z.ltb_spec i (Z.of_nat (length buf))); [|lia].
  reflexivity.
Qed.

(** The inner loop of [transpose] copies one pixel, component by
    component, and leaves the other cells of the target as they were. *)
Lemma copy_pixel (source target : list float) (src dst c : Z) :
  0 <= src -> 0 <= dst -> 0 <= c ->
  src + c <= Z.of_nat (length source) ->
  dst + c <= Z.of_nat (length target) ->
  exists target',
    for_range 0 (Z.to_nat c)
      (fun k t => let! x := load source (src + k) in store t (dst + k) x)
      target = Ok target'
    /\ length target' = length target
    /\ (forall k, 0 <= k < c ->
          target' !! Z.to_nat (dst + k) = source !! Z.to_nat (src + k))
    /\ (forall p : nat, (Z.of_nat p < dst \/ dst + c <= Z.of_nat p) ->
          target' !! p = target !! p).
Proof.
  intros Hsrc Hdst Hc Hs Ht.
  destruct (for_range_inv
    (fun n t => length t = length target
       /\ (forall k, 0 <= k < n ->
             t !! Z.to_nat (dst + k) = source !! Z.to_nat (src + k))
       /\ (forall p : nat, (Z.of_nat p < dst \/ dst + n <= Z.of_nat p) ->
             t !! p = target !! p))
    (fun k t => let! x := load source (src + k) in store t (dst + k) x)
    (Z.to_nat c) 0 target) as (t' & Hrun & Hlen & Hcopied & Hrest).
  - split; [reflexivity|]. split; [intros; lia|]. reflexivity.
  - intros k t Hk (Hlen & Hcopied & Hrest).
    destruct (lookup_lt_is_Some_2 source (Z.to_nat (src + k)) ltac:(lia)) as [x Hx].
    exists (<[Z.to_nat (dst + k) := x]> t). split; [|split; [|split]].
    + rewrite (load_Some _ _ x) by (auto; lia). simpl.
      apply store_in_range. lia.
    + rewrite length_insert. exact Hlen.
    + intros k' Hk'. destruct (Z.eq_dec k' k) as [->|Hne].
      * rewrite list_lookup_insert_eq by lia. now rewrite Hx.
      * rewrite list_lookup_insert_ne by lia. apply Hcopied. lia.
    + intros p Hp. rewrite list_lookup_insert_ne by lia. apply Hrest. lia.
  - exists t'. rewrite Z2Nat.id, Z.add_0_l in * by lia. auto.
Qed.

(** ** [transpose] *)

Lemma div_mod_bound (w h n : Z) :
  0 <= n < w * h -> 0 <= h -> 0 <= n mod w < w /\ 0 <= n / w < h.
Proof.
  intros Hn Hh.
  assert (0 < w) as Hw by nia.
  pose proof (Z.mod_pos_bound n w Hw) as Hm.
  pose proof (Z.div_mod n w ltac:(lia)) as E.
  assert (0 <= n / w) by (apply Z.div_pos; lia).
  split; [exact Hm|]. split; [assumption|]. nia.
Qed.

Lemma flip_bound (w h n : Z) :
  0 <= n < w * h -> 0 <= h -> 0 <= flip w h n < w * h.
Proof.
  intros Hn Hh. destruct (div_mod_bound w h n Hn Hh) as [Hm Hd].
  unfold flip. nia.
Qed.

Lemma flip_inj (w h m n : Z) :
  0 <= m < w * h -> 0 <= n < w * h -> 0 <= h ->
  flip w h m = flip w h n -> m = n.
Proof.
  intros Hm Hn Hh E.
  destruct (div_mod_bound w h m Hm Hh) as [? ?].
  destruct (div_mod_bound w h n Hn Hh) as [? ?].
  unfold flip in E.
  destruct (cell_inj h (m mod w) (n mod w) (m / w) (n / w)) as [E1 E2]; try lia.
  rewrite (Z.div_mod m w), (Z.div_mod n w) by lia. congruence.
Qed.

Lemma flip_row_col (w h i j : Z) :
  0 <= i < h -> 0 <= j < w -> flip w h (i * w + j) = j * h + i.
Proof.
  intros Hi Hj. unfold flip. rewrite div_row_col, mod_row_col by lia. lia.
Qed.

(** The loops of [transpose], on storage of the right size. *)
Lemma transpose_loop (w h c : Z) (source target : list float) :
  0 <= w -> 0 <= h -> 0 <= c -> w * h * c < two32 ->
  length source = Z.to_nat (w * h * c) ->
  length target = Z.to_nat (w * h * c) ->
  exists target',
    for_range 0 (Z.to_nat (wrap32 (w * h)))
      (fun n target =>
         let i := n / w in
         let j := n mod w in
         let src := wrap32 (c * n) in
         let dst := wrap32 (c * wrap32 (wrap32 (h * j) + i)) in
         for_range 0 (Z.to_nat c)
           (fun k target =>
              let! x := load source (src + k) in
              store target (dst + k) x)
           target)
      target = Ok target'
    /\ length target' = Z.to_nat (w * h * c)
    /\ (forall n k, 0 <= n < w * h -> 0 <= k < c ->
          target' !! Z.to_nat (c * flip w h n + k)
          = source !! Z.to_nat (c * n + k)).
Proof.
  intros Hw Hh Hc Hsize Hsrc Htgt.
  destruct (Z.eq_dec c 0) as [->|Hc0].
  - (* no component to copy *)
    destruct (for_range_inv (fun _ t => t = target)
      (fun n target =>
         for_range 0 (Z.to_nat 0)
           (fun k target =>
              let! x := load source (wrap32 (0 * n) + k) in
              store target
                (wrap32 (0 * wrap32 (wrap32 (h * (n mod w)) + n / w)) + k) x)
           target)
      (Z.to_nat (wrap32 (w * h))) 0 target) as (t' & Hrun & ->).
    + reflexivity.
    + intros i s _ ->. exists target. split; reflexivity.
    + exists target. split; [exact Hrun|]. split; [exact Htgt|]. intros; lia.
  - assert (0 <= w * h < two32) as Hwh by nia.
    rewrite (wrap32_small (w * h)) by exact Hwh.
    destruct (for_range_inv
      (fun n t => length t = Z.to_nat (w * h * c)
         /\ (forall m k, 0 <= m < n -> 0 <= k < c ->
               t !! Z.to_nat (c * flip w h m + k)
               = source !! Z.to_nat (c * m + k)))
      (fun n target =>
         for_range 0 (Z.to_nat c)
           (fun k target =>
              let! x := load source (wrap32 (c * n) + k) in
              store target
                (wrap32 (c * wrap32 (wrap32 (h * (n mod w)) + n / w)) + k) x)
           target)
      (Z.to_nat (w * h)) 0 target) as (t' & Hrun & Hlen & Hall).
    + split; [exact Htgt|]. intros; lia.
    + intros n t Hn (Hlen & Hdone).
      rewrite Z2Nat.id in Hn by lia.
      destruct (div_mod_bound w h n ltac:(lia) Hh) as [Hj Hi].
      pose proof (flip_bound w h n ltac:(lia) Hh) as Hf. unfold flip in Hf.
      rewrite (wrap32_small (c * n)) by nia.
      rewrite (wrap32_small (h * (n mod w))) by nia.
      rewrite (wrap32_small (h * (n mod w) + n / w)) by nia.
      rewrite (wrap32_small (c * (h * (n mod w) + n / w))) by nia.
      destruct (copy_pixel source t (c * n) (c * (h * (n mod w) + n / w)) c)
        as (t1 & Hcopy & Hlen1 & Hnew & Hold); try nia.
      exists t1. split; [exact Hcopy|]. split; [congruence|].
      intros m k Hm Hk. destruct (Z.eq_dec m n) as [->|Hne].
      * apply Hnew. exact Hk.
      * pose proof (flip_bound w h m ltac:(lia) Hh) as Hfm.
        assert (flip w h m <> flip w h n) as Hdiff
          by (intros E; apply Hne; apply (flip_inj w h); auto; lia).
        unfold flip in Hfm, Hdiff.
        rewrite Hold; [apply Hdone; lia|].
        unfold flip. rewrite Z2Nat.id by nia. nia.
    + exists t'. split; [exact Hrun|]. split; [exact Hlen|].
      intros n k Hn Hk. apply Hall; lia.
Qed.

Lemma valid_pixel (image : LinearImage) (row col k : Z) :
  valid_image image ->
  0 <= row < getHeight image -> 0 <= col < getWidth image ->
  0 <= k < getChannels image ->
  is_Some (pixel image row col k).
Proof.
  intros [Hw Hh Hc Hsize Hlen] Hrow Hcol Hk.
  unfold pixel, pixelOffset. apply lookup_lt_is_Some_2. rewrite Hlen.
  pose proof (row_col_bound _ _ _ _ Hrow Hcol).
  apply Z2Nat.inj_lt; nia.
Qed.

(** Every index into the storage is the offset of a component of a pixel. *)
Lemma offset_decompose (w h c p : Z) :
  0 <= w -> 0 <= h -> 0 <= c -> 0 <= p < w * h * c ->
  exists i j k,
    0 <= i < h /\ 0 <= j < w /\ 0 <= k < c /\ p = (i * w + j) * c + k.
Proof.
  intros Hw Hh Hc Hp.
  assert (0 < c) as Hc' by nia.
  destruct (div_mod_bound c (w * h) p ltac:(lia) ltac:(nia)) as [Hk Hm].
  destruct (div_mod_bound w h (p / c) Hm Hh) as [Hj Hi].
  exists (p / c / w), ((p / c) mod w), (p mod c).
  repeat split; try lia.
  rewrite (Z.mul_comm (p / c / w) w), <- Z.div_mod by lia.
  rewrite (Z.mul_comm (p / c) c). apply Z.div_mod. lia.
Qed.

(** What [transpose] returns on a buffer of the data model. *)
Lemma transpose_correct (image : LinearImage) :
  valid_image image ->
  exists result,
    transpose image = Ok result
    /\ getWidth result = getHeight image
    /\ getHeight result = getWidth image
    /\ getChannels result = getChannels image
    /\ valid_image result
    /\ (forall i j k,
          0 <= i < getHeight image -> 0 <= j < getWidth image ->
          0 <= k < getChannels image ->
          pixel result j i k = pixel image i j k).
Proof.
  intros [Hw Hh Hc Hsize Hlen].
  destruct image as [w h c source]. simpl in *.
  destruct (transpose_loop w h c source
              (replicate (Z.to_nat (h * w * c)) F32.zero))
    as (target & Hrun & Hlen' & Hcells); try lia.
  { rewrite length_replicate. f_equal. lia. }
  exists (mkLinearImage h w c target).
  unfold transpose, newLinearImage. cbn [getWidth getHeight getChannels get].
  cbv zeta in Hrun |- *. rewrite Hrun.
  cbn [getWidth getHeight getChannels get bind].
  do 4 (split; [reflexivity|]). split.
  - constructor; cbn [getWidth getHeight getChannels get]; lia.
  - intros i j k Hi Hj Hk. unfold pixel, pixelOffset. simpl.
    pose proof (row_col_bound _ _ _ _ Hi Hj) as Hn.
    specialize (Hcells (i * w + j) k Hn Hk).
    rewrite flip_row_col in Hcells by lia.
    replace ((j * h + i) * c + k) with (c * (j * h + i) + k) by lia.
    replace ((i * w + j) * c + k) with (c * (i * w + j) + k) by lia.
    exact Hcells.
Qed.

(** Two buffers of the same shape with the same pixels are the same. *)
Lemma image_ext (a b : LinearImage) :
  valid_image a -> valid_image b ->
  getWidth a = getWidth b -> getHeight a = getHeight b ->
  getChannels a = getChannels b ->
  (forall i j k,
     0 <= i < getHeight a -> 0 <= j < getWidth a -> 0 <= k < getChannels a ->
     pixel a i j k = pixel b i j k) ->
  a = b.
Proof.
  intros [Hwa Hha Hca Hsa Hla] [Hwb Hhb Hcb Hsb Hlb] Ew Eh Ec Hpix.
  destruct a as [w h c da], b as [w' h' c' db]. simpl in *. subst w' h' c'.
  f_equal. apply list_eq. intros p.
  destruct (Z_lt_le_dec (Z.of_nat p) (w * h * c)) as [Hin|Hout].
  - destruct (offset_decompose w h c (Z.of_nat p)) as (i & j & k & Hi & Hj & Hk & E);
      try lia.
    specialize (Hpix i j k Hi Hj Hk). unfold pixel, pixelOffset in Hpix.
    simpl in Hpix. rewrite <- E, Nat2Z.id in Hpix. exact Hpix.
  - rewrite !lookup_ge_None_2 by lia. reflexivity.
Qed.

(** C4: for a buffer of the data model, of width W and height H,
    [transpose] returns a buffer of width H, height W and the same channel
    count, whose pixel (row j, column i) holds in every channel k the
    value of the input's pixel (row i, column j). *)
Theorem transpose_pixels (image : LinearImage) :
  valid_image image ->
  exists result,
    transpose image = Ok result
    /\ getWidth result = getHeight image
    /\ getHeight result = getWidth image
    /\ getChannels result = getChannels image
    /\ (forall i j k,
          0 <= i < getHeight image -> 0 <= j < getWidth image ->
          0 <= k < getChannels image ->
          is_Some (pixel image i j k)
          /\ pixel result j i k = pixel image i j k).
Proof.
  intros Hvalid.
  destruct (transpose_correct image Hvalid)
    as (result & Hrun & Ew & Eh & Ec & _ & Hpix).
  exists result. repeat split; auto. apply valid_pixel; auto.
Qed.

(** C5: transposing a buffer of the data model twice gives the buffer
    back, with its width, height, channel count and every component. *)
Theorem transpose_involution (image : LinearImage) :
  valid_image image ->
  (let! flipped := transpose image in transpose flipped) = Ok image.
Proof.
  intros Hvalid.
  destruct (transpose_correct image Hvalid)
    as (flipped & Hrun & Ew & Eh & Ec & Hvalid' & Hpix).
  destruct (transpose_correct flipped Hvalid')
    as (back & Hrun' & Ew' & Eh' & Ec' & Hvalid'' & Hpix').
  rewrite Hrun. simpl. rewrite Hrun'. f_equal.
  apply image_ext; auto; try congruence.
  intros i j k Hi Hj Hk.
  rewrite Hpix' by lia. apply Hpix; lia.
Qed.

(** ** [memcpy] *)

Lemma memcpy_spec (dst src : list float) (doff soff n : Z) :
  0 <= doff -> 0 <= soff -> 0 <= n ->
  doff + n <= Z.of_nat (length dst) ->
  soff + n <= Z.of_nat (length src) ->
  exists dst',
    memcpy dst doff src soff n = Ok dst'
    /\ length dst' = length dst
    /\ (forall i, 0 <= i < n ->
          dst' !! Z.to_nat (doff + i) = src !! Z.to_nat (soff + i))
    /\ (forall p : nat, Z.of_nat p < doff \/ doff + n <= Z.of_nat p ->
          dst' !! p = dst !! p).
Proof.
  intros Hd Hs Hn Hdst Hsrc. unfold memcpy.
  destruct (Z.leb_spec 0 doff); [|lia]. destruct (Z.leb_spec 0 soff); [|lia].
  destruct (Z.leb_spec 0 n); [|lia].
  destruct (Z.leb_spec (doff + n) (Z.of_nat (length dst))); [|lia].
  destruct (Z.leb_spec (soff + n) (Z.of_nat (length src))); [|lia].
  cbn [andb]. eexists. split; [reflexivity|].
  assert (length (take (Z.to_nat doff) dst) = Z.to_nat doff) as L1
    by (rewrite length_take; lia).
  assert (length (take (Z.to_nat n) (drop (Z.to_nat soff) src)) = Z.to_nat n) as L2
    by (rewrite length_take, length_drop; lia).
  split; [|split].
  - rewrite !length_app, L1, L2, length_drop. lia.
  - intros i Hi.
    rewrite lookup_app_r by lia. rewrite L1.
    rewrite lookup_app_l by lia.
    rewrite lookup_take_lt by lia. rewrite lookup_drop. f_equal. lia.
  - intros p [Hp|Hp].
    + rewrite lookup_app_l by lia. apply lookup_take_lt. lia.
    + rewrite lookup_app_r by lia. rewrite L1.
      rewrite lookup_app_r by lia. rewrite L2.
      rewrite lookup_drop. f_equal. lia.
Qed.

(** A copy loop does not stop on a precondition. *)
Lemma memcpy_no_panic (dst src : list float) (doff soff n : Z) (msg : string) :
  memcpy dst doff src soff n <> PreconditionPanic msg.
Proof. unfold memcpy. destruct (_ && _); discriminate. Qed.

Lemma for_each_no_panic {A S : Type} (body : A -> S -> outcome S) (l : list A) :
  (forall x s msg, body x s <> PreconditionPanic msg) ->
  forall s msg, for_each l body s <> PreconditionPanic msg.
Proof.
  intros Hbody. induction l as [|x l IH]; intros s msg; simpl; [discriminate|].
  destruct (body x s) eqn:E; simpl; try discriminate; [apply IH|].
  exfalso. exact (Hbody _ _ _ E).
Qed.

Lemma for_range_no_panic {S : Type} (body : Z -> S -> outcome S) (n : nat) :
  (forall i s msg, body i s <> PreconditionPanic msg) ->
  forall lo s msg, for_range lo n body s <> PreconditionPanic msg.
Proof.
  intros Hbody. induction n as [|n IH]; intros lo s msg; simpl; [discriminate|].
  destruct (body lo s) eqn:E; simpl; try discriminate; [apply IH|].
  exfalso. exact (Hbody _ _ _ E).
Qed.

(** ** [hstack] *)

Lemma representable_size (width height channels : Z) :
  representable width height channels ->
  width < two32 /\ width * height * channels < two32.
Proof. intros [Hw _ _ Hsize _]. simpl in *. lia. Qed.

Lemma sum_widths_app (l1 l2 : list LinearImage) :
  sum_widths (l1 ++ l2) = sum_widths l1 + sum_widths l2.
Proof. induction l1 as [|x l1 IH]; simpl; [reflexivity|]. rewrite IH. lia. Qed.

Lemma sum_widths_nonneg (l : list LinearImage) :
  Forall valid_image l -> 0 <= sum_widths l.
Proof.
  induction 1 as [|x l [Hw _ _ _ _] _ IH]; simpl; lia.
Qed.

(** Image [k] starts at column [sum_widths (take k images)] and ends
    within the total width. *)
Lemma sum_widths_take (images : list LinearImage) (k : nat) (img : LinearImage) :
  Forall valid_image images -> images !! k = Some img ->
  0 <= sum_widths (take k images)
  /\ sum_widths (take k images) + getWidth img <= sum_widths images.
Proof.
  intros Hvalid. revert k. induction Hvalid as [|x l Hx Hl IH]; intros k Hk.
  - destruct k; discriminate.
  - destruct Hx as [Hw _ _ _ _]. destruct k as [|k]; simpl in *.
    + injection Hk as ->. pose proof (sum_widths_nonneg l Hl). lia.
    + destruct (IH k Hk). lia.
Qed.

Lemma sum_widths32_exact (images : list LinearImage) :
  Forall valid_image images ->
  forall acc, 0 <= acc -> acc + sum_widths images < two32 ->
  sum_widths32 acc images = acc + sum_widths images.
Proof.
  induction 1 as [|x l Hx Hl IH]; intros acc Hacc Hsum.
  - simpl. lia.
  - destruct Hx as [Hw _ _ _ _]. pose proof (sum_widths_nonneg l Hl).
    change (sum_widths32 acc (x :: l))
      with (sum_widths32 (wrap32 (acc + getWidth x)) l).
    simpl in Hsum |- *.
    rewrite wrap32_small by lia. rewrite IH by lia. lia.
Qed.

(** When all heights and channel counts agree, the first loop passes. *)
Lemma hstack_size_agree (h c : Z) (images : list LinearImage) :
  Forall (fun img => getHeight img = h /\ getChannels img = c) images ->
  forall w0 h0 c0, (h0 = 0 \/ h0 = h) -> (c0 = 0 \/ c0 = c) ->
  for_each images hstack_size_step (w0, h0, c0)
  = Ok (sum_widths32 w0 images,
        match images with [] => h0 | _ => h end,
        match images with [] => c0 | _ => c end).
Proof.
  induction 1 as [|x l [Hh Hc] Hl IH]; intros w0 h0 c0 Hh0 Hc0.
  - reflexivity.
  - cbn [for_each hstack_size_step].
    assert ((if h0 =? 0 then Ok (getHeight x)
             else let! _ := ASSERT_PRECONDITION (h0 =? getHeight x)
                              "Inconsistent heights." in Ok h0) = Ok h) as ->.
    { destruct (Z.eqb_spec h0 0); [congruence|].
      assert (h0 = h) as -> by lia. rewrite Hh, Z.eqb_refl. reflexivity. }
    assert ((if c0 =? 0 then Ok (getChannels x)
             else let! _ := ASSERT_PRECONDITION (c0 =? getChannels x)
                              "Inconsistent channels." in Ok c0) = Ok c) as ->.
    { destruct (Z.eqb_spec c0 0); [congruence|].
      assert (c0 = c) as -> by lia. rewrite Hc, Z.eqb_refl. reflexivity. }
    cbn [bind]. rewrite IH by auto. simpl. destruct l; reflexivity.
Qed.

(** An image that differs from what the loop has seen stops it. *)
Lemma hstack_size_disagree (h c : Z) (images : list LinearImage) :
  0 < h -> 0 < c ->
  Exists (fun img => getHeight img <> h \/ getChannels img <> c) images ->
  forall w0, shape_panic _ (for_each images hstack_size_step (w0, h, c)).
Proof.
  intros Hh Hc. induction 1 as [x l Hx|x l Hl IH]; intros w0.
  - cbn [for_each hstack_size_step]. unfold shape_panic.
    destruct (Z.eqb_spec h 0); [lia|]. destruct (Z.eqb_spec c 0); [lia|].
    destruct (Z.eqb_spec h (getHeight x)); cbn; [|auto].
    destruct (Z.eqb_spec c (getChannels x)); cbn; [|auto].
    destruct Hx; congruence.
  - cbn [for_each hstack_size_step].
    destruct (Z.eqb_spec h 0); [lia|]. destruct (Z.eqb_spec c 0); [lia|].
    destruct (Z.eqb_spec h (getHeight x)); cbn; [|left; reflexivity].
    destruct (Z.eqb_spec c (getChannels x)); cbn; [|right; reflexivity].
    apply IH.
Qed.

Section HstackCopy.

Variable images : list LinearImage.
Variables h c : Z.

Hypothesis images_valid : Forall valid_image images.
Hypothesis images_agree :
  Forall (fun img => getHeight img = h /\ getChannels img = c) images.
Hypothesis height_nonneg : 0 <= h.
Hypothesis channels_nonneg : 0 <= c.
Hypothesis result_fits : sum_widths images * h * c < two32.

(** The offsets that [hstack_copy_row] computes do not wrap. *)
Lemma hstack_offsets (img : LinearImage) (row : Z) :
  valid_image img -> getHeight img = h -> getChannels img = c ->
  0 <= row < h ->
  wrap32 (wrap32 (row * getWidth img) * c) = row * getWidth img * c
  /\ wrap32 (getWidth img * c) = getWidth img * c.
Proof.
  intros [Hw _ _ Hsize _] Eh Ec Hrow. rewrite Eh, Ec in Hsize.
  destruct (Z.eq_dec c 0) as [->|Hc0].
  - rewrite !Z.mul_0_r. split; reflexivity.
  - assert (0 <= row * getWidth img <= getWidth img * h) by nia.
    assert (0 <= getWidth img * c <= getWidth img * h * c) by nia.
    assert (getWidth img * h <= getWidth img * h * c) by nia.
    assert (0 <= row * getWidth img * c <= getWidth img * h * c) by nia.
    rewrite (wrap32_small (row * getWidth img)) by lia.
    rewrite !wrap32_small by lia. split; reflexivity.
Qed.

(** One round of the row loop: the images not yet copied fill the rest
    of row [row] of the target; nothing else changes. *)
Lemma hstack_row_copied (row : Z) :
  0 <= row < h ->
  forall (rest done : list LinearImage) (target : list float),
    images = done ++ rest ->
    length target = Z.to_nat (sum_widths images * h * c) ->
    exists target',
      for_each rest (hstack_copy_row row c)
        (target, (row * sum_widths images + sum_widths done) * c)
      = Ok (target', (row + 1) * sum_widths images * c)
      /\ length target' = length target
      /\ (forall (k : nat) img col ch,
            rest !! k = Some img ->
            0 <= col < getWidth img -> 0 <= ch < c ->
            target' !! Z.to_nat
              ((row * sum_widths images
                + (sum_widths done + sum_widths (take k rest) + col)) * c + ch)
            = pixel img row col ch)
      /\ (forall p : nat,
            Z.of_nat p < (row * sum_widths images + sum_widths done) * c
            \/ (row + 1) * sum_widths images * c <= Z.of_nat p ->
            target' !! p = target !! p).
Proof.
  intros Hrow. induction rest as [|img rest IH]; intros done target E Hlen.
  - rewrite app_nil_r in E. subst done. exists target.
    split; [simpl; do 2 f_equal; lia|]. split; [reflexivity|].
    split; [intros k img col ch Hk; destruct k; discriminate|]. reflexivity.
  - assert (Forall valid_image done /\ valid_image img /\ Forall valid_image rest)
      as (Vd & Vi & Vr).
    { rewrite E in images_valid. apply Forall_app in images_valid as [? Hc'].
      apply Forall_cons in Hc' as [? ?]. auto. }
    assert (getHeight img = h /\ getChannels img = c) as [Eh Ec].
    { rewrite E in images_agree. apply Forall_app in images_agree as [_ Hc'].
      apply Forall_cons in Hc' as [? _]. auto. }
    assert (sum_widths images = sum_widths done + getWidth img + sum_widths rest) as Esum.
    { rewrite E, sum_widths_app. simpl. lia. }
    pose proof (sum_widths_nonneg done Vd) as Nd.
    pose proof (sum_widths_nonneg rest Vr) as Nr.
    destruct (hstack_offsets img row Vi Eh Ec Hrow) as [Esrc En].
    pose proof Vi as [Hw _ _ Hsize Hstore]. rewrite Eh, Ec in Hsize, Hstore.
    set (W := sum_widths images) in *.
    set (w := getWidth img) in *.
    set (sd := sum_widths done) in *.
    cbn [for_each hstack_copy_row]. fold w. rewrite Esrc, En.
    assert (0 <= row * W) as B0 by nia.
    assert (row * W + sd + w <= (row + 1) * W) as B1 by lia.
    assert ((row + 1) * W <= W * h) as B2 by nia.
    assert ((row * W + sd) * c + w * c <= (row + 1) * W * c) as B3
      by (rewrite <- Z.mul_add_distr_r; apply Z.mul_le_mono_nonneg_r; lia).
    assert ((row + 1) * W * c <= W * h * c) as B4
      by (apply Z.mul_le_mono_nonneg_r; lia).
    assert (0 <= (row * W + sd) * c) as B5 by (apply Z.mul_nonneg_nonneg; lia).
    assert (0 <= row * w * c) as B6 by (repeat apply Z.mul_nonneg_nonneg; lia).
    assert (0 <= w * c) as B7 by (apply Z.mul_nonneg_nonneg; lia).
    assert (row * w * c + w * c <= w * h * c) as B8.
    { replace (row * w * c + w * c) with ((row + 1) * w * c) by lia.
      apply Z.mul_le_mono_nonneg_r; [lia|]. nia. }
    destruct (memcpy_spec target (get img) ((row * W + sd) * c) (row * w * c) (w * c))
      as (t1 & Hcpy & Hlen1 & Hnew & Hold); try lia.
    rewrite Hcpy. cbn [bind].
    destruct (IH (done ++ [img]) t1) as (t2 & Hrun & Hlen2 & Hcells & Hrest).
    { rewrite <- app_assoc. exact E. }
    { congruence. }
    rewrite sum_widths_app in Hrun, Hcells, Hrest. simpl in Hrun, Hcells, Hrest.
    fold w sd in Hrun, Hcells, Hrest.
    exists t2. split; [|split; [congruence|split]].
    + rewrite <- Hrun. do 3 f_equal. lia.
    + intros k img' col ch Hk Hcol Hch. destruct k as [|k].
      * injection Hk as <-. fold w in Hcol. simpl.
        rewrite Hrest by nia.
        replace ((row * W + (sd + 0 + col)) * c + ch)
          with ((row * W + sd) * c + (col * c + ch)) by lia.
        rewrite Hnew by nia.
        unfold pixel, pixelOffset. fold w. rewrite Ec. f_equal. lia.
      * simpl in Hk |- *. fold w.
        rewrite <- (Hcells k img' col ch Hk Hcol Hch). do 2 f_equal. lia.
    + intros p Hp. rewrite Hrest by nia. apply Hold. nia.
Qed.

End HstackCopy.

(** The copy loops of [hstack] fill the target row by row. *)
Lemma hstack_copy_correct (images : list LinearImage) (h c : Z)
    (target : list float) :
  Forall valid_image images ->
  Forall (fun img => getHeight img = h /\ getChannels img = c) images ->
  0 <= h -> 0 <= c -> sum_widths images * h * c < two32 ->
  length target = Z.to_nat (sum_widths images * h * c) ->
  exists target',
    hstack_copy images h c target = Ok (target', h * sum_widths images * c)
    /\ length target' = length target
    /\ (forall row (k : nat) img col ch,
          0 <= row < h -> images !! k = Some img ->
          0 <= col < getWidth img -> 0 <= ch < c ->
          target' !! Z.to_nat
            ((row * sum_widths images + (sum_widths (take k images) + col)) * c + ch)
          = pixel img row col ch).
Proof.
  intros Hvalid Hagree Hh Hc Hfits Hlen.
  pose proof (sum_widths_nonneg images Hvalid) as HW.
  set (W := sum_widths images) in *.
  destruct (for_range_inv
    (fun r (st : list float * Z) =>
       snd st = r * W * c
       /\ length (fst st) = length target
       /\ (forall row (k : nat) img col ch,
             0 <= row < r -> images !! k = Some img ->
             0 <= col < getWidth img -> 0 <= ch < c ->
             fst st !! Z.to_nat
               ((row * W + (sum_widths (take k images) + col)) * c + ch)
             = pixel img row col ch))
    (fun row st => for_each images (hstack_copy_row row c) st)
    (Z.to_nat h) 0 (target, 0)) as ([t d] & Hrun & Hd & Hl & Hcells).
  - simpl. split; [lia|]. split; [reflexivity|]. intros; lia.
  - intros r [t d] Hr (Hd & Hl & Hcells). simpl in Hd, Hl, Hcells. subst d.
    destruct (hstack_row_copied images h c Hvalid Hagree Hh Hc Hfits r
                ltac:(lia) images [] t eq_refl ltac:(rewrite Hl; exact Hlen))
      as (t' & Hrun & Hl' & Hnew & Hold).
    fold W in Hrun, Hnew, Hold. simpl in Hrun, Hnew, Hold.
    exists (t', (r + 1) * W * c). split; [|split; [|split]].
    + rewrite <- Hrun. do 2 f_equal. lia.
    + reflexivity.
    + simpl. congruence.
    + simpl. intros row k img col ch Hrow Hk Hcol Hch.
      destruct (Z.eq_dec row r) as [->|Hne].
      * rewrite <- (Hnew k img col ch Hk Hcol Hch). do 2 f_equal.
      * destruct (sum_widths_take images k img Hvalid Hk) as [T0 T1]. fold W in T1.
        rewrite Hold; [apply Hcells; auto; lia|]. left.
        assert (row * W + (sum_widths (take k images) + col) + 1 <= r * W) as B by nia.
        assert ((row * W + (sum_widths (take k images) + col) + 1) * c
                <= (r * W + 0) * c) as B'
          by (apply Z.mul_le_mono_nonneg_r; lia).
        rewrite Z2Nat.id by nia. lia.
  - simpl in Hd, Hl, Hcells. rewrite Z2Nat.id, Z.add_0_l in * by lia.
    exists t. subst d. split; [exact Hrun|]. split; [exact Hl|].
    exact Hcells.
Qed.

(** What [hstack] returns on buffers of the data model that agree on
    height and channel count, when the stacked buffer is representable. *)
Lemma hstack_correct (images : list LinearImage) (h c : Z) :
  images <> [] ->
  Forall valid_image images ->
  Forall (fun img => getHeight img = h /\ getChannels img = c) images ->
  representable (sum_widths images) h c ->
  exists result,
    hstack images = Ok result
    /\ getWidth result = sum_widths images
    /\ getHeight result = h
    /\ getChannels result = c
    /\ valid_image result
    /\ (forall (k : nat) img row col ch,
          images !! k = Some img ->
          0 <= row < h -> 0 <= col < getWidth img -> 0 <= ch < c ->
          pixel result row (sum_widths (take k images) + col) ch
          = pixel img row col ch).
Proof.
  intros Hne Hvalid Hagree Hrep.
  apply representable_size in Hrep as [HW Hfits].
  pose proof (sum_widths_nonneg images Hvalid) as HW0.
  assert (0 <= h < two32 /\ 0 <= c < two32) as [Hh Hc].
  { destruct images as [|img0 rest]; [congruence|].
    apply Forall_cons in Hvalid as [[_ ? ? _ _] _].
    apply Forall_cons in Hagree as [[<- <-] _]. auto. }
  destruct (hstack_copy_correct images h c
              (replicate (Z.to_nat (sum_widths images * h * c)) F32.zero)
              Hvalid Hagree ltac:(lia) ltac:(lia) Hfits
              ltac:(apply length_replicate))
    as (target & Hcopy & Hlen & Hcells).
  rewrite length_replicate in Hlen.
  exists (mkLinearImage (sum_widths images) h c target).
  unfold hstack, hstack_size.
  assert ((0 <? Z.of_nat (length images)) = true) as ->
    by (destruct images; [congruence | reflexivity]).
  cbn [ASSERT_PRECONDITION bind].
  rewrite (hstack_size_agree h c images Hagree) by auto.
  rewrite sum_widths32_exact by (auto; lia). rewrite Z.add_0_l.
  assert (match images with [] => 0 | _ :: _ => h end = h) as ->
    by (destruct images; [congruence | reflexivity]).
  assert (match images with [] => 0 | _ :: _ => c end = c) as ->
    by (destruct images; [congruence | reflexivity]).
  cbn [bind]. unfold newLinearImage. cbn [get]. rewrite Hcopy. cbn [bind].
  do 4 (split; [reflexivity|]). split.
  - constructor; cbn [getWidth getHeight getChannels get]; lia.
  - intros k img row col ch Hk Hrow Hcol Hch.
    rewrite <- (Hcells row k img col ch Hrow Hk Hcol Hch).
    unfold pixel, pixelOffset. cbn [getWidth getHeight getChannels get].
    reflexivity.
Qed.

(** C2: for one or more buffers of the data model of the same height h
    and channel count c, whose stacked buffer is a buffer of the data
    model, [hstack] returns a buffer of height h, channel count c and
    width the sum of the widths, in which the pixels of input k, in every
    channel, are the pixels of the columns that start where the widths of
    the inputs before k end: the inputs stand left to right in sequence
    order. *)
Theorem hstack_pixels (images : list LinearImage) (h c : Z) :
  images <> [] ->
  Forall valid_image images ->
  Forall (fun img => getHeight img = h /\ getChannels img = c) images ->
  representable (sum_widths images) h c ->
  exists result,
    hstack images = Ok result
    /\ getHeight result = h
    /\ getChannels result = c
    /\ getWidth result = sum_widths images
    /\ (forall (k : nat) img row col ch,
          images !! k = Some img ->
          0 <= row < h ->
          sum_widths (take k images) <= col
                     < sum_widths (take k images) + getWidth img ->
          0 <= ch < c ->
          is_Some (pixel img row (col - sum_widths (take k images)) ch)
          /\ pixel result row col ch
             = pixel img row (col - sum_widths (take k images)) ch).
Proof.
  intros Hne Hvalid Hagree Hfits.
  destruct (hstack_correct images h c Hne Hvalid Hagree Hfits)
    as (result & Hrun & Ew & Eh & Ec & _ & Hpix).
  exists result. do 4 (split; [assumption|]).
  intros k img row col ch Hk Hrow Hcol Hch.
  assert (valid_image img /\ getHeight img = h /\ getChannels img = c)
    as (Vi & Hi & Ci).
  { rewrite Forall_lookup in Hvalid, Hagree.
    destruct (Hagree k img Hk). eauto. }
  split.
  - apply valid_pixel; auto; lia.
  - rewrite <- (Hpix k img row (col - sum_widths (take k images)) ch) by (auto; lia).
    f_equal. lia.
Qed.

(** ** [vstack] *)

(** The first loop of [vstack] transposes every input, in order. *)
Lemma vstack_flipped (images : list LinearImage) :
  Forall valid_image images ->
  forall acc,
  exists flipped,
    for_each images vstack_flip acc = Ok (acc ++ flipped)
    /\ Forall2 (fun img t => transpose img = Ok t) images flipped.
Proof.
  induction 1 as [|img rest Himg Hrest IH]; intros acc.
  - exists []. rewrite app_nil_r. split; [reflexivity | constructor].
  - destruct (transpose_correct img Himg) as (t & Hrun & _).
    destruct (IH (acc ++ [t])) as (ts & Hloop & Hall).
    exists (t :: ts).
    change (for_each (img :: rest) vstack_flip acc)
      with (let! s' := vstack_flip img acc in for_each rest vstack_flip s').
    unfold vstack_flip at 1. rewrite Hrun. cbn [bind].
    rewrite Hloop, <- app_assoc. split; [reflexivity|].
    constructor; assumption.
Qed.

Lemma flipped_shapes (images flipped : list LinearImage) :
  Forall valid_image images ->
  Forall2 (fun img t => transpose img = Ok t) images flipped ->
  Forall valid_image flipped
  /\ Forall2 (fun img t => getWidth t = getHeight img
                           /\ getHeight t = getWidth img
                           /\ getChannels t = getChannels img) images flipped.
Proof.
  intros Hvalid Hall. induction Hall as [|img t rest ts Ht _ IH].
  - split; constructor.
  - apply Forall_cons in Hvalid as [Himg Hrest].
    destruct (transpose_correct img Himg) as (t' & Hrun & Ew & Eh & Ec & Vt & _).
    assert (t' = t) as -> by congruence.
    destruct (IH Hrest). split; constructor; auto.
Qed.

Lemma flipped_widths (images flipped : list LinearImage) :
  Forall2 (fun img t => getWidth t = getHeight img
                        /\ getHeight t = getWidth img
                        /\ getChannels t = getChannels img) images flipped ->
  forall k : nat, sum_widths (take k flipped) = sum_heights (take k images).
Proof.
  induction 1 as [|img t rest ts (Ew & _) _ IH]; intros k.
  - destruct k; reflexivity.
  - destruct k as [|k]; simpl; [reflexivity|]. rewrite IH. lia.
Qed.

Lemma flipped_sum (images flipped : list LinearImage) :
  Forall2 (fun img t => getWidth t = getHeight img
                        /\ getHeight t = getWidth img
                        /\ getChannels t = getChannels img) images flipped ->
  sum_widths flipped = sum_heights images.
Proof.
  induction 1 as [|img t rest ts (Ew & _) _ IH]; simpl; [reflexivity|]. lia.
Qed.

(** What [vstack] returns on buffers of the data model that agree on
    width and channel count, when the stacked buffer is representable. *)
Lemma vstack_correct (images : list LinearImage) (w c : Z) :
  images <> [] ->
  Forall valid_image images ->
  Forall (fun img => getWidth img = w /\ getChannels img = c) images ->
  representable (sum_heights images) w c ->
  exists result,
    vstack images = Ok result
    /\ getWidth result = w
    /\ getHeight result = sum_heights images
    /\ getChannels result = c
    /\ valid_image result
    /\ (forall (k : nat) img row col ch,
          images !! k = Some img ->
          0 <= row < getHeight img -> 0 <= col < w -> 0 <= ch < c ->
          pixel result (sum_heights (take k images) + row) col ch
          = pixel img row col ch).
Proof.
  intros Hne Hvalid Hagree Hfits.
  destruct (vstack_flipped images Hvalid []) as (flipped & Hflip & Hall).
  destruct (flipped_shapes images flipped Hvalid Hall) as [Vf Hshapes].
  pose proof (flipped_sum images flipped Hshapes) as Esum.
  assert (flipped <> []) as Hne'.
  { destruct Hall; [congruence|discriminate]. }
  assert (Forall (fun t => getHeight t = w /\ getChannels t = c) flipped) as Hagree'.
  { clear -Hshapes Hagree. induction Hshapes as [|img t rest ts (_ & Eh & Ec) _ IH].
    - constructor.
    - apply Forall_cons in Hagree as [[Ew' Ec'] Hrest].
      constructor; [split; congruence | auto]. }
  destruct (hstack_correct flipped w c Hne' Vf Hagree' ltac:(rewrite Esum; exact Hfits))
    as (wide & Hstack & Ew & Eh & Ec & Vw & Hpix).
  destruct (transpose_correct wide Vw) as (result & Hrun & Ew' & Eh' & Ec' & Vr & Hpix').
  exists result. unfold vstack.
  assert ((0 <? Z.of_nat (length images)) = true) as ->
    by (destruct images; [congruence | reflexivity]).
  cbn [ASSERT_PRECONDITION bind]. rewrite Hflip. cbn [bind app].
  rewrite Hstack. cbn [bind].
  split; [exact Hrun|]. split; [congruence|]. split; [congruence|].
  split; [congruence|]. split; [exact Vr|].
  intros k img row col ch Hk Hrow Hcol Hch.
  destruct (Forall2_lookup_l _ _ _ _ _ Hall Hk) as (t & Hkt & Ht).
  destruct (Forall2_lookup_lr _ _ _ _ _ _ Hshapes Hk Hkt) as (Etw & Eth & Etc).
  assert (valid_image img /\ getWidth img = w /\ getChannels img = c)
    as (Vi & Ewi & Eci).
  { rewrite Forall_lookup in Hvalid, Hagree.
    destruct (Hagree k img Hk). eauto. }
  destruct (transpose_correct img Vi) as (t' & Ht' & _ & _ & _ & _ & Hpixi).
  assert (t' = t) as -> by congruence.
  destruct (sum_widths_take flipped k t Vf Hkt) as [S0 S1].
  rewrite <- (flipped_widths images flipped Hshapes k).
  rewrite Hpix' by lia.
  rewrite (Hpix k t col row ch Hkt) by lia.
  apply Hpixi; lia.
Qed.

(** C3: for one or more buffers of the data model of the same width w
    and channel count c, whose stacked buffer is a buffer of the data
    model, [vstack] returns a buffer of width w, channel count c and
    height the sum of the heights, in which input k occupies the rows that
    start where the heights of the inputs before k end, its pixels
    unchanged: the inputs stand top to bottom in sequence order. *)
Theorem vstack_pixels (images : list LinearImage) (w c : Z) :
  images <> [] ->
  Forall valid_image images ->
  Forall (fun img => getWidth img = w /\ getChannels img = c) images ->
  representable (sum_heights images) w c ->
  exists result,
    vstack images = Ok result
    /\ getWidth result = w
    /\ getChannels result = c
    /\ getHeight result = sum_heights images
    /\ (forall (k : nat) img row col ch,
          images !! k = Some img ->
          sum_heights (take k images) <= row
                      < sum_heights (take k images) + getHeight img ->
          0 <= col < w -> 0 <= ch < c ->
          is_Some (pixel img (row - sum_heights (take k images)) col ch)
          /\ pixel result row col ch
             = pixel img (row - sum_heights (take k images)) col ch).
Proof.
  intros Hne Hvalid Hagree Hfits.
  destruct (vstack_correct images w c Hne Hvalid Hagree Hfits)
    as (result & Hrun & Ew & Eh & Ec & _ & Hpix).
  exists result. do 4 (split; [assumption|]).
  intros k img row col ch Hk Hrow Hcol Hch.
  assert (valid_image img /\ getWidth img = w /\ getChannels img = c)
    as (Vi & Wi & Ci).
  { rewrite Forall_lookup in Hvalid, Hagree.
    destruct (Hagree k img Hk). eauto. }
  split.
  - apply valid_pixel; auto; lia.
  - rewrite <- (Hpix k img (row - sum_heights (take k images)) col ch) by (auto; lia).
    f_equal. lia.
Qed.

(** ** Failures of [hstack] and [vstack] *)

Lemma bind_panic {A B : Type} (m : outcome A) (k : A -> outcome B) (msg : string) :
  bind m k = PreconditionPanic msg ->
  m = PreconditionPanic msg \/ exists a, m = Ok a /\ k a = PreconditionPanic msg.
Proof.
  destruct m as [a|msg'| |]; simpl; intros H; try discriminate.
  - right. exists a. auto.
  - left. injection H as ->. reflexivity.
Qed.

Lemma load_no_panic (buf : list float) (i : Z) (msg : string) :
  load buf i <> PreconditionPanic msg.
Proof. unfold load. destruct (0 <=? i); [destruct (buf !! _)|]; discriminate. Qed.

Lemma store_no_panic (buf : list float) (i : Z) (x : float) (msg : string) :
  store buf i x <> PreconditionPanic msg.
Proof. unfold store. destruct (_ && _); discriminate. Qed.

Lemma transpose_no_panic (image : LinearImage) (msg : string) :
  transpose image <> PreconditionPanic msg.
Proof.
  unfold transpose. intros H. apply bind_panic in H as [H|(t & _ & H)]; [|discriminate].
  revert H. apply for_range_no_panic. clear. intros n t msg.
  apply for_range_no_panic. clear. intros k t msg H.
  apply bind_panic in H as [H|(x & _ & H)].
  - exact (load_no_panic _ _ _ H).
  - exact (store_no_panic _ _ _ _ H).
Qed.

Lemma hstack_copy_no_panic (images : list LinearImage) (h c : Z)
    (target : list float) (msg : string) :
  hstack_copy images h c target <> PreconditionPanic msg.
Proof.
  unfold hstack_copy. apply for_range_no_panic. clear. intros row st msg.
  apply for_each_no_panic. clear. intros img [target dst] msg H.
  unfold hstack_copy_row in H. apply bind_panic in H as [H|(t & _ & H)]; [|discriminate].
  exact (memcpy_no_panic _ _ _ _ _ _ H).
Qed.

Lemma agree_or_differ (dim : LinearImage -> Z) (img0 : LinearImage)
    (rest : list LinearImage) :
  Forall (fun img => dim img = dim img0 /\ getChannels img = getChannels img0)
         (img0 :: rest)
  \/ differs_from_first dim (img0 :: rest).
Proof.
  assert (Forall (fun img => dim img = dim img0
                             /\ getChannels img = getChannels img0) rest
          \/ Exists (fun img => dim img <> dim img0
                                \/ getChannels img <> getChannels img0) rest)
    as [Hall|Hex].
  { induction rest as [|img rest [IH|IH]].
    - left. constructor.
    - destruct (Z.eq_dec (dim img) (dim img0));
        [destruct (Z.eq_dec (getChannels img) (getChannels img0))|].
      + left. constructor; auto.
      + right. left. auto.
      + right. left. auto.
    - right. right. exact IH. }
  - left. constructor; auto.
  - right. exists img0, rest. auto.
Qed.

Lemma hstack_differs (img0 : LinearImage) (rest : list LinearImage) :
  0 < getHeight img0 -> 0 < getChannels img0 ->
  Exists (fun img => getHeight img <> getHeight img0
                     \/ getChannels img <> getChannels img0) rest ->
  shape_panic _ (hstack (img0 :: rest)).
Proof.
  intros Hh Hc Hex.
  unfold hstack, hstack_size.
  change (0 <? Z.of_nat (length (img0 :: rest))) with true.
  cbn [ASSERT_PRECONDITION bind for_each hstack_size_step Z.eqb].
  destruct (hstack_size_disagree (getHeight img0) (getChannels img0) rest
              Hh Hc Hex (wrap32 (0 + getWidth img0))) as [E|E];
    rewrite E; [left | right]; reflexivity.
Qed.

Lemma hstack_agree_no_panic (images : list LinearImage) (h c : Z) (msg : string) :
  images <> [] ->
  Forall (fun img => getHeight img = h /\ getChannels img = c) images ->
  hstack images <> PreconditionPanic msg.
Proof.
  intros Hne Hagree. unfold hstack, hstack_size.
  assert ((0 <? Z.of_nat (length images)) = true) as ->
    by (destruct images; [congruence | reflexivity]).
  cbn [ASSERT_PRECONDITION bind].
  rewrite (hstack_size_agree h c images Hagree) by auto. cbn [bind].
  intros H. apply bind_panic in H as [H|([t d] & _ & H)]; [|discriminate].
  exact (hstack_copy_no_panic _ _ _ _ _ H).
Qed.

Lemma vstack_differs (images : list LinearImage) :
  Forall valid_image images ->
  Forall positive_image images ->
  differs_from_first getWidth images ->
  shape_panic _ (vstack images).
Proof.
  intros Hvalid Hpos (img0 & rest & -> & Hex).
  destruct (vstack_flipped _ Hvalid []) as (flipped & Hflip & Hall).
  destruct (flipped_shapes _ flipped Hvalid Hall) as [_ Hshapes].
  unfold vstack.
  change (0 <? Z.of_nat (length (img0 :: rest))) with true.
  cbn [ASSERT_PRECONDITION bind]. rewrite Hflip. cbn [bind app].
  inversion Hshapes as [|? t0 ? ts (E0w & E0h & E0c) Hrest]; subst.
  apply Forall_cons in Hpos as [(Hw & Hh & Hc) _].
  assert (shape_panic _ (hstack (t0 :: ts))) as [E|E].
  { apply hstack_differs; [lia | lia |].
    - clear -Hrest Hex E0h E0c. induction Hrest as [|img t rest ts (Ew & Eh & Ec) _ IH].
      + inversion Hex.
      + apply Exists_cons in Hex as [Hd|Hd]; [left | right; auto].
        rewrite Eh, Ec, E0h, E0c. exact Hd. }
  - rewrite E. left. reflexivity.
  - rewrite E. right. reflexivity.
Qed.

Lemma vstack_agree_no_panic (images : list LinearImage) (w c : Z) (msg : string) :
  images <> [] ->
  Forall valid_image images ->
  Forall (fun img => getWidth img = w /\ getChannels img = c) images ->
  vstack images <> PreconditionPanic msg.
Proof.
  intros Hne Hvalid Hagree.
  destruct (vstack_flipped images Hvalid []) as (flipped & Hflip & Hall).
  destruct (flipped_shapes images flipped Hvalid Hall) as [_ Hshapes].
  unfold vstack.
  assert ((0 <? Z.of_nat (length images)) = true) as ->
    by (destruct images; [congruence | reflexivity]).
  cbn [ASSERT_PRECONDITION bind]. rewrite Hflip. cbn [bind app].
  intros H. apply bind_panic in H as [H|(wide & _ & H)].
  - revert H. apply (hstack_agree_no_panic flipped w c).
    + destruct Hall; [congruence | discriminate].
    + clear -Hshapes Hagree.
      induction Hshapes as [|img t rest ts (_ & Eh & Ec) _ IH]; [constructor|].
      apply Forall_cons in Hagree as [[Ew' Ec'] Hrest].
      constructor; [split; congruence | auto].
  - exact (transpose_no_panic _ _ H).
Qed.

(** C9: on buffers of the data model, [hstack] stops on a precondition
    exactly when the sequence is empty (with the message that asks for
    one or more images) or some input differs from the first in height
    or channel count (with one of the two messages on inconsistent
    shapes); on a non-empty sequence whose inputs agree, and whose
    stacked buffer is a buffer of the data model, it returns a buffer.
    [vstack] does the same with the width in the place of the height. *)
Theorem stack_fails_exactly (images : list LinearImage) :
  Forall valid_image images ->
  Forall positive_image images ->
  (((exists msg, hstack images = PreconditionPanic msg)
    <-> images = [] \/ differs_from_first getHeight images)
   /\ (images = [] ->
       hstack images
       = PreconditionPanic "Must supply one or more images for stacking.")
   /\ (differs_from_first getHeight images -> shape_panic _ (hstack images))
   /\ (forall img0 rest,
         images = img0 :: rest ->
         ~ differs_from_first getHeight images ->
         representable (sum_widths images) (getHeight img0) (getChannels img0) ->
         exists result, hstack images = Ok result))
  /\
  (((exists msg, vstack images = PreconditionPanic msg)
    <-> images = [] \/ differs_from_first getWidth images)
   /\ (images = [] ->
       vstack images
       = PreconditionPanic "Must supply one or more images for stacking.")
   /\ (differs_from_first getWidth images -> shape_panic _ (vstack images))
   /\ (forall img0 rest,
         images = img0 :: rest ->
         ~ differs_from_first getWidth images ->
         representable (sum_heights images) (getWidth img0) (getChannels img0) ->
         exists result, vstack images = Ok result)).
Proof.
  intros Hvalid Hpos.
  assert (differs_from_first getHeight images -> shape_panic _ (hstack images)) as Hh.
  { intros (img0 & rest & -> & Hex).
    apply Forall_cons in Hpos as [(_ & ? & ?) _]. apply hstack_differs; auto. }
  assert (differs_from_first getWidth images -> shape_panic _ (vstack images)) as Hv.
  { apply vstack_differs; auto. }
  split; (split; [split|split; [|split]]).
  - intros [msg Hpanic]. destruct images as [|img0 rest]; [left; reflexivity|].
    destruct (agree_or_differ getHeight img0 rest) as [Hagree|Hdiff]; [|auto].
    exfalso. revert Hpanic.
    apply (hstack_agree_no_panic (img0 :: rest) (getHeight img0)
             (getChannels img0) msg); [discriminate | exact Hagree].
  - intros [->|Hdiff]; [eexists; reflexivity|].
    destruct (Hh Hdiff) as [E|E]; rewrite E; eexists; reflexivity.
  - intros ->. reflexivity.
  - exact Hh.
  - intros img0 rest -> Hsame Hfits.
    destruct (agree_or_differ getHeight img0 rest) as [Hagree|Hdiff]; [|contradiction].
    destruct (hstack_correct (img0 :: rest) (getHeight img0) (getChannels img0)
                ltac:(discriminate) Hvalid Hagree Hfits)
      as (result & Hrun & _). eauto.
  - intros [msg Hpanic]. destruct images as [|img0 rest]; [left; reflexivity|].
    destruct (agree_or_differ getWidth img0 rest) as [Hagree|Hdiff]; [|auto].
    exfalso. revert Hpanic.
    apply (vstack_agree_no_panic (img0 :: rest) (getWidth img0)
             (getChannels img0) msg);
      [discriminate | exact Hvalid | exact Hagree].
  - intros [->|Hdiff]; [eexists; reflexivity|].
    destruct (Hv Hdiff) as [E|E]; rewrite E; eexists; reflexivity.
  - intros ->. reflexivity.
  - exact Hv.
  - intros img0 rest -> Hsame Hfits.
    destruct (agree_or_differ getWidth img0 rest) as [Hagree|Hdiff]; [|contradiction].
    destruct (vstack_correct (img0 :: rest) (getWidth img0) (getChannels img0)
                ltac:(discriminate) Hvalid Hagree Hfits)
      as (result & Hrun & _). eauto.
Qed.

(** ** [cropRegion] *)

(** The row loop of [cropRegion] on bounds within the source. *)
Lemma cropRegion_loop (image : LinearImage) (left top width height : Z)
    (buf : list float) :
  valid_image image ->
  0 <= left -> 0 < width -> left + width <= getWidth image ->
  0 <= top -> 0 < height -> top + height <= getHeight image ->
  length buf = Z.to_nat (width * height * getChannels image) ->
  exists buf' target source,
    for_range 0 (Z.to_nat height)
      (fun row st => cropRegion_row image width (getChannels image) st)
      (buf, 0, pixelOffset image left top)
    = Ok (buf', target, source)
    /\ length buf' = length buf
    /\ (forall row col k,
          0 <= row < height -> 0 <= col < width -> 0 <= k < getChannels image ->
          buf' !! Z.to_nat ((row * width + col) * getChannels image + k)
          = pixel image (row + top) (col + left) k).
Proof.
  intros [Hw Hh Hc Hsize Hstore] Hl Hwd Hr Ht Hht Hb Hlen.
  set (W := getWidth image) in *. set (H := getHeight image) in *.
  set (c := getChannels image) in *.
  assert (0 <= W * c <= W * H * c) as BW by nia.
  assert (0 <= width * c <= W * c) as Bw by nia.
  destruct (for_range_inv
    (fun r (st : list float * Z * Z) =>
       let '(b, target, source) := st in
       target = r * width * c
       /\ source = ((top + r) * W + left) * c
       /\ length b = length buf
       /\ (forall row col k,
             0 <= row < r -> 0 <= col < width -> 0 <= k < c ->
             b !! Z.to_nat ((row * width + col) * c + k)
             = pixel image (row + top) (col + left) k))
    (fun row st => cropRegion_row image width c st)
    (Z.to_nat height) 0 (buf, 0, pixelOffset image left top))
    as ([[b tgt] src] & Hrun & _ & _ & Hlen' & Hcells).
  - unfold pixelOffset. fold W c. split; [lia|]. split; [f_equal; lia|].
    split; [reflexivity|]. intros; lia.
  - intros r [[b tgt] src] Hr' (-> & -> & Hlen' & Hcells).
    rewrite Z2Nat.id in Hr' by lia.
    unfold cropRegion_row. fold W.
    rewrite (wrap32_small (width * c)), (wrap32_small (W * c)) by lia.
    assert (r * width * c + width * c <= width * height * c) as B1.
    { replace (r * width * c + width * c) with (width * (r + 1) * c) by lia.
      apply Z.mul_le_mono_nonneg_r; [lia|]. nia. }
    assert (((top + r) * W + left) * c + width * c <= W * H * c) as B2.
    { rewrite <- Z.mul_add_distr_r. apply Z.mul_le_mono_nonneg_r; [lia|]. nia. }
    assert (0 <= r * width * c) as B3 by (repeat apply Z.mul_nonneg_nonneg; lia).
    assert (0 <= ((top + r) * W + left) * c) as B4
      by (apply Z.mul_nonneg_nonneg; nia).
    destruct (memcpy_spec b (get image) (r * width * c)
                (((top + r) * W + left) * c) (width * c))
      as (b1 & Hcpy & Hlen1 & Hnew & Hold); try lia.
    rewrite Hcpy. cbn [bind].
    eexists. split; [reflexivity|]. cbn beta iota.
    split; [lia|]. split; [lia|]. split; [congruence|].
    intros row col k Hrow Hcol Hk.
    destruct (Z.eq_dec row r) as [->|Hne].
    + replace ((r * width + col) * c + k)
        with (r * width * c + (col * c + k)) by lia.
      rewrite Hnew by nia.
      unfold pixel, pixelOffset. fold W c. f_equal. lia.
    + rewrite Hold; [apply Hcells; lia|]. left.
      assert ((row * width + col + 1) * c <= r * width * c) as B5
        by (apply Z.mul_le_mono_nonneg_r; [lia|]; nia).
      rewrite Z2Nat.id by nia. lia.
  - exists b, tgt, src. split; [exact Hrun|]. split; [exact Hlen'|].
    intros row col k Hrow Hcol Hk. apply Hcells; lia.
Qed.

(** C6: within a source of the data model, that is for
    0 <= left < right <= width and 0 <= top < bottom <= height,
    [cropRegion] returns a buffer of width right - left, height
    bottom - top and the channel count of the source, whose pixel
    (row, col) is the source's pixel (row + top, col + left) in every
    channel. *)
Theorem cropRegion_pixels (image : LinearImage) (left top right bottom : Z) :
  valid_image image ->
  0 <= left < right -> right <= getWidth image ->
  0 <= top < bottom -> bottom <= getHeight image ->
  exists result,
    cropRegion image left top right bottom = Ok result
    /\ getWidth result = right - left
    /\ getHeight result = bottom - top
    /\ getChannels result = getChannels image
    /\ (forall row col k,
          0 <= row < bottom - top -> 0 <= col < right - left ->
          0 <= k < getChannels image ->
          is_Some (pixel image (row + top) (col + left) k)
          /\ pixel result row col k = pixel image (row + top) (col + left) k).
Proof.
  intros Hvalid Hl Hr Ht Hb. pose proof Hvalid as [Hw Hh Hc Hsize Hstore].
  destruct (cropRegion_loop image left top (right - left) (bottom - top)
              (replicate (Z.to_nat ((right - left) * (bottom - top)
                                    * getChannels image)) F32.zero)
              Hvalid) as (buf & tgt & src & Hrun & Hlen & Hcells);
    try lia.
  { apply length_replicate. }
  exists (mkLinearImage (right - left) (bottom - top) (getChannels image) buf).
  unfold cropRegion, newLinearImage. cbn [get].
  rewrite !wrap32_small by lia. rewrite Hrun. cbn [bind].
  do 4 (split; [reflexivity|]).
  intros row col k Hrow Hcol Hk. split.
  - apply valid_pixel; auto; lia.
  - rewrite <- (Hcells row col k Hrow Hcol Hk). reflexivity.
Qed.

(** C10: [cropRegion] checks nothing.  It never stops on a precondition,
    and the buffer it returns records the width (right - left) mod 2^32
    and the height (bottom - top) mod 2^32, the results of the 32-bit
    unsigned subtractions, also when right <= left or bottom <= top: on a
    2 x 2 buffer the bounds left = 1, right = 0, top = bottom = 0 give a
    buffer that records the width 2^32 - 1. *)
Theorem cropRegion_unchecked (image : LinearImage) (left top right bottom : Z) :
  (forall msg, cropRegion image left top right bottom <> PreconditionPanic msg)
  /\ (forall result,
        cropRegion image left top right bottom = Ok result ->
        getWidth result = (right - left) mod 2 ^ 32
        /\ getHeight result = (bottom - top) mod 2 ^ 32
        /\ getChannels result = getChannels image)
  /\ cropRegion img2x2 1 0 0 0 = Ok (mkLinearImage 4294967295 0 1 []).
Proof.
  split; [|split].
  - intros msg H. unfold cropRegion in H.
    apply bind_panic in H as [H|([[b t] s] & _ & H)]; [|discriminate].
    revert H. apply for_range_no_panic. clear. intros row [[b t] s] msg H.
    unfold cropRegion_row in H.
    apply bind_panic in H as [H|(b' & _ & H)]; [|discriminate].
    exact (memcpy_no_panic _ _ _ _ _ _ H).
  - intros result H. unfold cropRegion in H.
    apply bind_Ok in H as ([[b t] s] & _ & H). injection H as <-.
    cbn [getWidth getHeight getChannels]. auto.
  - reflexivity.
Qed.

(** ** [combineChannels] *)

Lemma while_loop_inv {S : Type} (I : Z -> S -> Prop) (cond : S -> bool)
    (body : S -> outcome S) (n : nat) :
  forall (lo : Z) (fuel : nat) (s : S),
    (n <= fuel)%nat ->
    I lo s ->
    (forall i s, lo <= i < lo + Z.of_nat n -> I i s ->
       cond s = true /\ exists s', body s = Ok s' /\ I (i + 1) s') ->
    (forall s, I (lo + Z.of_nat n) s -> cond s = false) ->
    exists s', while_loop fuel cond body s = Ok s' /\ I (lo + Z.of_nat n) s'.
Proof.
  induction n as [|n IH]; intros lo fuel s Hfuel HI Hstep Hexit.
  - rewrite Z.add_0_r in *. exists s. split; [|exact HI].
    destruct fuel; simpl; rewrite (Hexit s HI); reflexivity.
  - destruct fuel as [|fuel]; [lia|].
    destruct (Hstep lo s ltac:(lia) HI) as (Hc & s1 & Hb & HI1).
    destruct (IH (lo + 1) fuel s1 ltac:(lia) HI1) as (s2 & Hrun & HI2).
    + intros i s0 Hi. apply Hstep. lia.
    + intros s0 Hs0. apply Hexit.
      replace (lo + Z.of_nat (Datatypes.S n)) with (lo + 1 + Z.of_nat n) by lia.
      exact Hs0.
    + exists s2. simpl. rewrite Hc, Hb. simpl. split; [exact Hrun|].
      replace (lo + Z.of_nat (Datatypes.S n)) with (lo + 1 + Z.of_nat n) by lia.
      exact HI2.
Qed.

Lemma combine_check_pass (width height : Z) (planes : list LinearImage) :
  Forall (fun p => getWidth p = width /\ getHeight p = height
                   /\ getChannels p = 1) planes ->
  for_each planes (combine_check width height) tt = Ok tt.
Proof.
  induction 1 as [|p l (Ew & Eh & Ec) _ IH]; [reflexivity|].
  cbn [for_each]. unfold combine_check at 1.
  rewrite Ew, Eh, Ec, !Z.eqb_refl. exact IH.
Qed.

Lemma combine_check_fail (width height : Z) (planes : list LinearImage) :
  Exists (odd_plane width height) planes ->
  plane_panic _ (for_each planes (combine_check width height) tt).
Proof.
  induction planes as [|p l IH]; intros Hex; [inversion Hex|].
  cbn [for_each]. unfold combine_check at 1. unfold plane_panic.
  destruct (Z.eqb_spec (getWidth p) width) as [Ew|Nw]; cbn; [|auto].
  destruct (Z.eqb_spec (getHeight p) height) as [Eh|Nh]; cbn; [|auto].
  destruct (Z.eqb_spec (getChannels p) 1) as [Ec|Nc]; cbn; [|auto].
  apply IH. apply Exists_cons in Hex as [[?|[?|?]]|Hex]; try contradiction.
  exact Hex.
Qed.

Section CombineLoop.

Variable planes : list LinearImage.
Variables w h : Z.

Let n : Z := Z.of_nat (length planes).

Hypothesis planes_valid : Forall valid_image planes.
Hypothesis planes_agree :
  Forall (fun p => getWidth p = w /\ getHeight p = h /\ getChannels p = 1)
         planes.
Hypothesis pixels_nonneg : 0 <= w * h.
Hypothesis result_fits : w * h * n < two32.

(** One round of the outer loop: pixel [s] of every plane not yet
    visited goes to its channel; nothing else changes. *)
Lemma combine_pixel_planes (s : Z) :
  0 <= s < w * h ->
  forall (rest done : list LinearImage) (dst : list float),
    planes = done ++ rest ->
    length dst = Z.to_nat (w * h * n) ->
    exists dst',
      for_each rest (combine_plane s)
        (dst, s * n + Z.of_nat (length done))
      = Ok (dst', (s + 1) * n)
      /\ length dst' = length dst
      /\ (forall (k : nat) plane,
            rest !! k = Some plane ->
            dst' !! Z.to_nat (s * n + (Z.of_nat (length done) + Z.of_nat k))
            = get plane !! Z.to_nat s)
      /\ (forall p : nat,
            Z.of_nat p < s * n + Z.of_nat (length done)
            \/ (s + 1) * n <= Z.of_nat p ->
            dst' !! p = dst !! p).
Proof.
  intros Hs. induction rest as [|plane rest IH]; intros done dst E Hlen.
  - rewrite app_nil_r in E. subst done. exists dst.
    split; [simpl; do 2 f_equal; unfold n; lia|]. split; [reflexivity|].
    split; [intros k plane Hk; destruct k; discriminate|]. reflexivity.
  - assert (valid_image plane) as Vp.
    { rewrite E in planes_valid. apply Forall_app in planes_valid as [_ Hc'].
      apply Forall_cons in Hc' as [? _]. auto. }
    assert (getWidth plane = w /\ getHeight plane = h /\ getChannels plane = 1)
      as (Ew & Eh & Ec).
    { rewrite E in planes_agree. apply Forall_app in planes_agree as [_ Hc'].
      apply Forall_cons in Hc' as [? _]. auto. }
    assert (n = Z.of_nat (length done) + 1 + Z.of_nat (length rest)) as En.
    { unfold n. rewrite E, length_app. simpl. lia. }
    destruct Vp as [_ _ _ _ Hstore]. rewrite Ew, Eh, Ec in Hstore.
    set (ld := Z.of_nat (length done)) in *.
    assert ((s + 1) * n <= w * h * n) as B1
      by (apply Z.mul_le_mono_nonneg_r; lia).
    assert (0 <= s * n) as B2 by (apply Z.mul_nonneg_nonneg; lia).
    destruct (lookup_lt_is_Some_2 (get plane) (Z.to_nat s) ltac:(lia)) as [x Hx].
    cbn [for_each]. unfold combine_plane at 1.
    rewrite (load_Some _ _ x) by (auto; lia). cbn [bind].
    rewrite store_in_range by lia. cbn [bind].
    rewrite wrap32_small by lia.
    destruct (IH (done ++ [plane]) (<[Z.to_nat (s * n + ld) := x]> dst))
      as (dst' & Hrun & Hlen' & Hcells & Hrest).
    { rewrite <- app_assoc. exact E. }
    { rewrite length_insert. exact Hlen. }
    rewrite length_app in Hrun, Hcells, Hrest. simpl in Hrun, Hcells, Hrest.
    rewrite Nat2Z.inj_add in Hrun, Hcells, Hrest. fold ld in Hrun, Hcells, Hrest.
    rewrite length_insert in Hlen'.
    exists dst'. split; [|split; [exact Hlen'|split]].
    + rewrite <- Hrun. do 2 f_equal. lia.
    + intros k p Hk. destruct k as [|k].
      * injection Hk as <-. rewrite Hrest by lia.
        replace (s * n + (ld + Z.of_nat 0)) with (s * n + ld) by lia.
        rewrite list_lookup_insert_eq by lia. now rewrite Hx.
      * simpl in Hk. rewrite <- (Hcells k p Hk). f_equal. lia.
    + intros p Hp. rewrite Hrest by lia.
      apply list_lookup_insert_ne. lia.
Qed.

(** The [while] loop of [combineChannels] ends and interleaves the
    planes. *)
Lemma combine_loop (dst : list float) :
  planes <> [] ->
  length dst = Z.to_nat (w * h * n) ->
  exists dst' sindex dindex,
    while_loop (Datatypes.S (Z.to_nat (wrap32 (w * h))))
      (fun st => snd st <? wrap64 (wrap32 (w * h) * n))
      (combine_pixel planes)
      (dst, 0, 0)
    = Ok (dst', sindex, dindex)
    /\ length dst' = length dst
    /\ (forall p (k : nat) plane,
          0 <= p < w * h -> planes !! k = Some plane ->
          dst' !! Z.to_nat (p * n + Z.of_nat k) = get plane !! Z.to_nat p).
Proof.
  intros Hne Hlen.
  assert (0 < n) as Hn by (unfold n; destruct planes; [congruence | simpl; lia]).
  assert (w * h <= w * h * n) as B0 by nia.
  rewrite (wrap32_small (w * h)) by lia.
  assert (wrap64 (w * h * n) = w * h * n) as ->.
  { unfold wrap64. apply Z.mod_small. unfold two32, two64 in *. lia. }
  destruct (while_loop_inv
    (fun s (st : list float * Z * Z) =>
       let '(d, sindex, dindex) := st in
       sindex = s /\ dindex = s * n
       /\ length d = length dst
       /\ (forall p (k : nat) plane,
             0 <= p < s -> planes !! k = Some plane ->
             d !! Z.to_nat (p * n + Z.of_nat k) = get plane !! Z.to_nat p))
    (fun st => snd st <? w * h * n)
    (combine_pixel planes)
    (Z.to_nat (w * h)) 0 (Datatypes.S (Z.to_nat (w * h))) (dst, 0, 0))
    as ([[d si] di] & Hrun & _ & _ & Hlen' & Hcells).
  - lia.
  - split; [reflexivity|]. split; [lia|]. split; [reflexivity|]. intros; lia.
  - intros s [[d si] di] Hs (-> & -> & Hlen' & Hcells).
    rewrite Z2Nat.id in Hs by lia. cbn [snd]. split.
    + apply Z.ltb_lt. apply Z.mul_lt_mono_pos_r; lia.
    + destruct (combine_pixel_planes s ltac:(lia) planes [] d eq_refl
                  ltac:(congruence)) as (d' & Hr & Hl & Hnew & Hold).
      simpl in Hr, Hnew, Hold. rewrite Z.add_0_r in Hr, Hold.
      unfold combine_pixel. rewrite Hr. cbn [bind].
      rewrite wrap32_small by lia.
      eexists. split; [reflexivity|]. cbn beta iota.
      split; [reflexivity|]. split; [reflexivity|]. split; [congruence|].
      intros p k plane Hp Hk. destruct (Z.eq_dec p s) as [->|Hne'].
      * rewrite <- (Hnew k plane Hk). reflexivity.
      * assert (Z.of_nat k < n) as Hkn
          by (unfold n; apply lookup_lt_Some in Hk; lia).
        rewrite Hold; [apply Hcells; auto; lia|]. left.
        assert ((p + 1) * n <= s * n) by (apply Z.mul_le_mono_nonneg_r; lia).
        assert (0 <= p * n) by (apply Z.mul_nonneg_nonneg; lia).
        lia.
  - intros [[d si] di] (-> & -> & _). cbn [snd]. apply Z.ltb_ge.
    rewrite Z2Nat.id by lia. lia.
  - exists d, si, di. split; [exact Hrun|]. split; [exact Hlen'|].
    intros p k plane Hp Hk. apply Hcells; auto. lia.
Qed.

End CombineLoop.

(** C7: for one or more buffers, the first of width w and height h: when
    every buffer is a buffer of the data model with one channel, width w
    and height h, and the combined buffer is a buffer of the data model,
    [combineChannels] returns a w x h buffer with as many channels as
    there are planes, in which channel k of the pixel of flattened index
    p is the value of plane k at p; when some buffer has another width or
    height, or a channel count other than 1, it stops on the precondition
    that the planes have the same width, the same height and a single
    channel, and returns no buffer. *)
Theorem combineChannels_planes (img0 : LinearImage) (rest : list LinearImage) :
  let planes := img0 :: rest in
  let w := getWidth img0 in
  let h := getHeight img0 in
  let n := Z.of_nat (length planes) in
  (Forall valid_image planes ->
   Forall (fun p => getWidth p = w /\ getHeight p = h /\ getChannels p = 1)
          planes ->
   representable w h n ->
   exists result,
     combineChannels planes = Ok result
     /\ getWidth result = w
     /\ getHeight result = h
     /\ getChannels result = n
     /\ (forall (k : nat) plane p,
           planes !! k = Some plane -> 0 <= p < w * h ->
           is_Some (get plane !! Z.to_nat p)
           /\ get result !! Z.to_nat (p * n + Z.of_nat k)
              = get plane !! Z.to_nat p))
  /\ (Exists (odd_plane w h) planes ->
      plane_panic _ (combineChannels planes)).
Proof.
  intros planes w h n. subst planes w h n. split.
  - intros Hvalid Hagree [Hw Hh Hn Hsize _].
    cbn [newLinearImage getWidth getHeight getChannels] in Hw, Hh, Hn, Hsize.
    assert (0 <= getWidth img0 * getHeight img0) as Hwh by nia.
    destruct (combine_loop (img0 :: rest) (getWidth img0) (getHeight img0)
                Hvalid Hagree Hwh Hsize
                (replicate (Z.to_nat (getWidth img0 * getHeight img0
                                      * Z.of_nat (length (img0 :: rest))))
                           F32.zero)
                ltac:(discriminate) ltac:(apply length_replicate))
      as (dst & si & di & Hrun & Hlen & Hcells).
    exists (mkLinearImage (getWidth img0) (getHeight img0)
              (Z.of_nat (length (img0 :: rest))) dst).
    unfold combineChannels.
    change (0 <? Z.of_nat (length (img0 :: rest))) with true.
    cbn [ASSERT_PRECONDITION bind].
    rewrite (combine_check_pass _ _ _ Hagree). cbn [bind].
    unfold newLinearImage. cbn [get].
    rewrite (wrap32_small (Z.of_nat (length (img0 :: rest)))) by lia.
    rewrite Hrun. cbn [bind].
    do 4 (split; [reflexivity|]).
    intros k plane p Hk Hp. split.
    + rewrite Forall_lookup in Hvalid, Hagree.
      destruct (Hagree k plane Hk) as (Ew & Eh & Ec).
      destruct (Hvalid k plane Hk) as [_ _ _ _ Hstore].
      rewrite Ew, Eh, Ec in Hstore.
      apply lookup_lt_is_Some_2. lia.
    + apply Hcells; auto.
  - intros Hodd. unfold combineChannels.
    change (0 <? Z.of_nat (length (img0 :: rest))) with true.
    cbn [ASSERT_PRECONDITION bind].
    destruct (combine_check_fail _ _ _ Hodd) as [E|[E|E]];
      rewrite E; unfold plane_panic; cbn [bind]; auto.
Qed.

(** ** [vectorsToColors] *)

(** The loop of [vectorsToColors] on a 3-channel buffer. *)
Lemma vectorsToColors_loop (pixels : Z) (src dst : list float) :
  0 <= pixels ->
  length src = Z.to_nat (pixels * 3) ->
  length dst = Z.to_nat (pixels * 3) ->
  for_range 0 (Z.to_nat pixels)
    (fun n dst =>
       let! v := load3 src n in
       store3 dst n (float3_scale F32.half (float3_add v (float3_splat F32.one))))
    dst
  = Ok (map remap src).
Proof.
  intros Hp Hsrc Hdst.
  destruct (for_range_inv
    (fun n d => length d = length dst
       /\ forall p : nat, Z.of_nat p < 3 * n -> d !! p = remap <$> src !! p)
    (fun n dst =>
       let! v := load3 src n in
       store3 dst n (float3_scale F32.half (float3_add v (float3_splat F32.one))))
    (Z.to_nat pixels) 0 dst) as (d & Hrun & Hlen & Hcells).
  - split; [reflexivity|]. intros; lia.
  - intros n d Hn (Hlen & Hcells).
    destruct (lookup_lt_is_Some_2 src (Z.to_nat (3 * n)) ltac:(lia)) as [x Hx].
    destruct (lookup_lt_is_Some_2 src (Z.to_nat (3 * n + 1)) ltac:(lia)) as [y Hy].
    destruct (lookup_lt_is_Some_2 src (Z.to_nat (3 * n + 2)) ltac:(lia)) as [z Hz].
    unfold load3.
    rewrite (load_Some _ _ x), (load_Some _ _ y), (load_Some _ _ z) by (auto; lia).
    cbn [bind float3_add float3_scale float3_splat store3].
    fold (remap x) (remap y) (remap z).
    rewrite store_in_range by lia. cbn [bind].
    rewrite store_in_range by (rewrite length_insert; lia). cbn [bind].
    rewrite store_in_range by (rewrite !length_insert; lia).
    eexists. split; [reflexivity|]. split; [rewrite !length_insert; exact Hlen|].
    intros p Hp'.
    destruct (Z.eq_dec (Z.of_nat p) (3 * n + 2)) as [E2|N2].
    { replace p with (Z.to_nat (3 * n + 2)) by lia.
      rewrite list_lookup_insert_eq by (rewrite !length_insert; lia).
      now rewrite Hz. }
    rewrite list_lookup_insert_ne by lia.
    destruct (Z.eq_dec (Z.of_nat p) (3 * n + 1)) as [E1|N1].
    { replace p with (Z.to_nat (3 * n + 1)) by lia.
      rewrite list_lookup_insert_eq by (rewrite !length_insert; lia).
      now rewrite Hy. }
    rewrite list_lookup_insert_ne by lia.
    destruct (Z.eq_dec (Z.of_nat p) (3 * n)) as [E0|N0].
    { replace p with (Z.to_nat (3 * n)) by lia.
      rewrite list_lookup_insert_eq by lia.
      now rewrite Hx. }
    rewrite list_lookup_insert_ne by lia. apply Hcells. lia.
  - rewrite Hrun. f_equal. apply list_eq. intros p.
    rewrite list_lookup_fmap.
    destruct (Z_lt_le_dec (Z.of_nat p) (3 * pixels)) as [Hin|Hout].
    + apply Hcells. lia.
    + rewrite !lookup_ge_None_2 by lia. reflexivity.
Qed.

(** ** Binary32 arithmetic of [remap] *)

Module F32Facts.

(** The number of binary digits of a mantissa. *)
Lemma digits_bounds (m : positive) :
  2 ^ (Zpos (digits2_pos m) - 1) <= Zpos m < 2 ^ Zpos (digits2_pos m).
Proof.
  induction m as [m IH|m IH|]; cbn [digits2_pos].
  - rewrite Pos2Z.inj_succ. replace (Z.succ (Zpos (digits2_pos m)) - 1)
      with (Z.succ (Zpos (digits2_pos m) - 1)) by lia.
    rewrite !Z.pow_succ_r by lia. lia.
  - rewrite Pos2Z.inj_succ. replace (Z.succ (Zpos (digits2_pos m)) - 1)
      with (Z.succ (Zpos (digits2_pos m) - 1)) by lia.
    rewrite !Z.pow_succ_r by lia. lia.
  - simpl. lia.
Qed.

Lemma digits_unique (m : positive) (d : Z) :
  2 ^ (d - 1) <= Zpos m < 2 ^ d -> Zpos (digits2_pos m) = d.
Proof.
  intros [Hlo Hhi]. pose proof (digits_bounds m) as [Blo Bhi].
  assert (0 < d) as Hd.
  { destruct (Z_lt_le_dec 0 d) as [|Hle]; [assumption|].
    destruct (Z.eq_dec d 0) as [->|]; [simpl in Hhi; lia|].
    rewrite Z.pow_neg_r in Hhi by lia. lia. }
  destruct (Z.lt_trichotomy (Zpos (digits2_pos m)) d) as [Hlt|[Heq|Hgt]];
    [|assumption|].
  - assert (2 ^ Zpos (digits2_pos m) <= 2 ^ (d - 1))
      by (apply Z.pow_le_mono_r; lia). lia.
  - assert (2 ^ d <= 2 ^ (Zpos (digits2_pos m) - 1))
      by (apply Z.pow_le_mono_r; lia). lia.
Qed.

(** Shifting a mantissa to the left. *)
Lemma iter_xO (d m : positive) :
  Zpos (Pos.iter xO m d) = Zpos m * 2 ^ Zpos d.
Proof.
  induction d as [|d IH] using Pos.peano_ind.
  - simpl. lia.
  - rewrite Pos.iter_succ, Pos2Z.inj_xO, IH, Pos2Z.inj_succ, Z.pow_succ_r by lia.
    lia.
Qed.

(** Shifting a record to the right divides its mantissa. *)
Lemma shr_1_m (mrs : shr_record) :
  0 <= shr_m mrs -> shr_m (shr_1 mrs) = shr_m mrs / 2.
Proof.
  destruct mrs as [m r s]. cbn [shr_m]. intros Hm.
  destruct m as [|[p|p|]|p]; cbn [shr_1 shr_m]; try lia.
  - reflexivity.
  - rewrite Pos2Z.inj_xI. apply (Z.div_unique _ _ _ 1); lia.
  - rewrite Pos2Z.inj_xO. apply (Z.div_unique _ _ _ 0); lia.
  - reflexivity.
Qed.

Lemma shr_1_nonneg (mrs : shr_record) :
  0 <= shr_m mrs -> 0 <= shr_m (shr_1 mrs).
Proof.
  intros H. rewrite shr_1_m by exact H. apply Z.div_pos; lia.
Qed.

Lemma pow2_xO (p : positive) : 2 ^ Zpos p~0 = 2 ^ Zpos p * 2 ^ Zpos p.
Proof.
  change (Zpos p~0) with (2 * Zpos p).
  replace (2 * Zpos p) with (Zpos p + Zpos p) by lia.
  apply Z.pow_add_r; lia.
Qed.

Lemma pow2_xI (p : positive) : 2 ^ Zpos p~1 = 2 * (2 ^ Zpos p * 2 ^ Zpos p).
Proof.
  change (Zpos p~1) with (2 * Zpos p + 1).
  replace (2 * Zpos p + 1) with (Z.succ (Zpos p + Zpos p)) by lia.
  rewrite Z.pow_succ_r, Z.pow_add_r by lia. reflexivity.
Qed.

Lemma iter_shr_m (p : positive) :
  forall mrs : shr_record,
    0 <= shr_m mrs ->
    shr_m (SpecFloat.iter_pos shr_1 p mrs) = shr_m mrs / 2 ^ Zpos p.
Proof.
  induction p as [p IH|p IH|]; intros mrs Hm; cbn [SpecFloat.iter_pos].
  - assert (0 <= shr_m (shr_1 mrs)) as H1 by (apply shr_1_nonneg; exact Hm).
    assert (0 <= shr_m (SpecFloat.iter_pos shr_1 p (shr_1 mrs))) as H2
      by (rewrite IH by exact H1; apply Z.div_pos; lia).
    rewrite IH, IH, shr_1_m by assumption.
    rewrite !Z.div_div by lia. f_equal. symmetry. apply pow2_xI.
  - assert (0 <= shr_m (SpecFloat.iter_pos shr_1 p mrs)) as H2
      by (rewrite IH by exact Hm; apply Z.div_pos; lia).
    rewrite IH, IH by assumption.
    rewrite Z.div_div by lia. f_equal. symmetry. apply pow2_xO.
  - rewrite shr_1_m by exact Hm. reflexivity.
Qed.

(** Rounding to nearest even adds at most one. *)
Lemma round_nearest_even_bounds (q : Z) (l : location) :
  q <= round_nearest_even q l <= q + 1.
Proof.
  destruct l as [|[| |]]; cbn [round_nearest_even]; try lia.
  destruct (Z.even q); lia.
Qed.

(** The exponent of the format: 24 digits, none below 2^-149. *)
Lemma fexp32 (e : Z) : fexp F32.prec F32.emax e = Z.max (e - 24) (-149).
Proof. reflexivity. Qed.

(** A mantissa that needs no shift is kept as it is. *)
Lemma round_kept (sx : bool) (m : positive) (e : Z) :
  fexp F32.prec F32.emax (Zpos (digits2_pos m) + e) <= e ->
  e <= 104 ->
  binary_round_aux F32.prec F32.emax sx (Zpos m) e loc_Exact
  = S754_finite sx m e.
Proof.
  intros Hexp He. unfold binary_round_aux, shr_fexp.
  cbn [Zdigits2 shr_record_of_loc].
  assert (forall mrs, shr mrs e
            (fexp F32.prec F32.emax (Zpos (digits2_pos m) + e) - e) = (mrs, e))
    as Hshr.
  { intros mrs. unfold shr.
    destruct (fexp F32.prec F32.emax (Zpos (digits2_pos m) + e) - e) eqn:E;
      try reflexivity. lia. }
  rewrite Hshr. cbn [shr_m loc_of_shr_record round_nearest_even Zdigits2].
  rewrite Hshr. cbn [shr_m].
  destruct (Z.leb_spec e (F32.emax - F32.prec)) as [_|Hgt]; [reflexivity|].
  unfold F32.emax, F32.prec in Hgt. lia.
Qed.

(** A mantissa of 24 + t digits is shifted by t and rounded: it keeps 24
    digits, or becomes the next power of two. *)
Lemma round_shifted (sx : bool) (m : positive) (e : Z) (t : positive) :
  Zpos (digits2_pos m) = 24 + Zpos t ->
  -149 <= e + Zpos t <= 103 ->
  (exists q,
      binary_round_aux F32.prec F32.emax sx (Zpos m) e loc_Exact
      = S754_finite sx q (e + Zpos t)
      /\ Zpos (digits2_pos q) = 24)
  \/ binary_round_aux F32.prec F32.emax sx (Zpos m) e loc_Exact
     = S754_finite sx 8388608 (e + Zpos t + 1).
Proof.
  intros Hd He. unfold binary_round_aux, shr_fexp.
  cbn [Zdigits2 shr_record_of_loc].
  rewrite Hd, fexp32.
  replace (Z.max (24 + Zpos t + e - 24) (-149) - e) with (Zpos t) by lia.
  cbn [shr].
  set (mrs := SpecFloat.iter_pos shr_1 t (Build_shr_record (Zpos m) false false)).
  assert (shr_m mrs = Zpos m / 2 ^ Zpos t) as Hq
    by (apply iter_shr_m; cbn [shr_m]; lia).
  assert (2 ^ 23 <= shr_m mrs < 2 ^ 24) as Bq.
  { rewrite Hq. pose proof (digits_bounds m) as [Blo Bhi]. rewrite Hd in Blo, Bhi.
    replace (24 + Zpos t - 1) with (23 + Zpos t) in Blo by lia.
    rewrite Z.pow_add_r in Blo, Bhi by lia.
    assert (0 < 2 ^ Zpos t) by (apply Z.pow_pos_nonneg; lia).
    split.
    - apply Z.div_le_lower_bound; lia.
    - apply Z.div_lt_upper_bound; lia. }
  pose proof (round_nearest_even_bounds (shr_m mrs) (loc_of_shr_record mrs)) as Br.
  destruct (round_nearest_even (shr_m mrs) (loc_of_shr_record mrs))
    as [|q|q] eqn:Eq; try (change (2 ^ 23) with 8388608 in *; lia).
  cbn [Zdigits2].
  destruct (Z_lt_le_dec (Zpos q) (2 ^ 24)) as [Hlt|Hge].
  - left. exists q.
    assert (Zpos (digits2_pos q) = 24) as Hdq
      by (apply digits_unique; change (24 - 1) with 23; lia).
    rewrite Hdq, fexp32.
    replace (Z.max (24 + (e + Zpos t) - 24) (-149) - (e + Zpos t)) with 0 by lia.
    cbn [shr shr_m].
    destruct (Z.leb_spec (e + Zpos t) (F32.emax - F32.prec)) as [_|Hgt];
      [split; reflexivity|].
    unfold F32.emax, F32.prec in Hgt. lia.
  - right.
    assert (q = 16777216%positive) as -> by (change (2 ^ 24) with 16777216 in *; lia).
    change (digits2_pos 16777216) with 25%positive. rewrite fexp32.
    replace (Z.max (25 + (e + Zpos t) - 24) (-149) - (e + Zpos t)) with 1 by lia.
    cbn [shr SpecFloat.iter_pos shr_1 shr_m orb].
    destruct (Z.leb_spec (e + Zpos t + 1) (F32.emax - F32.prec)) as [_|Hgt];
      [reflexivity|].
    unfold F32.emax, F32.prec in Hgt. lia.
Qed.

(** Halving a float of 24 digits lowers its exponent. *)
Lemma mul_half (q : positive) (e : Z) :
  Zpos (digits2_pos q) = 24 -> -148 <= e <= 105 ->
  F32.mul F32.half (S754_finite false q e) = S754_finite false q (e - 1).
Proof.
  intros Hd He. unfold F32.mul, F32.half, SFmul. cbn [xorb].
  unfold binary_round_aux, shr_fexp. cbn [Zdigits2 shr_record_of_loc].
  assert (Zpos (digits2_pos (8388608 * q)) = 47) as ->.
  { apply digits_unique. pose proof (digits_bounds q) as [Blo Bhi].
    rewrite Hd in Blo, Bhi. rewrite Pos2Z.inj_mul.
    change (2 ^ (24 - 1)) with 8388608 in Blo.
    change (2 ^ 24) with 16777216 in Bhi.
    change (2 ^ (47 - 1)) with 70368744177664.
    change (2 ^ 47) with 140737488355328. lia. }
  rewrite fexp32.
  replace (Z.max (47 + (-24 + e) - 24) (-149) - (-24 + e)) with 23 by lia.
  cbn [shr].
  replace (SpecFloat.iter_pos shr_1 23
             (Build_shr_record (Zpos (8388608 * q)) false false))
    with (Build_shr_record (Zpos q) false false) by (vm_compute; reflexivity).
  cbn [shr_m loc_of_shr_record round_nearest_even Zdigits2].
  rewrite Hd, fexp32.
  replace (Z.max (24 + (-24 + e + 23) - 24) (-149) - (-24 + e + 23)) with 0 by lia.
  cbn [shr shr_m].
  destruct (Z.leb_spec (-24 + e + 23) (F32.emax - F32.prec)) as [_|Hgt].
  - f_equal. lia.
  - unfold F32.emax, F32.prec in Hgt. lia.
Qed.

(** What validity says of a finite float. *)
Lemma valid_finite (s : bool) (m : positive) (e : Z) :
  F32.valid (S754_finite s m e) = true ->
  Z.max (Zpos (digits2_pos m) + e - 24) (-149) = e /\ e <= 104.
Proof.
  unfold F32.valid, valid_binary, bounded, canonical_mantissa.
  rewrite fexp32. intros H. apply andb_prop in H as [H1 H2].
  apply Z.eqb_eq in H1. apply Z.leb_le in H2.
  unfold F32.emax, F32.prec in H2. lia.
Qed.

Lemma digits_iter_xO (m k : positive) :
  Zpos (digits2_pos (Pos.iter xO m k)) = Zpos (digits2_pos m) + Zpos k.
Proof.
  apply digits_unique. rewrite iter_xO.
  pose proof (digits_bounds m) as [Blo Bhi].
  replace (Zpos (digits2_pos m) + Zpos k - 1)
    with (Zpos (digits2_pos m) - 1 + Zpos k) by lia.
  rewrite !Z.pow_add_r by lia.
  assert (0 < 2 ^ Zpos k) by (apply Z.pow_pos_nonneg; lia).
  split; [apply Z.mul_le_mono_nonneg_r; lia | apply Z.mul_lt_mono_pos_r; lia].
Qed.

(** Aligning a mantissa to a lower exponent shifts it to the left. *)
Lemma shl_align_higher (m : positive) (e e' : Z) :
  e <= e' -> shl_align m e e' = (m, e).
Proof.
  intros H. unfold shl_align. destruct (e' - e) eqn:E; try reflexivity. lia.
Qed.

Lemma shl_align_lower (m : positive) (e e' : Z) :
  e' < e ->
  exists d, Zpos d = e - e' /\ shl_align m e e' = (Pos.iter xO m d, e').
Proof.
  intros H. unfold shl_align. destruct (e' - e) as [|d|d] eqn:E; try lia.
  exists d. split; [lia | reflexivity].
Qed.

(** Adding one to a float in (0, 1). *)
Lemma add_one_pos (m : positive) (e : Z) :
  F32.valid (S754_finite false m e) = true -> e < -23 ->
  (exists q,
      F32.add (S754_finite false m e) F32.one = S754_finite false q (-23)
      /\ Zpos (digits2_pos q) = 24)
  \/ F32.add (S754_finite false m e) F32.one = S754_finite false 8388608 (-22).
Proof.
  intros Hv He. destruct (valid_finite _ _ _ Hv) as [Hc _].
  pose proof (digits_bounds m) as [_ Bm].
  assert (Zpos m < 2 ^ 24) as Bm'.
  { eapply Z.lt_le_trans; [exact Bm|]. apply Z.pow_le_mono_r; lia. }
  unfold F32.add, F32.one, SFadd. rewrite (Z.min_l e (-23)) by lia.
  rewrite (shl_align_higher m e e) by lia.
  destruct (shl_align_lower 8388608 (-23) e He) as (d & Hd & ->).
  cbn [fst cond_Zopp].
  change (Zpos m + Zpos (Pos.iter xO 8388608%positive d))
    with (Zpos (m + Pos.iter xO 8388608%positive d)).
  unfold binary_normalize, binary_round.
  assert (Zpos (digits2_pos (m + Pos.iter xO 8388608%positive d)) = 24 + Zpos d) as HD.
  { apply digits_unique. rewrite Pos2Z.inj_add, iter_xO.
    replace (24 + Zpos d - 1) with (23 + Zpos d) by lia.
    rewrite !Z.pow_add_r by lia.
    assert (2 <= 2 ^ Zpos d) by (apply (Z.pow_le_mono_r 2 1); lia).
    change (2 ^ 23) with 8388608. change (2 ^ 24) with 16777216 in *. lia. }
  rewrite HD, fexp32, shl_align_higher by lia.
  destruct (round_shifted false (m + Pos.iter xO 8388608%positive d) e d HD ltac:(lia))
    as [(q & Hq & Hdq)|Hq]; rewrite Hq.
  - left. exists q. split; [f_equal; lia | exact Hdq].
  - right. f_equal. lia.
Qed.

(** Adding one to a float in (-1, 0). *)
Lemma add_one_neg (m : positive) (e : Z) :
  F32.valid (S754_finite true m e) = true -> e < -23 ->
  exists q e',
    F32.add (S754_finite true m e) F32.one = S754_finite false q e'
    /\ Zpos (digits2_pos q) = 24 /\ -47 <= e' <= -23.
Proof.
  intros Hv He. destruct (valid_finite _ _ _ Hv) as [Hc _].
  pose proof (digits_bounds m) as [Bm0 Bm].
  assert (Zpos m < 2 ^ 24) as Bm'.
  { eapply Z.lt_le_trans; [exact Bm|]. apply Z.pow_le_mono_r; lia. }
  unfold F32.add, F32.one, SFadd. rewrite (Z.min_l e (-23)) by lia.
  rewrite (shl_align_higher m e e) by lia.
  destruct (shl_align_lower 8388608 (-23) e He) as (d & Hd & ->).
  cbn [fst cond_Zopp].
  assert (2 <= 2 ^ Zpos d) as B2 by (apply (Z.pow_le_mono_r 2 1); lia).
  assert (exists M, - Zpos m + Zpos (Pos.iter xO 8388608%positive d) = Zpos M
                    /\ Zpos M = 2 ^ (23 + Zpos d) - Zpos m) as (M & -> & HM).
  { pose proof (iter_xO d 8388608) as Hi.
    rewrite Z.pow_add_r by lia. change (2 ^ 23) with 8388608.
    change (2 ^ 24) with 16777216 in Bm'.
    destruct (- Zpos m + Zpos (Pos.iter xO 8388608%positive d)) as [|M|M] eqn:E;
      try lia.
    exists M. split; [reflexivity | lia]. }
  unfold binary_normalize, binary_round.
  destruct (Pos.eq_dec d 1%positive) as [->|Hd1].
  - (* e = -24: the difference is normalised without rounding *)
    assert (e = -24) as -> by lia.
    assert (Zpos (digits2_pos m) = 24) as Hdm by lia.
    rewrite Hdm in Bm0. change (2 ^ (24 - 1)) with 8388608 in Bm0.
    change (2 ^ (23 + 1)) with 16777216 in HM.
    pose proof (digits_bounds M) as [BM0 BM].
    assert (Zpos (digits2_pos M) <= 24) as HD.
    { destruct (Z_le_gt_dec (Zpos (digits2_pos M)) 24) as [|Hgt]; [assumption|].
      assert (2 ^ 24 <= 2 ^ (Zpos (digits2_pos M) - 1))
        by (apply Z.pow_le_mono_r; lia).
      change (2 ^ 24) with 16777216 in *. lia. }
    rewrite fexp32.
    destruct (Z.eq_dec (Zpos (digits2_pos M)) 24) as [E24|N24].
    + rewrite shl_align_higher by lia.
      rewrite round_kept by (rewrite ?fexp32; lia).
      exists M, (-24). split; [reflexivity|]. split; [exact E24 | lia].
    + destruct (shl_align_lower M (-24)
                  (Z.max (Zpos (digits2_pos M) + -24 - 24) (-149)) ltac:(lia))
        as (k & Hk & ->).
      pose proof (digits_iter_xO M k) as Hdk.
      rewrite round_kept by (rewrite ?fexp32; lia).
      eexists _, _. split; [reflexivity|]. split; lia.
  - (* e < -24: the difference has 23 + d digits and is rounded *)
    assert (1 < Zpos d) as Hd2 by lia.
    assert (Zpos (Pos.pred d) = Zpos d - 1) as Ht by lia.
    assert (Zpos (digits2_pos M) = 24 + Zpos (Pos.pred d)) as HD.
    { apply digits_unique. rewrite Ht, HM.
      replace (24 + (Zpos d - 1) - 1) with (22 + Zpos d) by lia.
      replace (24 + (Zpos d - 1)) with (23 + Zpos d) by lia.
      rewrite !Z.pow_add_r by lia.
      change (2 ^ 23) with 8388608. change (2 ^ 22) with 4194304.
      change (2 ^ 24) with 16777216 in Bm'.
      assert (4 <= 2 ^ Zpos d) by (apply (Z.pow_le_mono_r 2 2); lia). lia. }
    rewrite HD, fexp32, shl_align_higher by lia.
    destruct (round_shifted false M e (Pos.pred d) HD ltac:(lia))
      as [(q & Hq & Hdq)|Hq]; rewrite Hq.
    + exists q, (e + Zpos (Pos.pred d)). split; [reflexivity|]. split; [exact Hdq | lia].
    + exists 8388608%positive, (e + Zpos (Pos.pred d) + 1).
      split; [reflexivity|]. split; [reflexivity | lia].
Qed.

End F32Facts.

(** A component between -1 and 1 is mapped between 0 and 1. *)
Lemma remap_range (v : float) :
  F32.valid v = true ->
  F32.leb F32.minus_one v = true -> F32.leb v F32.one = true ->
  F32.leb F32.zero (remap v) = true /\ F32.leb (remap v) F32.one = true.
Proof.
  intros Hv Hlo Hhi. destruct v as [s|s| |s m e].
  - destruct s; vm_compute; auto.
  - destruct s; vm_compute in Hlo, Hhi; discriminate.
  - discriminate.
  - destruct (F32Facts.valid_finite _ _ _ Hv) as [Hc _].
    pose proof (F32Facts.digits_bounds m) as [Bm0 Bm].
    destruct s.
    + (* negative *)
      unfold F32.leb, F32.minus_one, SFleb, SFcompare in Hlo.
      destruct (Z.compare_spec (-23) e) as [<-|Hlt|Hgt]; [| discriminate |].
      * assert (Zpos (digits2_pos m) = 24) as Hd by lia.
        rewrite Hd in Bm0. change (2 ^ (24 - 1)) with 8388608 in Bm0.
        change (Pos.compare_cont Eq 8388608 m) with (Pos.compare 8388608 m) in Hlo.
        destruct (Pos.compare_spec 8388608 m) as [<-|Hm|Hm];
          [vm_compute; auto | discriminate | lia].
      * destruct (F32Facts.add_one_neg m e Hv Hgt) as (q & e' & Hadd & Hdq & He').
        unfold remap. rewrite Hadd, F32Facts.mul_half by (auto; lia).
        split; [reflexivity|].
        unfold F32.leb, F32.one, SFleb, SFcompare.
        destruct (Z.compare_spec (e' - 1) (-23)); [lia | reflexivity | lia].
    + (* positive *)
      unfold F32.leb, F32.one, SFleb, SFcompare in Hhi.
      destruct (Z.compare_spec e (-23)) as [->|Hlt|Hgt]; [| | discriminate].
      * assert (Zpos (digits2_pos m) = 24) as Hd by lia.
        rewrite Hd in Bm0. change (2 ^ (24 - 1)) with 8388608 in Bm0.
        change (Pos.compare_cont Eq m 8388608) with (Pos.compare m 8388608) in Hhi.
        destruct (Pos.compare_spec m 8388608) as [->|Hm|Hm];
          [vm_compute; auto | lia | discriminate].
      * unfold remap.
        destruct (F32Facts.add_one_pos m e Hv Hlt) as [(q & Hadd & Hdq)|Hadd];
          rewrite Hadd; [|vm_compute; auto].
        rewrite F32Facts.mul_half by (auto; lia).
        split; reflexivity.
Qed.

(** C8: [vectorsToColors] stops on its precondition for every buffer whose
    channel count is not 3; for a 3-channel buffer it returns a 3-channel
    buffer of the same width and height whose components are those of the
    input, each v mapped to 0.5 * (v + 1) in binary32 arithmetic; when
    every component of the input is in [-1, 1], every component of the
    result is in [0, 1]; and -1, 0 and 1 are mapped to 0, 0.5 and 1. *)
Theorem vectorsToColors_remaps :
  (forall image,
     getChannels image <> 3 ->
     vectorsToColors image = PreconditionPanic "Must be a 3-channel image.")
  /\ (forall image,
        valid_image image -> getChannels image = 3 ->
        exists result,
          vectorsToColors image = Ok result
          /\ getWidth result = getWidth image
          /\ getHeight result = getHeight image
          /\ getChannels result = 3
          /\ get result = map remap (get image)
          /\ (Forall unit_component (get image) ->
              Forall colour_component (get result)))
  /\ remap F32.minus_one = F32.zero
  /\ remap F32.zero = F32.half
  /\ remap F32.one = F32.one.
Proof.
  split; [|split; [|repeat split]].
  - intros image Hc. unfold vectorsToColors.
    destruct (Z.eqb_spec (getChannels image) 3); [contradiction | reflexivity].
  - intros image [Hw Hh _ Hsize Hstore] Hc. rewrite Hc in Hsize, Hstore.
    exists (mkLinearImage (getWidth image) (getHeight image) 3
              (map remap (get image))).
    unfold vectorsToColors. rewrite Hc. cbn [Z.eqb Pos.eqb ASSERT_PRECONDITION bind].
    assert (0 <= getWidth image * getHeight image) as Hwh by nia.
    rewrite wrap32_small by lia.
    rewrite (vectorsToColors_loop (getWidth image * getHeight image) (get image));
      [| lia | exact Hstore | unfold newLinearImage; cbn [get]; apply length_replicate].
    cbn [bind getWidth getHeight getChannels get].
    do 5 (split; [reflexivity|]).
    intros Hunit. apply Forall_fmap. eapply Forall_impl; [exact Hunit|].
    intros v (Hv & Hlo & Hhi). apply remap_range; assumption.
Qed.

(** ** [compare] *)

(** Buffers of different shapes compare as -1. *)
Lemma compare_shape_mismatch (a b : LinearImage) (epsilon : float) :
  getWidth b <> getWidth a \/ getHeight b <> getHeight a
  \/ getChannels b <> getChannels a ->
  compare a b epsilon = Ok (-1).
Proof.
  intros H. unfold compare.
  destruct (Z.eqb_spec (getWidth b) (getWidth a)); [|reflexivity].
  destruct (Z.eqb_spec (getHeight b) (getHeight a)); [|reflexivity].
  destruct (Z.eqb_spec (getChannels b) (getChannels a)); [|reflexivity].
  destruct H as [?|[?|?]]; contradiction.
Qed.

(** Buffers of the same shape compare as 0 or 1, the value of
    [std::lexicographical_compare]. *)
Lemma compare_same_shape (a b : LinearImage) (epsilon : float) :
  valid_image a -> valid_image b ->
  getWidth b = getWidth a -> getHeight b = getHeight a ->
  getChannels b = getChannels a ->
  compare a b epsilon
  = Ok (Z.b2z (lexicographical_compare (within epsilon) (get a) (get b))).
Proof.
  intros [Hw Hh Hc Hsize Hstore] [_ _ _ _ Hstore'] Ew Eh Ec.
  rewrite Ew, Eh, Ec in Hstore'.
  unfold compare. rewrite Ew, Eh, Ec, !Z.eqb_refl. cbn [negb orb].
  set (w := getWidth a) in *. set (h := getHeight a) in *.
  set (c := getChannels a) in *.
  assert (wrap32 (wrap32 (w * h) * c) = w * h * c) as ->.
  { destruct (Z.eq_dec c 0) as [->|Hc0].
    - rewrite !Z.mul_0_r. reflexivity.
    - assert (0 <= w * h <= w * h * c) by nia.
      rewrite (wrap32_small (w * h)) by lia. apply wrap32_small. lia. }
  unfold range.
  destruct (Z.leb_spec (w * h * c) (Z.of_nat (length (get a)))); [|lia].
  destruct (Z.leb_spec (w * h * c) (Z.of_nat (length (get b)))); [|lia].
  cbn [bind]. rewrite !firstn_all2 by lia. reflexivity.
Qed.

(** The comparison stops at the first pair that is within epsilon, with
    the value 1, whatever follows. *)
Lemma compare_first_within (a b : LinearImage) (epsilon x y : float)
    (l1 l2 : list float) :
  valid_image a -> valid_image b ->
  getWidth b = getWidth a -> getHeight b = getHeight a ->
  getChannels b = getChannels a ->
  get a = x :: l1 -> get b = y :: l2 ->
  within epsilon x y = true ->
  compare a b epsilon = Ok 1.
Proof.
  intros Va Vb Ew Eh Ec Ea Eb Hxy.
  rewrite compare_same_shape, Ea, Eb by assumption.
  simpl. rewrite Hxy. reflexivity.
Qed.

(** When no pair is within epsilon, in either order, the value is 0. *)
Lemma compare_none_within (a b : LinearImage) (epsilon : float) :
  valid_image a -> valid_image b ->
  getWidth b = getWidth a -> getHeight b = getHeight a ->
  getChannels b = getChannels a ->
  Forall2 (fun x y => within epsilon x y = false /\ within epsilon y x = false)
          (get a) (get b) ->
  compare a b epsilon = Ok 0.
Proof.
  intros Va Vb Ew Eh Ec Hall.
  rewrite compare_same_shape by assumption.
  induction Hall as [|x y l1 l2 [Hxy Hyx] _ IH]; [reflexivity|].
  simpl. rewrite Hxy, Hyx. exact IH.
Qed.

(** C1: [compare] on a buffer and itself, with epsilon 0, returns 1 and
    not 0; on two buffers of the same shape all of whose components differ
    by more than epsilon it returns 0; on two buffers that agree in their
    first component only it returns 1 as well; on buffers of different
    shapes it returns -1.  So the result does not tell whether every pair
    of components is within epsilon. *)
Theorem compare_identical_is_one :
  compare img2x2 img2x2 F32.zero = Ok 1
  /\ compare img2x2 img_tens F32.zero = Ok 0
  /\ compare (img_row F32.zero F32.ten) (img_row F32.zero F32.zero) F32.zero
     = Ok 1
  /\ compare img2x2 (img_row F32.zero F32.zero) F32.zero = Ok (-1).
Proof. repeat split. Qed.

(** No value of [compare] stands for "every pair of components is within
    epsilon": identical buffers give 1, and so do buffers that agree in
    their first component only. *)
Lemma compare_no_equal_result (equal : Z) :
  ~ (forall (a b : LinearImage) (epsilon : float),
       valid_image a -> valid_image b ->
       getWidth b = getWidth a -> getHeight b = getHeight a ->
       getChannels b = getChannels a ->
       (compare a b epsilon = Ok equal
        <-> Forall2 (fun x y => within epsilon x y = true) (get a) (get b))).
Proof.
  intros H.
  assert (valid_image (img_row F32.zero F32.ten)) as V1
    by (constructor; cbn; unfold two32; lia).
  assert (valid_image (img_row F32.zero F32.zero)) as V2
    by (constructor; cbn; unfold two32; lia).
  destruct (Z.eq_dec equal 1) as [->|Hne].
  - destruct (H (img_row F32.zero F32.ten) (img_row F32.zero F32.zero) F32.zero
                V1 V2 eq_refl eq_refl eq_refl) as [H1 _].
    specialize (H1 eq_refl). cbn [get img_row] in H1.
    inversion H1 as [|? ? ? ? _ Htail]; subst.
    inversion Htail as [|? ? ? ? Hten _]; subst.
    vm_compute in Hten. discriminate.
  - destruct (H (img_row F32.zero F32.zero) (img_row F32.zero F32.zero) F32.zero
                V2 V2 eq_refl eq_refl eq_refl) as [_ H2].
    assert (compare (img_row F32.zero F32.zero) (img_row F32.zero F32.zero)
              F32.zero = Ok equal) as E.
    { apply H2. cbn [get img_row]. repeat constructor. }
    vm_compute in E. injection E as E. congruence.
Qed.

(** * The theorems at concrete buffers *)

(** The constants are binary32 floats. *)
Example constants_valid :
  forallb F32.valid
    [F32.zero; F32.half; F32.one; F32.minus_one; F32.ten; f2; f3] = true.
Proof. reflexivity. Qed.

(** The 2 x 2 buffer 0 1 / 2 3 transposed is 0 2 / 1 3, and stacked with
    itself it is the 4 x 2 buffer 0 1 0 1 / 2 3 2 3. *)
Example transpose_img2x2 :
  transpose img2x2 = Ok (mkLinearImage 2 2 1 [F32.zero; f2; F32.one; f3]).
Proof. reflexivity. Qed.

Example hstack_img2x2 :
  hstack [img2x2; img2x2]
  = Ok (mkLinearImage 4 2 1
          [F32.zero; F32.one; F32.zero; F32.one; f2; f3; f2; f3]).
Proof. reflexivity. Qed.

Example vstack_img2x2 :
  vstack [img2x2; img2x2]
  = Ok (mkLinearImage 2 4 1
          [F32.zero; F32.one; f2; f3; F32.zero; F32.one; f2; f3]).
Proof. reflexivity. Qed.

Example combineChannels_img2x2 :
  combineChannels [img2x2; img_tens]
  = Ok (mkLinearImage 2 2 2
          [F32.zero; F32.ten; F32.one; F32.ten; f2; F32.ten; f3; F32.ten]).
Proof. reflexivity. Qed.

Example cropRegion_img2x2 :
  cropRegion img2x2 1 0 2 2 = Ok (mkLinearImage 1 2 1 [F32.one; f3]).
Proof. reflexivity. Qed.

Example vectorsToColors_img_vector :
  vectorsToColors img_vector
  = Ok (mkLinearImage 1 1 3 [F32.zero; F32.half; F32.one]).
Proof. reflexivity. Qed.


Lemma transpose_pixels_witness :
  valid_image img2x2
  /\ exists result,
       transpose img2x2 = Ok result
       /\ getWidth result = getHeight img2x2
       /\ getHeight result = getWidth img2x2
       /\ getChannels result = getChannels img2x2
       /\ (forall i j k,
             0 <= i < getHeight img2x2 -> 0 <= j < getWidth img2x2 ->
             0 <= k < getChannels img2x2 ->
             is_Some (pixel img2x2 i j k)
             /\ pixel result j i k = pixel img2x2 i j k).
Proof.
  assert (valid_image img2x2) as V by (concrete_image).
  split; [exact V | apply (transpose_pixels img2x2 V)].
Defined.

Lemma transpose_involution_witness :
  valid_image img2x2
  /\ (let! flipped := transpose img2x2 in transpose flipped) = Ok img2x2.
Proof.
  assert (valid_image img2x2) as V by (concrete_image).
  split; [exact V | apply (transpose_involution img2x2 V)].
Defined.

Lemma hstack_pixels_witness :
  exists result,
    hstack [img2x2; img_tens] = Ok result
    /\ getHeight result = 2
    /\ getChannels result = 1
    /\ getWidth result = sum_widths [img2x2; img_tens]
    /\ (forall (k : nat) img row col ch,
          [img2x2; img_tens] !! k = Some img ->
          0 <= row < 2 ->
          sum_widths (take k [img2x2; img_tens]) <= col
            < sum_widths (take k [img2x2; img_tens]) + getWidth img ->
          0 <= ch < 1 ->
          is_Some (pixel img row (col - sum_widths (take k [img2x2; img_tens])) ch)
          /\ pixel result row col ch
             = pixel img row (col - sum_widths (take k [img2x2; img_tens])) ch).
Proof.
  apply (hstack_pixels [img2x2; img_tens] 2 1).
  - discriminate.
  - repeat constructor; concrete_image.
  - repeat constructor.
  - concrete_image.
Defined.

Lemma vstack_pixels_witness :
  exists result,
    vstack [img2x2; img_tens] = Ok result
    /\ getWidth result = 2
    /\ getChannels result = 1
    /\ getHeight result = sum_heights [img2x2; img_tens]
    /\ (forall (k : nat) img row col ch,
          [img2x2; img_tens] !! k = Some img ->
          sum_heights (take k [img2x2; img_tens]) <= row
            < sum_heights (take k [img2x2; img_tens]) + getHeight img ->
          0 <= col < 2 -> 0 <= ch < 1 ->
          is_Some (pixel img (row - sum_heights (take k [img2x2; img_tens])) col ch)
          /\ pixel result row col ch
             = pixel img (row - sum_heights (take k [img2x2; img_tens])) col ch).
Proof.
  apply (vstack_pixels [img2x2; img_tens] 2 1).
  - discriminate.
  - repeat constructor; concrete_image.
  - repeat constructor.
  - concrete_image.
Defined.

Lemma cropRegion_pixels_witness :
  exists result,
    cropRegion img2x2 1 0 2 2 = Ok result
    /\ getWidth result = 2 - 1
    /\ getHeight result = 2 - 0
    /\ getChannels result = getChannels img2x2
    /\ (forall row col k,
          0 <= row < 2 - 0 -> 0 <= col < 2 - 1 ->
          0 <= k < getChannels img2x2 ->
          is_Some (pixel img2x2 (row + 0) (col + 1) k)
          /\ pixel result row col k = pixel img2x2 (row + 0) (col + 1) k).
Proof.
  apply (cropRegion_pixels img2x2 1 0 2 2).
  - concrete_image.
  - lia.
  - cbn. lia.
  - lia.
  - cbn. lia.
Defined.

Lemma cropRegion_unchecked_witness :
  cropRegion img2x2 1 0 0 0 = Ok (mkLinearImage 4294967295 0 1 [])
  /\ getWidth (mkLinearImage 4294967295 0 1 []) = (0 - 1) mod 2 ^ 32
  /\ getHeight (mkLinearImage 4294967295 0 1 []) = (0 - 0) mod 2 ^ 32
  /\ getChannels (mkLinearImage 4294967295 0 1 []) = getChannels img2x2.
Proof.
  split; [reflexivity|].
  apply (proj1 (proj2 (cropRegion_unchecked img2x2 1 0 0 0))).
  reflexivity.
Defined.

Lemma combineChannels_planes_witness :
  (exists result,
     combineChannels [img2x2; img_tens] = Ok result
     /\ getWidth result = 2
     /\ getHeight result = 2
     /\ getChannels result = 2
     /\ (forall (k : nat) plane p,
           [img2x2; img_tens] !! k = Some plane -> 0 <= p < 2 * 2 ->
           is_Some (get plane !! Z.to_nat p)
           /\ get result !! Z.to_nat (p * 2 + Z.of_nat k)
              = get plane !! Z.to_nat p))
  /\ plane_panic _ (combineChannels [img2x2; img_vector]).
Proof.
  split.
  - apply (proj1 (combineChannels_planes img2x2 [img_tens])).
    + repeat constructor; concrete_image.
    + repeat constructor.
    + concrete_image.
  - apply (proj2 (combineChannels_planes img2x2 [img_vector])).
    right. left. unfold odd_plane. cbn. lia.
Defined.

Lemma vectorsToColors_remaps_witness :
  vectorsToColors img2x2 = PreconditionPanic "Must be a 3-channel image."
  /\ exists result,
       vectorsToColors img_vector = Ok result
       /\ getWidth result = getWidth img_vector
       /\ getHeight result = getHeight img_vector
       /\ getChannels result = 3
       /\ get result = map remap (get img_vector)
       /\ (Forall unit_component (get img_vector) ->
           Forall colour_component (get result)).
Proof.
  split.
  - apply (proj1 vectorsToColors_remaps img2x2). cbn. lia.
  - apply (proj1 (proj2 vectorsToColors_remaps) img_vector).
    + concrete_image.
    + reflexivity.
Defined.

Lemma stack_fails_exactly_witness :
  (exists result, hstack [img2x2; img_tens] = Ok result)
  /\ (exists result, vstack [img2x2; img_tens] = Ok result).
Proof.
  assert (Forall valid_image [img2x2; img_tens]) as V
    by (repeat constructor; concrete_image).
  assert (Forall positive_image [img2x2; img_tens]) as P
    by (repeat constructor; cbn; lia).
  assert (forall dim : LinearImage -> Z,
            dim img_tens = dim img2x2 ->
            ~ differs_from_first dim [img2x2; img_tens]) as Hsame.
  { intros dim Hdim (img0 & rest & E & Hex). injection E as <- <-.
    apply Exists_cons in Hex as [[H|H]|Hex];
      [apply H; exact Hdim | apply H; reflexivity | inversion Hex]. }
  destruct (stack_fails_exactly [img2x2; img_tens] V P)
    as ((_ & _ & _ & Hh) & (_ & _ & _ & Hv)).
  split.
  - apply (Hh img2x2 [img_tens] eq_refl (Hsame getHeight eq_refl)).
    concrete_image.
  - apply (Hv img2x2 [img_tens] eq_refl (Hsame getWidth eq_refl)).
    concrete_image.
Defined.

(** * How the operations compose *)

(** ** Helpers *)

Lemma valid_representable (image : LinearImage) :
  valid_image image ->
  representable (getWidth image) (getHeight image) (getChannels image).
Proof.
  intros [Hw Hh Hc Hsize _]. unfold representable.
  constructor; cbn [newLinearImage getWidth getHeight getChannels get];
    try assumption. apply length_replicate.
Qed.

Lemma representable_eq (w h c w' h' c' : Z) :
  representable w h c -> w = w' -> h = h' -> c = c' -> representable w' h' c'.
Proof. intros H -> -> ->. exact H. Qed.

(** Every column of a row of stacked images belongs to one of them. *)
Lemma locate_column (images : list LinearImage) (col : Z) :
  Forall valid_image images ->
  0 <= col < sum_widths images ->
  exists (k : nat) img,
    images !! k = Some img
    /\ sum_widths (take k images) <= col
    /\ col < sum_widths (take k images) + getWidth img.
Proof.
  intros Hvalid. revert col.
  induction Hvalid as [|x l Hx Hl IH]; intros col Hcol; simpl in Hcol; [lia|].
  destruct (Z_lt_le_dec col (getWidth x)) as [Hin|Hout].
  - exists 0%nat, x. simpl. repeat split; lia.
  - destruct (IH (col - getWidth x) ltac:(lia)) as (k & img & Hk & Hlo & Hhi).
    exists (Datatypes.S k), img. simpl. repeat split; [exact Hk | lia | lia].
Qed.

Lemma sum_heights_as_widths (images flipped : list LinearImage) :
  Forall2 (fun img t => getWidth t = getHeight img
                        /\ getHeight t = getWidth img
                        /\ getChannels t = getChannels img) images flipped ->
  sum_heights images = sum_widths flipped.
Proof. intros H. symmetry. apply flipped_sum. exact H. Qed.

(** ** One image *)

(** X11: Stacking one image horizontally gives that image. *)
Theorem hstack_single (image : LinearImage) :
  valid_image image -> hstack [image] = Ok image.
Proof.
  intros Hvalid.
  destruct (hstack_correct [image] (getHeight image) (getChannels image))
    as (result & Hrun & Ew & Eh & Ec & Vr & Hpix).
  - discriminate.
  - constructor; [exact Hvalid | constructor].
  - constructor; [split; reflexivity | constructor].
  - eapply representable_eq; [exact (valid_representable image Hvalid) | | |];
      simpl; lia.
  - rewrite Hrun. f_equal. simpl in Ew.
    apply image_ext; auto; try lia.
    intros i j k Hi Hj Hk.
    rewrite <- (Hpix 0%nat image i j k eq_refl) by lia.
    simpl. f_equal.
Qed.

(** X12: Stacking one image vertically gives that image. *)
Theorem vstack_single (image : LinearImage) :
  valid_image image -> vstack [image] = Ok image.
Proof.
  intros Hvalid.
  destruct (vstack_correct [image] (getWidth image) (getChannels image))
    as (result & Hrun & Ew & Eh & Ec & Vr & Hpix).
  - discriminate.
  - constructor; [exact Hvalid | constructor].
  - constructor; [split; reflexivity | constructor].
  - destruct Hvalid as [Hw Hh Hc Hsize _]. unfold representable.
    constructor; cbn [newLinearImage getWidth getHeight getChannels get sum_heights foldr];
      first [lia | nia | apply length_replicate].
  - rewrite Hrun. f_equal. simpl in Eh.
    apply image_ext; auto; try lia.
    intros i j k Hi Hj Hk.
    rewrite <- (Hpix 0%nat image i j k eq_refl) by lia.
    simpl. f_equal.
Qed.

(** What [combineChannels] returns on planes that agree. *)
Lemma combineChannels_correct (img0 : LinearImage) (rest : list LinearImage) :
  Forall valid_image (img0 :: rest) ->
  Forall (fun p => getWidth p = getWidth img0 /\ getHeight p = getHeight img0
                   /\ getChannels p = 1) (img0 :: rest) ->
  representable (getWidth img0) (getHeight img0)
                (Z.of_nat (length (img0 :: rest))) ->
  exists result,
    combineChannels (img0 :: rest) = Ok result
    /\ getWidth result = getWidth img0
    /\ getHeight result = getHeight img0
    /\ getChannels result = Z.of_nat (length (img0 :: rest))
    /\ valid_image result
    /\ (forall (k : nat) plane p,
          (img0 :: rest) !! k = Some plane ->
          0 <= p < getWidth img0 * getHeight img0 ->
          get result !! Z.to_nat (p * Z.of_nat (length (img0 :: rest)) + Z.of_nat k)
          = get plane !! Z.to_nat p).
Proof.
  intros Hvalid Hagree [Hw Hh Hn Hsize _].
  cbn [newLinearImage getWidth getHeight getChannels] in Hw, Hh, Hn, Hsize.
  assert (0 <= getWidth img0 * getHeight img0) as Hwh by nia.
  destruct (combine_loop (img0 :: rest) (getWidth img0) (getHeight img0)
              Hvalid Hagree Hwh Hsize
              (replicate (Z.to_nat (getWidth img0 * getHeight img0
                                    * Z.of_nat (length (img0 :: rest))))
                         F32.zero)
              ltac:(discriminate) ltac:(apply length_replicate))
    as (dst & si & di & Hrun & Hlen & Hcells).
  rewrite length_replicate in Hlen.
  exists (mkLinearImage (getWidth img0) (getHeight img0)
            (Z.of_nat (length (img0 :: rest))) dst).
  unfold combineChannels.
  change (0 <? Z.of_nat (length (img0 :: rest))) with true.
  cbn [ASSERT_PRECONDITION bind].
  rewrite (combine_check_pass _ _ _ Hagree). cbn [bind].
  unfold newLinearImage. cbn [get].
  rewrite (wrap32_small (Z.of_nat (length (img0 :: rest)))) by lia.
  rewrite Hrun. cbn [bind].
  do 4 (split; [reflexivity|]). split.
  - constructor; cbn [getWidth getHeight getChannels get]; lia.
  - intros k plane p Hk Hp. apply Hcells; auto.
Qed.

(** X13: Combining one plane gives that plane. *)
Theorem combineChannels_single (plane : LinearImage) :
  valid_image plane -> getChannels plane = 1 ->
  combineChannels [plane] = Ok plane.
Proof.
  intros Hvalid Hc.
  destruct (combineChannels_correct plane [])
    as (result & Hrun & Ew & Eh & Ec & [_ _ _ _ Hstore] & Hcells).
  - constructor; [exact Hvalid | constructor].
  - constructor; [auto | constructor].
  - eapply representable_eq; [exact (valid_representable plane Hvalid) | | |];
      simpl; lia.
  - rewrite Hrun. f_equal.
    destruct Hvalid as [Hw Hh _ Hsize Hlen].
    destruct plane as [w h c data], result as [w' h' c' data'].
    cbn [getWidth getHeight getChannels get length] in *. subst.
    f_equal. apply list_eq. intros p.
    destruct (Z_lt_le_dec (Z.of_nat p) (w * h)) as [Hin|Hout].
    + specialize (Hcells 0%nat _ (Z.of_nat p) eq_refl ltac:(lia)).
      cbn [get] in Hcells.
      replace (Z.to_nat (Z.of_nat p * Z.of_nat 1 + Z.of_nat 0)) with p in Hcells by lia.
      rewrite Nat2Z.id in Hcells. exact Hcells.
    + rewrite !lookup_ge_None_2 by lia. reflexivity.
Qed.

(** ** [cropRegion] *)

(** What [cropRegion] returns on bounds within a buffer of the data
    model. *)
Lemma cropRegion_correct (image : LinearImage) (left top right bottom : Z) :
  valid_image image ->
  0 <= left < right -> right <= getWidth image ->
  0 <= top < bottom -> bottom <= getHeight image ->
  exists result,
    cropRegion image left top right bottom = Ok result
    /\ getWidth result = right - left
    /\ getHeight result = bottom - top
    /\ getChannels result = getChannels image
    /\ valid_image result
    /\ (forall row col k,
          0 <= row < bottom - top -> 0 <= col < right - left ->
          0 <= k < getChannels image ->
          pixel result row col k = pixel image (row + top) (col + left) k).
Proof.
  intros Hvalid Hl Hr Ht Hb. pose proof Hvalid as [Hw Hh Hc Hsize Hstore].
  destruct (cropRegion_loop image left top (right - left) (bottom - top)
              (replicate (Z.to_nat ((right - left) * (bottom - top)
                                    * getChannels image)) F32.zero)
              Hvalid) as (buf & tgt & src & Hrun & Hlen & Hcells);
    try lia.
  { apply length_replicate. }
  rewrite length_replicate in Hlen.
  exists (mkLinearImage (right - left) (bottom - top) (getChannels image) buf).
  unfold cropRegion, newLinearImage. cbn [get].
  rewrite !wrap32_small by lia. rewrite Hrun. cbn [bind].
  do 4 (split; [reflexivity|]). split.
  - assert ((right - left) * (bottom - top) * getChannels image
            <= getWidth image * getHeight image * getChannels image) as B.
    { apply Z.mul_le_mono_nonneg_r; [lia|]. nia. }
    constructor; cbn [getWidth getHeight getChannels get]; try lia.
  - intros row col k Hrow Hcol Hk.
    rewrite <- (Hcells row col k Hrow Hcol Hk). reflexivity.
Qed.

(** X10: Cropping to the whole extent gives the buffer back. *)
Theorem cropRegion_full (image : LinearImage) :
  valid_image image -> 0 < getWidth image -> 0 < getHeight image ->
  cropRegion image 0 0 (getWidth image) (getHeight image) = Ok image.
Proof.
  intros Hvalid Hw Hh.
  destruct (cropRegion_correct image 0 0 (getWidth image) (getHeight image))
    as (result & Hrun & Ew & Eh & Ec & Vr & Hpix); auto; try lia.
  rewrite Hrun. f_equal. apply image_ext; auto; try lia.
  intros i j k Hi Hj Hk. rewrite Hpix by lia. f_equal; lia.
Qed.

(** X5: A crop of a crop is the crop at the added offsets. *)
Theorem cropRegion_cropRegion (image : LinearImage)
    (left top right bottom left' top' right' bottom' : Z) :
  valid_image image ->
  0 <= left < right -> right <= getWidth image ->
  0 <= top < bottom -> bottom <= getHeight image ->
  0 <= left' < right' -> right' <= right - left ->
  0 <= top' < bottom' -> bottom' <= bottom - top ->
  (let! outer := cropRegion image left top right bottom in
   cropRegion outer left' top' right' bottom')
  = cropRegion image (left + left') (top + top') (left + right') (top + bottom').
Proof.
  intros Hvalid Hl Hr Ht Hb Hl' Hr' Ht' Hb'.
  destruct (cropRegion_correct image left top right bottom)
    as (outer & Hrun & Ew & Eh & Ec & Vo & Hpix); auto.
  destruct (cropRegion_correct outer left' top' right' bottom')
    as (inner & Hrun' & Ew' & Eh' & Ec' & Vi & Hpix'); auto; try lia.
  destruct (cropRegion_correct image (left + left') (top + top')
              (left + right') (top + bottom'))
    as (direct & Hrun'' & Ew'' & Eh'' & Ec'' & Vd & Hpix''); auto; try lia.
  rewrite Hrun. cbn [bind]. rewrite Hrun', Hrun''. f_equal.
  apply image_ext; auto; try lia; try congruence.
  intros i j k Hi Hj Hk.
  rewrite Hpix', Hpix, Hpix'' by lia. f_equal; lia.
Qed.

(** X6: Cropping and transposing commute, the bounds swapped. *)
Theorem transpose_cropRegion (image : LinearImage) (left top right bottom : Z) :
  valid_image image ->
  0 <= left < right -> right <= getWidth image ->
  0 <= top < bottom -> bottom <= getHeight image ->
  (let! region := cropRegion image left top right bottom in transpose region)
  = (let! flipped := transpose image in cropRegion flipped top left bottom right).
Proof.
  intros Hvalid Hl Hr Ht Hb.
  destruct (cropRegion_correct image left top right bottom)
    as (region & Hrun & Ew & Eh & Ec & Vr & Hpix); auto.
  destruct (transpose_correct region Vr)
    as (a & Ha & Ewa & Eha & Eca & Va & Hpixa).
  destruct (transpose_correct image Hvalid)
    as (flipped & Hf & Ewf & Ehf & Ecf & Vf & Hpixf).
  destruct (cropRegion_correct flipped top left bottom right)
    as (b & Hb' & Ewb & Ehb & Ecb & Vb & Hpixb); auto; try lia.
  rewrite Hrun, Hf. cbn [bind]. rewrite Ha, Hb'. f_equal.
  apply image_ext; auto; try lia; try congruence.
  intros i j k Hi Hj Hk.
  rewrite Hpixa, Hpix, Hpixb, Hpixf by lia. reflexivity.
Qed.

(** ** Stacking *)

Lemma representable_narrower (w w' h c : Z) :
  representable w h c -> 0 <= w' <= w -> representable w' h c.
Proof.
  intros [Hw Hh Hc Hsize _] Hw'.
  cbn [newLinearImage getWidth getHeight getChannels] in Hw, Hh, Hc, Hsize.
  assert (w' * h * c <= w * h * c) as B.
  { apply Z.mul_le_mono_nonneg_r; [lia|]. apply Z.mul_le_mono_nonneg_r; lia. }
  unfold representable.
  constructor; cbn [newLinearImage getWidth getHeight getChannels get];
    first [lia | apply length_replicate].
Qed.

(** X1: Stacking two stacks is stacking the whole sequence. *)
Theorem hstack_app (xs ys : list LinearImage) (h c : Z) :
  xs <> [] -> ys <> [] ->
  Forall valid_image (xs ++ ys) ->
  Forall (fun img => getHeight img = h /\ getChannels img = c) (xs ++ ys) ->
  representable (sum_widths (xs ++ ys)) h c ->
  (let! a := hstack xs in let! b := hstack ys in hstack [a; b])
  = hstack (xs ++ ys).
Proof.
  intros Hx Hy Hvalid Hagree Hrep.
  pose proof Hvalid as Hvalid'. pose proof Hagree as Hagree'.
  apply Forall_app in Hvalid' as [Vx Vy]. apply Forall_app in Hagree' as [Ax Ay].
  pose proof (sum_widths_nonneg xs Vx) as Nx.
  pose proof (sum_widths_nonneg ys Vy) as Ny.
  rewrite sum_widths_app in Hrep.
  destruct (hstack_correct xs h c Hx Vx Ax)
    as (a & Ha & Ewa & Eha & Eca & Va & Hpa).
  { eapply representable_narrower; [exact Hrep | lia]. }
  destruct (hstack_correct ys h c Hy Vy Ay)
    as (b & Hb & Ewb & Ehb & Ecb & Vb & Hpb).
  { eapply representable_narrower; [exact Hrep | lia]. }
  destruct (hstack_correct [a; b] h c)
    as (ab & Hab & Ewab & Ehab & Ecab & Vab & Hpab).
  { discriminate. }
  { constructor; [exact Va | constructor; [exact Vb | constructor]]. }
  { constructor; [auto | constructor; [auto | constructor]]. }
  { eapply representable_eq; [exact Hrep | simpl; lia | reflexivity | reflexivity]. }
  destruct (hstack_correct (xs ++ ys) h c)
    as (all & Hall & Ewall & Ehall & Ecall & Vall & Hpall); auto.
  { destruct xs; [congruence | discriminate]. }
  { rewrite sum_widths_app. exact Hrep. }
  rewrite Ha. cbn [bind]. rewrite Hb. cbn [bind]. rewrite Hab, Hall. f_equal.
  simpl in Ewab. rewrite sum_widths_app in Ewall.
  apply image_ext; auto; try lia.
  intros i j k Hi Hj Hk.
  destruct (Z_lt_le_dec j (sum_widths xs)) as [Hleft|Hright].
  - destruct (locate_column xs j Vx ltac:(lia)) as (n & img & Hn & Hlo & Hhi).
    replace j with (sum_widths (take 0 [a; b]) + j) at 1 by (simpl; lia).
    rewrite (Hpab 0%nat a i j k eq_refl) by lia.
    replace j with (sum_widths (take n xs) + (j - sum_widths (take n xs))) by lia.
    rewrite (Hpa n img i _ k Hn) by lia.
    assert ((n < length xs)%nat) as Hlen by (apply lookup_lt_Some in Hn; exact Hn).
    assert (take n (xs ++ ys) = take n xs) as E by (apply take_app_le; lia).
    rewrite <- (Hpall n img i (j - sum_widths (take n xs)) k)
      by (try apply lookup_app_l_Some; auto; lia).
    rewrite E. f_equal; lia.
  - destruct (locate_column ys (j - sum_widths xs) Vy ltac:(lia))
      as (n & img & Hn & Hlo & Hhi).
    replace j with (sum_widths (take 1 [a; b]) + (j - sum_widths xs)) at 1
      by (simpl; lia).
    rewrite (Hpab 1%nat b i _ k eq_refl) by lia.
    replace (j - sum_widths xs)
      with (sum_widths (take n ys) + (j - sum_widths xs - sum_widths (take n ys)))
      by lia.
    rewrite (Hpb n img i _ k Hn) by lia.
    assert (sum_widths (take (length xs + n) (xs ++ ys))
            = sum_widths xs + sum_widths (take n ys)) as Eoff
      by (rewrite take_app_add, sum_widths_app; reflexivity).
    assert ((xs ++ ys) !! (length xs + n)%nat = Some img) as Hn'.
    { rewrite lookup_app_r by lia.
      replace (length xs + n - length xs)%nat with n by lia. exact Hn. }
    rewrite <- (Hpall (length xs + n)%nat img i
                  (j - sum_widths xs - sum_widths (take n ys)) k Hn') by lia.
    rewrite Eoff. f_equal; lia.
Qed.

(** A second transposition undoes the first. *)
Lemma transpose_twice (image flipped : LinearImage) :
  valid_image image -> transpose image = Ok flipped ->
  transpose flipped = Ok image.
Proof.
  intros Hvalid Hrun.
  destruct (transpose_correct image Hvalid)
    as (flipped' & Hrun' & Ew & Eh & Ec & Hvalid' & Hpix).
  assert (flipped' = flipped) as -> by congruence.
  destruct (transpose_correct flipped Hvalid')
    as (back & Hback & Ew' & Eh' & Ec' & Hvalid'' & Hpix').
  rewrite Hback. f_equal.
  apply image_ext; auto; try congruence.
  intros i j k Hi Hj Hk. rewrite Hpix' by lia. apply Hpix; lia.
Qed.

(** X2: Stacking the transposed images vertically is transposing the
    horizontal stack: the outcomes are the same, failures included. *)
Theorem vstack_of_transposed (images flipped : list LinearImage) :
  images <> [] ->
  Forall valid_image images ->
  Forall2 (fun img t => transpose img = Ok t) images flipped ->
  vstack flipped = (let! wide := hstack images in transpose wide).
Proof.
  intros Hne Hvalid Hall.
  destruct (flipped_shapes images flipped Hvalid Hall) as [Vf _].
  destruct (vstack_flipped flipped Vf []) as (back & Hflip & Hback).
  assert (back = images) as ->.
  { clear Hflip Hne Vf. revert back Hback.
    induction Hall as [|img t rest ts Ht _ IH]; intros back Hback.
    - inversion Hback. reflexivity.
    - inversion Hback as [|? x ? xs Hx Hxs]; subst.
      apply Forall_cons in Hvalid as [Vi Vrest].
      rewrite (transpose_twice img t Vi Ht) in Hx. injection Hx as <-.
      f_equal. apply IH; assumption. }
  unfold vstack.
  assert ((0 <? Z.of_nat (length flipped)) = true) as ->.
  { destruct Hall; [congruence | reflexivity]. }
  cbn [ASSERT_PRECONDITION bind]. rewrite Hflip. reflexivity.
Qed.

(** X3: Cropping a horizontal stack to the columns of an input gives that
    input back. *)
Theorem cropRegion_hstack (images : list LinearImage) (h c : Z)
    (k : nat) (img : LinearImage) :
  Forall valid_image images ->
  Forall (fun img => getHeight img = h /\ getChannels img = c) images ->
  representable (sum_widths images) h c ->
  images !! k = Some img -> 0 < getWidth img -> 0 < h ->
  (let! wide := hstack images in
   cropRegion wide (sum_widths (take k images)) 0
     (sum_widths (take k images) + getWidth img) h)
  = Ok img.
Proof.
  intros Hvalid Hagree Hrep Hk Hw Hh.
  assert (images <> []) as Hne by (intros ->; discriminate).
  destruct (hstack_correct images h c Hne Hvalid Hagree Hrep)
    as (wide & Hrun & Ew & Eh & Ec & Vw & Hpix).
  destruct (sum_widths_take images k img Hvalid Hk) as [S0 S1].
  assert (valid_image img /\ getHeight img = h /\ getChannels img = c)
    as (Vi & Hi & Ci).
  { rewrite Forall_lookup in Hvalid, Hagree.
    destruct (Hagree k img Hk). eauto. }
  destruct (cropRegion_correct wide (sum_widths (take k images)) 0
              (sum_widths (take k images) + getWidth img) h Vw)
    as (region & Hcrop & Ewr & Ehr & Ecr & Vr & Hpixr); try lia.
  rewrite Hrun. cbn [bind]. rewrite Hcrop. f_equal.
  apply image_ext; auto; try lia; try congruence.
  intros i j n Hi' Hj Hn.
  rewrite Hpixr by lia.
  replace (i + 0) with i by lia.
  rewrite Z.add_comm. apply Hpix; auto; lia.
Qed.

(** ** What [compare] returns *)

(** X18: The result -1 is kept for buffers of different shapes: buffers of the
    same shape give 0 or 1. *)
Theorem compare_result (a b : LinearImage) (epsilon : float) (r : Z) :
  compare a b epsilon = Ok r ->
  (r = -1
   /\ (getWidth b <> getWidth a \/ getHeight b <> getHeight a
       \/ getChannels b <> getChannels a))
  \/ ((r = 0 \/ r = 1)
      /\ getWidth b = getWidth a /\ getHeight b = getHeight a
      /\ getChannels b = getChannels a).
Proof.
  unfold compare.
  destruct (Z.eqb_spec (getWidth b) (getWidth a)) as [Ew|Nw];
    [|intros H; injection H as <-; left; auto].
  destruct (Z.eqb_spec (getHeight b) (getHeight a)) as [Eh|Nh];
    [|intros H; injection H as <-; left; auto].
  destruct (Z.eqb_spec (getChannels b) (getChannels a)) as [Ec|Nc];
    [|intros H; injection H as <-; left; auto].
  cbn [negb orb]. intros H.
  apply bind_Ok in H as (adata & _ & H). apply bind_Ok in H as (bdata & _ & H).
  injection H as <-. right. split; [|auto].
  destruct (lexicographical_compare (within epsilon) adata bdata); auto.
Qed.

(** ** The width that [hstack] records *)

Lemma sum_widths32_mod (images : list LinearImage) :
  forall acc, sum_widths32 acc images = (acc + sum_widths images) mod two32
              \/ images = [].
Proof.
  induction images as [|x l IH]; intros acc; [right; reflexivity|]. left.
  change (sum_widths32 acc (x :: l))
    with (sum_widths32 (wrap32 (acc + getWidth x)) l).
  destruct (IH (wrap32 (acc + getWidth x))) as [E| ->].
  - rewrite E. unfold wrap32. simpl.
    rewrite Zplus_mod_idemp_l. f_equal. lia.
  - simpl. unfold wrap32. f_equal. lia.
Qed.

Lemma hstack_size_width (images : list LinearImage) :
  forall w0 h0 c0 w h c,
    for_each images hstack_size_step (w0, h0, c0) = Ok (w, h, c) ->
    w = sum_widths32 w0 images.
Proof.
  induction images as [|x l IH]; intros w0 h0 c0 w h c H.
  - simpl in H. injection H as <- _ _. reflexivity.
  - cbn [for_each] in H. apply bind_Ok in H as ([[w1 h1] c1] & Hstep & Hrest).
    unfold hstack_size_step in Hstep.
    apply bind_Ok in Hstep as (h' & _ & Hstep).
    apply bind_Ok in Hstep as (c' & _ & Hstep).
    injection Hstep as <- _ _.
    apply IH in Hrest. exact Hrest.
Qed.

(** X14: Whatever [hstack] returns records the sum of the widths modulo 2^32. *)
Theorem hstack_width_wraps (images : list LinearImage) (result : LinearImage) :
  hstack images = Ok result ->
  getWidth result = sum_widths images mod 2 ^ 32.
Proof.
  intros H. unfold hstack in H.
  apply bind_Ok in H as (u & Hcount & H).
  apply bind_Ok in H as ([[w h] c] & Hsize & H).
  apply bind_Ok in H as ([t d] & _ & H). injection H as <-.
  cbn [getWidth]. apply hstack_size_width in Hsize. subst w.
  destruct (sum_widths32_mod images 0) as [E| ->]; [exact E|].
  simpl in Hcount. discriminate.
Qed.

(** ** An empty image in front of a stack *)

Lemma for_range_ext_inv {S : Type} (I : S -> Prop)
    (body1 body2 : Z -> S -> outcome S) (n : nat) :
  (forall i s, I s -> body1 i s = body2 i s) ->
  (forall i s s', I s -> body2 i s = Ok s' -> I s') ->
  forall lo s, I s -> for_range lo n body1 s = for_range lo n body2 s.
Proof.
  intros Heq Hkeep. induction n as [|n IH]; intros lo s HI; [reflexivity|].
  simpl. rewrite (Heq lo s HI).
  destruct (body2 lo s) as [s'| | |] eqn:E; try reflexivity.
  simpl. apply IH. exact (Hkeep lo s s' HI E).
Qed.

Lemma memcpy_Ok_inv (dst src : list float) (doff soff n : Z) (dst' : list float) :
  memcpy dst doff src soff n = Ok dst' ->
  0 <= doff /\ 0 <= n /\ doff + n <= Z.of_nat (length dst)
  /\ soff + n <= Z.of_nat (length src) /\ 0 <= soff
  /\ length dst' = length dst.
Proof.
  intros H. pose proof H as H'. unfold memcpy in H.
  destruct (Z.leb_spec 0 doff); [|discriminate].
  destruct (Z.leb_spec 0 soff); [|discriminate].
  destruct (Z.leb_spec 0 n); [|discriminate].
  destruct (Z.leb_spec (doff + n) (Z.of_nat (length dst))); [|discriminate].
  destruct (Z.leb_spec (soff + n) (Z.of_nat (length src))); [|discriminate].
  destruct (memcpy_spec dst src doff soff n) as (d & Hd & Hlen & _); try lia.
  rewrite Hd in H'. injection H' as <-. repeat split; auto.
Qed.

(** Copying no float changes nothing. *)
Lemma memcpy_nothing (dst src : list float) (doff : Z) :
  0 <= doff <= Z.of_nat (length dst) ->
  memcpy dst doff src 0 0 = Ok dst.
Proof.
  intros H. unfold memcpy.
  destruct (Z.leb_spec 0 doff); [|lia].
  destruct (Z.leb_spec (doff + 0) (Z.of_nat (length dst))); [|lia].
  destruct (Z.leb_spec (0 + 0) (Z.of_nat (length src))); [|lia].
  cbn [andb Z.leb Z.compare]. f_equal.
  rewrite Z.add_0_r. change (Z.to_nat 0) with 0%nat.
  rewrite take_0, app_nil_l. apply take_drop.
Qed.

(** The row loop of [hstack] keeps its offset within the target. *)
Lemma hstack_row_offset (images : list LinearImage) (row c : Z) :
  forall target dst target' dst',
    for_each images (hstack_copy_row row c) (target, dst) = Ok (target', dst') ->
    0 <= dst <= Z.of_nat (length target) ->
    0 <= dst' <= Z.of_nat (length target').
Proof.
  induction images as [|img l IH]; intros target dst target' dst' H Hd.
  - simpl in H. injection H as <- <-. exact Hd.
  - cbn [for_each] in H. apply bind_Ok in H as ([t1 d1] & Hstep & Hrest).
    unfold hstack_copy_row in Hstep.
    apply bind_Ok in Hstep as (t & Hcpy & Hstep). injection Hstep as <- <-.
    apply memcpy_Ok_inv in Hcpy as (? & ? & ? & ? & ? & Hlen).
    apply (IH _ _ _ _ Hrest). lia.
Qed.

(** X15: An image of width, height and channel count zero in front of a
    sequence is not rejected: [hstack] returns what it returns without
    it. *)
Theorem hstack_leading_empty (empty : LinearImage) (images : list LinearImage) :
  getWidth empty = 0 -> getHeight empty = 0 -> getChannels empty = 0 ->
  images <> [] ->
  hstack (empty :: images) = hstack images.
Proof.
  intros Ew Eh Ec Hne. unfold hstack, hstack_size.
  assert ((0 <? Z.of_nat (length images)) = true) as ->
    by (destruct images; [congruence | reflexivity]).
  change (0 <? Z.of_nat (length (empty :: images))) with true.
  cbn [ASSERT_PRECONDITION bind for_each]. unfold hstack_size_step at 1.
  rewrite Ew, Eh, Ec. change (wrap32 (0 + 0)) with 0. change (0 =? 0) with true.
  cbn [bind].
  destruct (for_each images hstack_size_step (0, 0, 0)) as [[[w h] c]| | |];
    try reflexivity.
  cbn [bind]. unfold hstack_copy.
  rewrite (for_range_ext_inv
             (fun st : list float * Z => 0 <= snd st <= Z.of_nat (length (fst st)))
             (fun row st => for_each (empty :: images) (hstack_copy_row row c) st)
             (fun row st => for_each images (hstack_copy_row row c) st)).
  - reflexivity.
  - intros row [t d] Hd. cbn [fst snd] in Hd.
    cbn [for_each]. unfold hstack_copy_row at 1.
    rewrite Ew. rewrite Z.mul_0_r, Z.mul_0_l. change (wrap32 0) with 0.
    rewrite Z.mul_0_l. change (wrap32 0) with 0.
    rewrite memcpy_nothing by exact Hd. cbn [bind]. rewrite Z.add_0_r.
    reflexivity.
  - intros row [t d] [t' d'] Hd Hrun. cbn [fst snd] in *.
    exact (hstack_row_offset images row c t d t' d' Hrun Hd).
  - cbn [fst snd]. lia.
Qed.

(** ** [cropRegion] outside the source *)

Lemma for_range_app {S : Type} (body : Z -> S -> outcome S) (n1 n2 : nat) :
  forall lo s,
    for_range lo (n1 + n2) body s
    = (let! s' := for_range lo n1 body s in
       for_range (lo + Z.of_nat n1) n2 body s').
Proof.
  induction n1 as [|n1 IH]; intros lo s.
  - simpl. rewrite Z.add_0_r. reflexivity.
  - cbn [Nat.add for_range]. destruct (body lo s) as [s1| | |]; try reflexivity.
    cbn [bind]. rewrite IH. do 2 f_equal. lia.
Qed.

Lemma memcpy_source_overrun (dst src : list float) (doff soff n : Z) :
  Z.of_nat (length src) < soff + n ->
  memcpy dst doff src soff n = Undefined.
Proof.
  intros H. unfold memcpy.
  destruct (Z.leb_spec (soff + n) (Z.of_nat (length src))); [lia|].
  rewrite andb_false_r. reflexivity.
Qed.

(** The row loop of [cropRegion] over [rows] rows that it reads within the
    storage of the source, which it takes as one run of floats. *)
Lemma cropRegion_window (image : LinearImage) (left top width rows : Z)
    (buf : list float) :
  valid_image image ->
  0 <= left -> 0 <= width -> 0 <= top -> 0 <= rows ->
  (forall r, 0 <= r < rows ->
     (top + r) * getWidth image + left + width
     <= getWidth image * getHeight image) ->
  width * getChannels image < two32 ->
  getWidth image * getChannels image < two32 ->
  rows * width * getChannels image <= Z.of_nat (length buf) ->
  exists buf',
    for_range 0 (Z.to_nat rows)
      (fun row st => cropRegion_row image width (getChannels image) st)
      (buf, 0, pixelOffset image left top)
    = Ok (buf', rows * width * getChannels image,
          ((top + rows) * getWidth image + left) * getChannels image)
    /\ length buf' = length buf
    /\ (forall row col k,
          0 <= row < rows -> 0 <= col < width -> 0 <= k < getChannels image ->
          buf' !! Z.to_nat ((row * width + col) * getChannels image + k)
          = get image
              !! Z.to_nat (((row + top) * getWidth image + (col + left))
                           * getChannels image + k)).
Proof.
  intros [Hw Hh Hc Hsize Hstore] Hl Hwd Ht Hrows Hin Hn Hstride Hlen.
  set (W := getWidth image) in *. set (H := getHeight image) in *.
  set (c := getChannels image) in *.
  destruct (for_range_inv
    (fun r (st : list float * Z * Z) =>
       let '(b, target, source) := st in
       target = r * width * c
       /\ source = ((top + r) * W + left) * c
       /\ length b = length buf
       /\ (forall row col k,
             0 <= row < r -> 0 <= col < width -> 0 <= k < c ->
             b !! Z.to_nat ((row * width + col) * c + k)
             = get image !! Z.to_nat (((row + top) * W + (col + left)) * c + k)))
    (fun row st => cropRegion_row image width c st)
    (Z.to_nat rows) 0 (buf, 0, pixelOffset image left top))
    as ([[b tgt] src] & Hrun & Etgt & Esrc & Hlen' & Hcells).
  - unfold pixelOffset. fold W c. split; [lia|]. split; [f_equal; lia|].
    split; [reflexivity|]. intros; lia.
  - intros r [[b tgt] src] Hr' (-> & -> & Hlen' & Hcells).
    rewrite Z2Nat.id in Hr' by lia.
    unfold cropRegion_row. fold W.
    assert (0 <= width * c) as B0 by (apply Z.mul_nonneg_nonneg; lia).
    assert (0 <= W * c) as B0' by (apply Z.mul_nonneg_nonneg; lia).
    rewrite (wrap32_small (width * c)), (wrap32_small (W * c)) by lia.
    assert (r * width * c + width * c <= rows * width * c) as B1.
    { replace (r * width * c + width * c) with ((r + 1) * (width * c)) by lia.
      replace (rows * width * c) with (rows * (width * c)) by lia.
      apply Z.mul_le_mono_nonneg_r; lia. }
    assert (((top + r) * W + left) * c + width * c <= W * H * c) as B2.
    { rewrite <- Z.mul_add_distr_r. apply Z.mul_le_mono_nonneg_r; [lia|].
      apply Hin. lia. }
    assert (0 <= r * width * c) as B3 by (repeat apply Z.mul_nonneg_nonneg; lia).
    assert (0 <= ((top + r) * W + left) * c) as B4
      by (apply Z.mul_nonneg_nonneg; nia).
    destruct (memcpy_spec b (get image) (r * width * c)
                (((top + r) * W + left) * c) (width * c))
      as (b1 & Hcpy & Hlen1 & Hnew & Hold); try lia.
    rewrite Hcpy. cbn [bind].
    eexists. split; [reflexivity|]. cbn beta iota.
    split; [lia|]. split; [lia|]. split; [congruence|].
    intros row col k Hrow Hcol Hk.
    destruct (Z.eq_dec row r) as [->|Hne].
    + replace ((r * width + col) * c + k)
        with (r * width * c + (col * c + k)) by lia.
      rewrite Hnew by nia. f_equal. lia.
    + rewrite Hold; [apply Hcells; lia|]. left.
      assert ((row * width + col + 1) * c <= r * width * c) as B5
        by (apply Z.mul_le_mono_nonneg_r; [lia|]; nia).
      rewrite Z2Nat.id by nia. lia.
  - rewrite Z2Nat.id, Z.add_0_l in * by lia. subst tgt src.
    exists b. split; [exact Hrun|]. split; [exact Hlen'|]. exact Hcells.
Qed.

(** X16: With [bottom] below the last row of the source, [cropRegion] reads
    outside the storage of the source: it neither fails on a precondition
    nor returns. *)
Theorem cropRegion_below_source (image : LinearImage) (left top right bottom : Z) :
  valid_image image -> 0 < getChannels image -> 0 < getHeight image ->
  0 <= left < right -> right <= getWidth image ->
  0 <= top <= getHeight image ->
  getHeight image < bottom < two32 ->
  cropRegion image left top right bottom = Undefined.
Proof.
  intros Hvalid Hc HH Hl Hr Ht Hb. pose proof Hvalid as [Hw Hh _ Hsize Hstore].
  set (W := getWidth image) in *. set (H := getHeight image) in *.
  set (c := getChannels image) in *.
  assert (W * c <= W * H * c) as BW by nia.
  assert ((right - left) * c <= W * c) as Bw
    by (apply Z.mul_le_mono_nonneg_r; lia).
  assert (0 <= (right - left) * c) as Bw0 by (apply Z.mul_nonneg_nonneg; lia).
  unfold cropRegion, newLinearImage. cbn [get]. fold c.
  rewrite (wrap32_small (right - left)), (wrap32_small (bottom - top)) by lia.
  replace (Z.to_nat (bottom - top))
    with (Z.to_nat (H - top) + Datatypes.S (Z.to_nat (bottom - H - 1)))%nat by lia.
  rewrite for_range_app.
  destruct (cropRegion_window image left top (right - left) (H - top)
              (replicate (Z.to_nat ((right - left) * (bottom - top) * c)) F32.zero)
              Hvalid) as (buf & Hrun & Hlen & _); fold W H c; try lia.
  { intros r Hr'. nia. }
  { rewrite length_replicate.
    assert ((H - top) * (right - left) * c <= (right - left) * (bottom - top) * c)
      by (apply Z.mul_le_mono_nonneg_r; [lia|]; nia).
    assert (0 <= (right - left) * (bottom - top) * c)
      by (repeat apply Z.mul_nonneg_nonneg; lia). lia. }
  fold c in Hrun. rewrite Hrun. cbn [bind for_range].
  unfold cropRegion_row at 1. fold W.
  rewrite (wrap32_small ((right - left) * c)) by lia.
  rewrite memcpy_source_overrun; [reflexivity|].
  rewrite Hstore. fold W H c.
  replace (top + (H - top)) with H by lia.
  assert (W * H * c < (H * W + left) * c + (right - left) * c) by nia.
  assert (0 <= W * H * c) by (repeat apply Z.mul_nonneg_nonneg; lia). lia.
Qed.

(** X17: With [right] past the last column, but the rows read still within the
    storage, [cropRegion] does not fail: the columns past the edge are
    filled with the first pixels of the following row of the source. *)
Theorem cropRegion_past_right_edge (image : LinearImage)
    (left top right bottom : Z) :
  valid_image image ->
  0 <= left < right -> getWidth image < right ->
  0 <= top < bottom ->
  (bottom - 1) * getWidth image + right
  <= getWidth image * getHeight image ->
  representable (right - left) (bottom - top) (getChannels image) ->
  exists result,
    cropRegion image left top right bottom = Ok result
    /\ getWidth result = right - left
    /\ getHeight result = bottom - top
    /\ getChannels result = getChannels image
    /\ (forall row col k,
          0 <= row < bottom - top -> 0 <= col < right - left ->
          0 <= k < getChannels image ->
          (col + left < getWidth image ->
           pixel result row col k = pixel image (row + top) (col + left) k)
          /\ (getWidth image <= col + left ->
              pixel result row col k
              = pixel image (row + top + 1) (col + left - getWidth image) k)).
Proof.
  intros Hvalid Hl Hr Ht Hin [Hrw Hrh Hrc Hrsize _].
  cbn [newLinearImage getWidth getHeight getChannels] in Hrw, Hrh, Hrc, Hrsize.
  pose proof Hvalid as [Hw Hh Hc Hsize Hstore].
  set (W := getWidth image) in *. set (H := getHeight image) in *.
  set (c := getChannels image) in *.
  assert ((right - left) * c <= (right - left) * (bottom - top) * c) as Bn.
  { apply Z.mul_le_mono_nonneg_r; [lia|]. nia. }
  assert (0 <= W * c) as BW0 by (apply Z.mul_nonneg_nonneg; lia).
  assert (W * c <= (right - left + left) * c) as BW1
    by (apply Z.mul_le_mono_nonneg_r; lia).
  assert (1 <= H) as HH by nia.
  assert (W * c <= W * H * c) as BW by nia.
  destruct (cropRegion_window image left top (right - left) (bottom - top)
              (replicate (Z.to_nat ((right - left) * (bottom - top) * c)) F32.zero)
              Hvalid) as (buf & Hrun & Hlen & Hcells); fold W H c; try lia.
  { intros r Hr'. nia. }
  { rewrite length_replicate.
    assert (0 <= (right - left) * (bottom - top) * c)
      by (repeat apply Z.mul_nonneg_nonneg; lia). lia. }
  fold W c in Hrun, Hcells.
  exists (mkLinearImage (right - left) (bottom - top) c buf).
  unfold cropRegion, newLinearImage. cbn [get]. fold c.
  rewrite !wrap32_small by lia. rewrite Hrun. cbn [bind].
  do 4 (split; [reflexivity|]).
  intros row col k Hrow Hcol Hk.
  unfold pixel, pixelOffset. cbn [getWidth getHeight getChannels get]. fold W c.
  rewrite (Hcells row col k Hrow Hcol Hk). split; intros _; f_equal; lia.
Qed.

(** ** [vectorsToColors] and the layout operations *)

(** What [vectorsToColors] returns on a 3-channel buffer. *)
Lemma vectorsToColors_correct (image : LinearImage) :
  valid_image image -> getChannels image = 3 ->
  exists result,
    vectorsToColors image = Ok result
    /\ getWidth result = getWidth image
    /\ getHeight result = getHeight image
    /\ getChannels result = 3
    /\ valid_image result
    /\ (forall i j k, pixel result i j k = remap <$> pixel image i j k).
Proof.
  intros [Hw Hh Hc' Hsize Hstore] Hc. rewrite Hc in Hsize, Hstore.
  exists (mkLinearImage (getWidth image) (getHeight image) 3
            (map remap (get image))).
  unfold vectorsToColors. rewrite Hc. cbn [Z.eqb Pos.eqb ASSERT_PRECONDITION bind].
  assert (0 <= getWidth image * getHeight image) as Hwh by nia.
  rewrite wrap32_small by lia.
  rewrite (vectorsToColors_loop (getWidth image * getHeight image) (get image));
    [| lia | exact Hstore | unfold newLinearImage; cbn [get]; apply length_replicate].
  cbn [bind getWidth getHeight getChannels get].
  do 4 (split; [reflexivity|]). split.
  - constructor; cbn [getWidth getHeight getChannels get]; try lia.
    rewrite length_map. exact Hstore.
  - intros i j k. unfold pixel, pixelOffset.
    cbn [getWidth getHeight getChannels get]. rewrite Hc.
    apply list_lookup_fmap.
Qed.

(** X8: Remapping the components and transposing commute. *)
Theorem vectorsToColors_transpose (image : LinearImage) :
  valid_image image -> getChannels image = 3 ->
  (let! flipped := transpose image in vectorsToColors flipped)
  = (let! colors := vectorsToColors image in transpose colors).
Proof.
  intros Hvalid Hc.
  destruct (transpose_correct image Hvalid)
    as (flipped & Hf & Ewf & Ehf & Ecf & Vf & Hpf).
  destruct (vectorsToColors_correct flipped Vf ltac:(congruence))
    as (a & Ha & Ewa & Eha & Eca & Va & Hpa).
  destruct (vectorsToColors_correct image Hvalid Hc)
    as (colors & Hv & Ewv & Ehv & Ecv & Vv & Hpv).
  destruct (transpose_correct colors Vv)
    as (b & Hb & Ewb & Ehb & Ecb & Vb & Hpb).
  rewrite Hf, Hv. cbn [bind]. rewrite Ha, Hb. f_equal.
  apply image_ext; auto; try congruence.
  intros i j k Hi Hj Hk.
  rewrite Hpa, Hpf, Hpb, Hpv by lia. reflexivity.
Qed.

(** X9: Remapping the components and cropping commute. *)
Theorem vectorsToColors_cropRegion (image : LinearImage)
    (left top right bottom : Z) :
  valid_image image -> getChannels image = 3 ->
  0 <= left < right -> right <= getWidth image ->
  0 <= top < bottom -> bottom <= getHeight image ->
  (let! region := cropRegion image left top right bottom in
   vectorsToColors region)
  = (let! colors := vectorsToColors image in
     cropRegion colors left top right bottom).
Proof.
  intros Hvalid Hc Hl Hr Ht Hb.
  destruct (cropRegion_correct image left top right bottom)
    as (region & Hreg & Ewr & Ehr & Ecr & Vr & Hpr); auto.
  destruct (vectorsToColors_correct region Vr ltac:(congruence))
    as (a & Ha & Ewa & Eha & Eca & Va & Hpa).
  destruct (vectorsToColors_correct image Hvalid Hc)
    as (colors & Hv & Ewv & Ehv & Ecv & Vv & Hpv).
  destruct (cropRegion_correct colors left top right bottom)
    as (b & Hb' & Ewb & Ehb & Ecb & Vb & Hpb); auto; try lia.
  rewrite Hreg, Hv. cbn [bind]. rewrite Ha, Hb'. f_equal.
  apply image_ext; auto; try congruence.
  intros i j k Hi Hj Hk.
  rewrite Hpa, Hpr, Hpb, Hpv by lia. reflexivity.
Qed.

(** ** Vertical stacks and planes *)

Lemma sum_heights_nonneg (l : list LinearImage) :
  Forall valid_image l -> 0 <= sum_heights l.
Proof.
  induction 1 as [|x l [_ Hh _ _ _] _ IH]; simpl; lia.
Qed.

Lemma sum_heights_take (images : list LinearImage) (k : nat) (img : LinearImage) :
  Forall valid_image images -> images !! k = Some img ->
  0 <= sum_heights (take k images)
  /\ sum_heights (take k images) + getHeight img <= sum_heights images.
Proof.
  intros Hvalid. revert k. induction Hvalid as [|x l Hx Hl IH]; intros k Hk.
  - destruct k; discriminate.
  - destruct Hx as [_ Hh _ _ _]. destruct k as [|k]; simpl in *.
    + injection Hk as ->. pose proof (sum_heights_nonneg l Hl). lia.
    + destruct (IH k Hk). lia.
Qed.

(** X4: Cropping a vertical stack to the rows of an input gives that input
    back. *)
Theorem cropRegion_vstack (images : list LinearImage) (w c : Z)
    (k : nat) (img : LinearImage) :
  Forall valid_image images ->
  Forall (fun img => getWidth img = w /\ getChannels img = c) images ->
  representable (sum_heights images) w c ->
  images !! k = Some img -> 0 < getHeight img -> 0 < w ->
  (let! tall := vstack images in
   cropRegion tall 0 (sum_heights (take k images)) w
     (sum_heights (take k images) + getHeight img))
  = Ok img.
Proof.
  intros Hvalid Hagree Hrep Hk Hh Hw.
  assert (images <> []) as Hne by (intros ->; discriminate).
  destruct (vstack_correct images w c Hne Hvalid Hagree Hrep)
    as (tall & Hrun & Ew & Eh & Ec & Vt & Hpix).
  destruct (sum_heights_take images k img Hvalid Hk) as [S0 S1].
  assert (valid_image img /\ getWidth img = w /\ getChannels img = c)
    as (Vi & Wi & Ci).
  { rewrite Forall_lookup in Hvalid, Hagree.
    destruct (Hagree k img Hk). eauto. }
  destruct (cropRegion_correct tall 0 (sum_heights (take k images)) w
              (sum_heights (take k images) + getHeight img) Vt)
    as (region & Hcrop & Ewr & Ehr & Ecr & Vr & Hpixr); try lia.
  rewrite Hrun. cbn [bind]. rewrite Hcrop. f_equal.
  apply image_ext; auto; try lia; try congruence.
  intros i j n Hi' Hj Hn.
  rewrite Hpixr by lia.
  replace (j + 0) with j by lia.
  rewrite Z.add_comm. apply Hpix; auto; lia.
Qed.

(** Channel [k] of the combined buffer is plane [k], pixel by pixel. *)
Lemma combineChannels_pixels (img0 : LinearImage) (rest : list LinearImage)
    (result : LinearImage) :
  Forall valid_image (img0 :: rest) ->
  Forall (fun p => getWidth p = getWidth img0 /\ getHeight p = getHeight img0
                   /\ getChannels p = 1) (img0 :: rest) ->
  representable (getWidth img0) (getHeight img0)
                (Z.of_nat (length (img0 :: rest))) ->
  combineChannels (img0 :: rest) = Ok result ->
  getWidth result = getWidth img0
  /\ getHeight result = getHeight img0
  /\ getChannels result = Z.of_nat (length (img0 :: rest))
  /\ valid_image result
  /\ (forall (k : nat) plane row col,
        (img0 :: rest) !! k = Some plane ->
        0 <= row < getHeight img0 -> 0 <= col < getWidth img0 ->
        pixel result row col (Z.of_nat k) = pixel plane row col 0).
Proof.
  intros Hvalid Hagree Hrep Hrun.
  destruct (combineChannels_correct img0 rest Hvalid Hagree Hrep)
    as (result' & Hrun' & Ew & Eh & Ec & Vr & Hcells).
  assert (result' = result) as -> by congruence.
  do 4 (split; [assumption|]).
  intros k plane row col Hk Hrow Hcol.
  pose proof (row_col_bound _ _ _ _ Hrow Hcol) as Hp.
  rewrite Forall_lookup in Hagree. destruct (Hagree k plane Hk) as (Ewp & _ & Ecp).
  unfold pixel, pixelOffset. rewrite Ew, Ec, Ewp, Ecp.
  rewrite (Hcells k plane (row * getWidth img0 + col) Hk) by lia.
  f_equal. lia.
Qed.

(** X7: Combining and transposing commute: the transposed planes combine to
    the transposed buffer. *)
Theorem combineChannels_transpose (img0 : LinearImage) (rest : list LinearImage)
    (flipped : list LinearImage) :
  Forall valid_image (img0 :: rest) ->
  Forall (fun p => getWidth p = getWidth img0 /\ getHeight p = getHeight img0
                   /\ getChannels p = 1) (img0 :: rest) ->
  representable (getWidth img0) (getHeight img0)
                (Z.of_nat (length (img0 :: rest))) ->
  Forall2 (fun img t => transpose img = Ok t) (img0 :: rest) flipped ->
  combineChannels flipped
  = (let! combined := combineChannels (img0 :: rest) in transpose combined).
Proof.
  intros Hvalid Hagree Hrep Hall.
  destruct (flipped_shapes _ flipped Hvalid Hall) as [Vf Hshapes].
  destruct (combineChannels_correct img0 rest Hvalid Hagree Hrep)
    as (combined & Hrun & _).
  destruct (combineChannels_pixels img0 rest combined Hvalid Hagree Hrep Hrun)
    as (Ew & Eh & Ec & Vc & Hpix).
  destruct (transpose_correct combined Vc)
    as (a & Ha & Ewa & Eha & Eca & Va & Hpa).
  inversion Hall as [|? t0 ? ts Ht0 Hts]; subst.
  pose proof Hshapes as Hshapes0.
  apply Forall2_cons in Hshapes0 as [(E0w & E0h & E0c) _].
  assert (length (t0 :: ts) = length (img0 :: rest)) as Elen
    by (symmetry; exact (Forall2_length _ _ _ Hall)).
  assert (Forall (fun p => getWidth p = getWidth t0 /\ getHeight p = getHeight t0
                           /\ getChannels p = 1) (t0 :: ts)) as Hagree'.
  { apply Forall_forall. intros t Ht. apply list_elem_of_lookup in Ht as [k Hk].
    destruct (Forall2_lookup_r _ _ _ _ _ Hshapes Hk) as (img & Hki & Ew' & Eh' & Ec').
    rewrite Forall_lookup in Hagree. destruct (Hagree k img Hki) as (? & ? & ?).
    repeat split; congruence. }
  assert (representable (getWidth t0) (getHeight t0)
            (Z.of_nat (length (t0 :: ts)))) as Hrep'.
  { rewrite Elen, E0w, E0h. destruct Hrep as [Hw Hh Hn Hsize _].
    cbn [newLinearImage getWidth getHeight getChannels] in Hw, Hh, Hn, Hsize.
    unfold representable.
    constructor; cbn [newLinearImage getWidth getHeight getChannels get];
      first [lia | apply length_replicate]. }
  destruct (combineChannels_correct t0 ts Vf Hagree' Hrep')
    as (b & Hb & _).
  destruct (combineChannels_pixels t0 ts b Vf Hagree' Hrep' Hb)
    as (Ewb & Ehb & Ecb & Vb & Hpb).
  rewrite Hb, Hrun. cbn [bind]. rewrite Ha. f_equal.
  apply image_ext; auto; try congruence.
  intros i j k Hi Hj Hk.
  rewrite Ecb, Elen in Hk.
  destruct (lookup_lt_is_Some_2 (img0 :: rest) (Z.to_nat k) ltac:(lia))
    as [plane Hplane].
  destruct (Forall2_lookup_l _ _ _ _ _ Hall Hplane) as (t & Ht & Htr).
  rewrite Forall_lookup in Hvalid. pose proof (Hvalid _ _ Hplane) as Vp.
  rewrite Forall_lookup in Hagree. destruct (Hagree _ _ Hplane) as (Ewp & Ehp & Ecp).
  destruct (transpose_correct plane Vp) as (t' & Ht' & _ & _ & _ & _ & Hpt).
  assert (t' = t) as -> by congruence.
  replace k with (Z.of_nat (Z.to_nat k)) by lia.
  rewrite (Hpb (Z.to_nat k) t i j Ht) by lia.
  rewrite Hpa by lia.
  rewrite (Hpix (Z.to_nat k) plane j i Hplane) by lia.
  apply Hpt; lia.
Qed.

(** * The helpers of the tests *)

(** ** [diffImages] *)

Lemma count_exact (w h c : Z) :
  0 <= w -> 0 <= h -> 0 <= c -> w * h * c < two32 ->
  wrap32 (wrap32 (w * h) * c) = w * h * c.
Proof.
  intros Hw Hh Hc Hsize. destruct (Z.eq_dec c 0) as [->|Hne].
  - rewrite !Z.mul_0_r. reflexivity.
  - rewrite (wrap32_small (w * h)) by nia. apply wrap32_small. nia.
Qed.

Lemma sub_self (x : float) :
  F32Ext.finite x -> F32Ext.abs (F32.sub x x) = F32.zero.
Proof.
  destruct x as [s|s| |s m e]; cbn [F32Ext.finite]; intros H;
    try contradiction.
  - destruct s; reflexivity.
  - unfold F32.sub, SFsub. rewrite Z.sub_diag. reflexivity.
Qed.

Lemma store_same (buf : list float) (i : Z) (x : float) :
  0 <= i -> buf !! Z.to_nat i = Some x -> store buf i x = Ok buf.
Proof.
  intros Hi Hx. rewrite store_in_range.
  - now rewrite list_insert_id.
  - apply lookup_lt_Some in Hx. lia.
Qed.

(** X21: The difference of a buffer with itself is the buffer of zeros, when no
    component is infinite or a NaN. *)
Theorem diffImages_self (a : LinearImage) :
  valid_image a ->
  Forall F32Ext.finite (get a) ->
  diffImages a a
  = Ok (newLinearImage (getWidth a) (getHeight a) (getChannels a)).
Proof.
  intros [Hw Hh Hc Hsize Hlen] Hfin.
  unfold diffImages. cbv zeta. rewrite !Z.eqb_refl.
  cbn [andb ASSERT_PRECONDITION bind].
  rewrite (count_exact _ _ _ (proj1 Hw) (proj1 Hh) (proj1 Hc) Hsize).
  cbn [newLinearImage get].
  set (N := getWidth a * getHeight a * getChannels a) in *.
  assert (0 <= N) as HN by (subst N; nia).
  set (zeros := replicate (Z.to_nat N) F32.zero).
  assert (forall i, 0 <= i < N -> zeros !! Z.to_nat i = Some F32.zero) as Hz.
  { intros i Hi. apply lookup_replicate_2. lia. }
  destruct (for_range_inv
    (fun n (st : list float * float * float) =>
       fst (fst st) = zeros /\ snd (fst st) = F32.zero
       /\ (n = 0 -> snd st = F32Ext.max_float)
       /\ (0 < n -> snd st = F32.zero))
    (diff_scan (get a) (get a)) (Z.to_nat N) 0
    (zeros, F32Ext.of_int 0, F32Ext.max_float))
    as ([[dst largest] smallest] & Hrun & Hdst & Hlargest & Hfirst & Hlater).
  - cbn [fst snd]. repeat split; intros; first [reflexivity | lia].
  - intros i [[dst largest] smallest] Hi (Hdst & Hlargest & Hfirst & Hlater).
    cbn [fst snd] in *. subst dst largest.
    destruct (lookup_lt_is_Some_2 (get a) (Z.to_nat i) ltac:(lia)) as [x Hx].
    assert (F32Ext.finite x) as Hfx.
    { rewrite Forall_lookup in Hfin. exact (Hfin _ _ Hx). }
    exists (zeros, F32.zero, F32.zero). split.
    + unfold diff_scan. rewrite (load_Some _ _ x) by (auto; lia).
      cbn [bind]. rewrite (sub_self x Hfx).
      rewrite (store_same zeros i F32.zero) by (try apply Hz; lia).
      cbn [bind].
      assert (F32Ext.std_min smallest F32.zero = F32.zero) as ->.
      { destruct (Z.eq_dec i 0) as [E|E].
        - rewrite (Hfirst E). reflexivity.
        - rewrite (Hlater ltac:(lia)). reflexivity. }
      reflexivity.
    + cbn [fst snd]. repeat split; intros; lia.
  - rewrite Hrun. cbn [fst snd bind] in *. subst dst largest.
    rewrite Z.add_0_l, Z2Nat.id in Hfirst, Hlater by lia.
    destruct (for_range_inv
      (fun (n : Z) (dst : list float) => dst = zeros)
      (diff_scale smallest
         (if F32Ext.eqb F32.zero smallest then F32.one
          else F32.sub (F32Ext.div F32.one F32.zero) smallest))
      (Z.to_nat N) 0 zeros eq_refl) as (dst & Hrun2 & ->).
    + intros i dst Hi ->. exists zeros. split; [|reflexivity].
      rewrite (Hlater ltac:(lia)).
      unfold diff_scale. rewrite (load_Some _ _ F32.zero) by (try apply Hz; lia).
      cbn [bind]. apply store_same; [lia|]. apply Hz. lia.
    + rewrite Hrun2. reflexivity.
Qed.

(** X22: Two buffers of different shapes stop [diffImages] on its precondition;
    two buffers of the same shape give a buffer of that shape. *)
Theorem diffImages_fails_exactly (a b : LinearImage) :
  valid_image a -> valid_image b ->
  (getWidth a <> getWidth b \/ getHeight a <> getHeight b
   \/ getChannels a <> getChannels b ->
   diffImages a b = PreconditionPanic "Images must have same shape.")
  /\ (getWidth a = getWidth b -> getHeight a = getHeight b ->
      getChannels a = getChannels b ->
      exists result, diffImages a b = Ok result
        /\ getWidth result = getWidth a /\ getHeight result = getHeight a
        /\ getChannels result = getChannels a
        /\ length (get result) = length (get a)).
Proof.
  intros [Hw Hh Hc Hsize Hlen] [Hwb Hhb Hcb Hsizeb Hlenb]. split.
  - intros Hdiff. unfold diffImages. cbv zeta.
    destruct (Z.eqb_spec (getWidth a) (getWidth b)) as [Ew|Ew];
      [|reflexivity].
    destruct (Z.eqb_spec (getHeight a) (getHeight b)) as [Eh|Eh];
      [|reflexivity].
    destruct (Z.eqb_spec (getChannels a) (getChannels b)) as [Ec|Ec];
      [|reflexivity].
    exfalso. tauto.
  - intros Ew Eh Ec. unfold diffImages. cbv zeta.
    rewrite <- Ew, <- Eh, <- Ec in *. rewrite !Z.eqb_refl.
    cbn [andb ASSERT_PRECONDITION bind].
    rewrite (count_exact _ _ _ (proj1 Hw) (proj1 Hh) (proj1 Hc) Hsize).
    cbn [newLinearImage get].
    set (N := getWidth a * getHeight a * getChannels a) in *.
    assert (0 <= N) as HN by (subst N; nia).
    destruct (for_range_inv
      (fun (n : Z) (st : list float * float * float) =>
         length (fst (fst st)) = Z.to_nat N)
      (diff_scan (get a) (get b)) (Z.to_nat N) 0
      (replicate (Z.to_nat N) F32.zero, F32Ext.of_int 0, F32Ext.max_float))
      as ([[dst largest] smallest] & Hrun & Hdst).
    + cbn [fst]. apply length_replicate.
    + intros i [[dst largest] smallest] Hi Hdst. cbn [fst] in Hdst.
      destruct (lookup_lt_is_Some_2 (get a) (Z.to_nat i) ltac:(lia)) as [x Hx].
      destruct (lookup_lt_is_Some_2 (get b) (Z.to_nat i) ltac:(lia)) as [y Hy].
      eexists. split.
      * unfold diff_scan. rewrite (load_Some _ _ x), (load_Some _ _ y)
          by (auto; lia).
        cbn [bind]. rewrite store_in_range by lia. cbn [bind]. reflexivity.
      * cbn [fst]. rewrite length_insert. exact Hdst.
    + rewrite Hrun. cbn [fst bind] in *.
      set (scale := if F32Ext.eqb largest smallest then F32.one
                    else F32.sub (F32Ext.div F32.one largest) smallest).
      destruct (for_range_inv
        (fun (n : Z) (dst : list float) => length dst = Z.to_nat N)
        (diff_scale smallest scale) (Z.to_nat N) 0 dst Hdst)
        as (dst' & Hrun2 & Hdst').
      * intros i d Hi Hd.
        destruct (lookup_lt_is_Some_2 d (Z.to_nat i) ltac:(lia)) as [x Hx].
        eexists. split.
        -- unfold diff_scale. rewrite (load_Some _ _ x) by (auto; lia).
           cbn [bind]. apply store_in_range. lia.
        -- rewrite length_insert. exact Hd.
      * rewrite Hrun2. eexists. split; [reflexivity|].
        cbn [getWidth getHeight getChannels get]. repeat split. lia.
Qed.

(** ** [createImageFromAscii] *)

Lemma read_rows_row (row : list ascii) :
  Forall (fun ch => isspace ch = false) row ->
  forall cur s, read_rows cur (row ++ s) = read_rows (rev row ++ cur) s.
Proof.
  induction 1 as [|ch row Hch Hrow IH]; intros cur s.
  - reflexivity.
  - cbn [app read_rows rev]. rewrite Hch, IH, <- app_assoc. reflexivity.
Qed.

(** Reading a pattern of blank-separated rows gives back the rows. *)
Lemma read_rows_join (rows : list (list ascii)) :
  Forall solid_row rows -> read_rows [] (join_rows rows) = rows.
Proof.
  induction 1 as [|row rest [Hne Hsolid] Hrest IH].
  - reflexivity.
  - assert (rev row <> []) as Hrev.
    { intros E. apply Hne. rewrite <- (rev_involutive row), E. reflexivity. }
    destruct rest as [|row' rest].
    + cbn [join_rows]. rewrite <- (app_nil_r row) at 1.
      rewrite read_rows_row by exact Hsolid. rewrite app_nil_r.
      cbn [read_rows]. destruct (rev row) as [|ch cur] eqn:E; [congruence|].
      rewrite <- E, rev_involutive. reflexivity.
    + change (join_rows (row :: row' :: rest))
        with (row ++ " "%char :: join_rows (row' :: rest)).
      rewrite read_rows_row by exact Hsolid. rewrite app_nil_r.
      cbn [read_rows]. change (isspace " ") with true. cbv iota.
      rewrite IH. destruct (rev row) as [|ch cur] eqn:E; [congruence|].
      rewrite <- E, rev_involutive. reflexivity.
Qed.

Lemma ascii_size_height (rows : list (list ascii)) :
  forall (st : Z * Z) (h0 : Z),
    snd st = wrap32 h0 ->
    snd (fold_left
           (fun (st : Z * Z) (row : list ascii) =>
              (wrap32 (Z.of_nat (length row)), wrap32 (snd st + 1)))
           rows st)
    = wrap32 (h0 + Z.of_nat (length rows)).
Proof.
  induction rows as [|row rows IH]; intros st h0 Hst.
  - cbn [fold_left length]. rewrite Z.add_0_r. exact Hst.
  - cbn [fold_left]. rewrite (IH _ (h0 + 1)).
    + f_equal. cbn [length]. lia.
    + cbn [snd]. rewrite Hst. unfold wrap32.
      apply Zplus_mod_idemp_l.
Qed.

(** The size of the image is the size of the last row by the number of
    rows. *)
Lemma ascii_size_last (rows : list (list ascii)) (last : list ascii) :
  Z.of_nat (length last) < two32 ->
  Z.of_nat (length rows) + 1 < two32 ->
  ascii_size (rows ++ [last])
  = (Z.of_nat (length last), Z.of_nat (length rows) + 1).
Proof.
  intros Hw Hh. unfold ascii_size. rewrite fold_left_app. cbn [fold_left].
  rewrite (ascii_size_height rows (0, 0) 0 eq_refl).
  rewrite Z.add_0_l.
  rewrite (wrap32_small (Z.of_nat (length rows))) by lia.
  rewrite !wrap32_small by lia. reflexivity.
Qed.

Lemma for_each_concat {A S : Type} (body : A -> S -> outcome S)
    (rows : list (list A)) :
  forall s,
    for_each rows (fun row st => for_each row body st) s
    = for_each (concat rows) body s.
Proof.
  assert (forall (l1 l2 : list A) s,
            for_each (l1 ++ l2) body s
            = let! s' := for_each l1 body s in for_each l2 body s') as Happ.
  { induction l1 as [|x l1 IH]; intros l2 s; [reflexivity|].
    cbn [app for_each]. destruct (body x s); cbn [bind]; auto. }
  induction rows as [|row rows IH]; intros s; [reflexivity|].
  cbn [for_each concat]. rewrite Happ.
  destruct (for_each row body s); cbn [bind]; auto.
Qed.

(** The characters are written one after the other from index [i], as long
    as the buffer has room for them. *)
Lemma ascii_put_fits (chars : list ascii) :
  forall (buf : list float) (i : Z),
    0 <= i ->
    i + Z.of_nat (length chars) <= Z.of_nat (length buf) ->
    for_each chars ascii_put (buf, i)
    = Ok (take (Z.to_nat i) buf ++ map char_value chars
          ++ drop (Z.to_nat i + length chars) buf,
          i + Z.of_nat (length chars)).
Proof.
  induction chars as [|ch chars IH]; intros buf i Hi Hfit.
  - cbn [for_each map length app]. rewrite Nat.add_0_r, take_drop, Z.add_0_r.
    reflexivity.
  - cbn [length] in Hfit. cbn [for_each]. unfold ascii_put at 1.
    rewrite store_in_range by lia. cbn [bind].
    rewrite IH by (rewrite ?length_insert; lia).
    f_equal. f_equal.
    + replace (Z.to_nat (i + 1)) with (Datatypes.S (Z.to_nat i)) by lia.
      rewrite (take_S_r _ _ (char_value ch))
        by (apply list_lookup_insert_eq; lia).
      rewrite take_insert_ge by lia.
      rewrite drop_insert_lt by lia.
      rewrite <- app_assoc. cbn [map app length].
      replace (Datatypes.S (Z.to_nat i) + length chars)%nat
        with (Z.to_nat i + Datatypes.S (length chars))%nat by lia.
      reflexivity.
    + cbn [length]. lia.
Qed.

(** One character too many runs over the end of the buffer. *)
Lemma ascii_put_overrun (chars : list ascii) :
  forall (buf : list float) (i : Z),
    0 <= i <= Z.of_nat (length buf) ->
    Z.of_nat (length buf) < i + Z.of_nat (length chars) ->
    for_each chars ascii_put (buf, i) = Undefined.
Proof.
  induction chars as [|ch chars IH]; intros buf i Hi Hover.
  - cbn [length] in Hover. lia.
  - cbn [length] in Hover. cbn [for_each]. unfold ascii_put at 1.
    unfold store.
    destruct (Z.leb_spec 0 i); [|lia].
    destruct (Z.ltb_spec i (Z.of_nat (length buf))) as [Hin|Hout];
      [|reflexivity].
    cbn [andb bind]. apply IH; rewrite ?length_insert; lia.
Qed.

Lemma concat_uniform {A : Type} (rows : list (list A)) (w : nat) :
  Forall (fun row => length row = w) rows ->
  length (concat rows) = (length rows * w)%nat.
Proof.
  induction 1 as [|row rows Hrow Hrows IH]; [reflexivity|].
  cbn [concat length]. rewrite length_app, IH, Hrow. lia.
Qed.

(** X23: A pattern of [h] rows of [w] characters each, separated by blanks,
    gives the [w] by [h] image of one channel that holds the values of the
    characters, row after row. *)
Theorem createImageFromAscii_grid (rows : list (list ascii)) (w : nat) :
  rows <> [] ->
  Forall solid_row rows ->
  Forall (fun row => length row = w) rows ->
  Z.of_nat w * Z.of_nat (length rows) < two32 ->
  createImageFromAscii (string_of_list_ascii (join_rows rows))
  = Ok (mkLinearImage (Z.of_nat w) (Z.of_nat (length rows)) 1
          (map char_value (concat rows))).
Proof.
  intros Hne Hsolid Hwidth Hsize.
  unfold createImageFromAscii.
  rewrite list_ascii_of_string_of_list_ascii, (read_rows_join rows Hsolid).
  cbv zeta.
  destruct (exists_last Hne) as (front & last & E).
  assert (length last = w) as Hlast.
  { rewrite Forall_forall in Hwidth. apply Hwidth. rewrite E.
    apply elem_of_app. right. apply list_elem_of_singleton. reflexivity. }
  assert (last <> []) as Hlast_ne.
  { rewrite Forall_forall in Hsolid. apply (Hsolid last). rewrite E.
    apply elem_of_app. right. apply list_elem_of_singleton. reflexivity. }
  assert (0 < w)%nat as Hw by (destruct last; [congruence|cbn in Hlast; lia]).
  assert (length rows = Datatypes.S (length front)) as Hrows.
  { rewrite E, length_app. cbn [length]. lia. }
  assert (ascii_size rows = (Z.of_nat w, Z.of_nat (length rows))) as ->.
  { rewrite E at 1. rewrite ascii_size_last by (rewrite ?Hlast; nia).
    rewrite Hlast, Hrows. f_equal. lia. }
  rewrite for_each_concat. cbn [newLinearImage get].
  pose proof (concat_uniform rows w Hwidth) as Hcount.
  rewrite ascii_put_fits by (rewrite ?length_replicate; lia).
  cbn [bind]. f_equal. f_equal.
  cbn [Z.to_nat take app].
  rewrite drop_ge by (rewrite length_replicate; lia).
  apply app_nil_r.
Qed.

(** X24: The image is sized by the last row alone: when the rows before it
    hold more characters than so many rows of its size, the characters
    run over the end of the storage. *)
Theorem createImageFromAscii_ragged (rows : list (list ascii))
    (last : list ascii) :
  Forall solid_row (rows ++ [last]) ->
  Z.of_nat (length last) * (Z.of_nat (length rows) + 1) < two32 ->
  Z.of_nat (length last) * Z.of_nat (length rows)
  < Z.of_nat (length (concat rows)) ->
  createImageFromAscii (string_of_list_ascii (join_rows (rows ++ [last])))
  = Undefined.
Proof.
  intros Hsolid Hsize Hmore.
  assert (last <> []) as Hlast.
  { rewrite Forall_app, Forall_singleton in Hsolid. apply Hsolid. }
  assert (0 < length last)%nat as Hpos
    by (destruct last; [congruence | cbn [length]; lia]).
  assert (Z.of_nat (length last) < two32) as Hw by nia.
  assert (Z.of_nat (length rows) + 1 < two32) as Hh by nia.
  unfold createImageFromAscii.
  rewrite list_ascii_of_string_of_list_ascii, (read_rows_join _ Hsolid).
  cbv zeta. rewrite ascii_size_last by assumption.
  rewrite for_each_concat. cbn [newLinearImage get].
  rewrite ascii_put_overrun; [reflexivity | split; lia |].
  rewrite length_replicate, concat_app, length_app. cbn [concat length].
  rewrite app_nil_r. nia.
Qed.

(** ** [solve] and [intersect] *)

Lemma ltb_asym (x y : float) :
  F32Ext.ltb x y = true -> F32Ext.ltb y x = false.
Proof.
  unfold F32Ext.ltb, SFltb.
  destruct x as [sx|sx| |sx mx ex], y as [sy|sy| |sy my ey];
    cbn [SFcompare]; try destruct sx; try destruct sy;
    try discriminate; try reflexivity.
  - change (PosDef.Pos.compare_cont Eq mx my) with (Pos.compare mx my).
    change (PosDef.Pos.compare_cont Eq my mx) with (Pos.compare my mx).
    rewrite (Z.compare_antisym ex ey), (Pos.compare_antisym mx my).
    destruct (ex ?= ey); cbn [CompOpp]; try discriminate; try reflexivity.
    destruct (mx ?= my)%positive; cbn [CompOpp];
      (discriminate || reflexivity).
  - change (PosDef.Pos.compare_cont Eq mx my) with (Pos.compare mx my).
    change (PosDef.Pos.compare_cont Eq my mx) with (Pos.compare my mx).
    rewrite (Z.compare_antisym ex ey), (Pos.compare_antisym mx my).
    destruct (ex ?= ey); cbn [CompOpp]; try discriminate; try reflexivity.
    destruct (mx ?= my)%positive; cbn [CompOpp];
      (discriminate || reflexivity).
Qed.

Lemma solve_roots_ordered (a b c x0 x1 : float) :
  solve a b c = Some (x0, x1) -> F32Ext.ltb x1 x0 = false.
Proof.
  unfold solve. cbv zeta.
  destruct (F32Ext.ltb _ (F32Ext.of_int 0)); [discriminate|].
  destruct (if F32Ext.eqb _ _ then _ else _) as [p q].
  destruct (F32Ext.ltb q p) eqn:E; intros H; inversion H; subst.
  - apply ltb_asym. exact E.
  - exact E.
Qed.

(** X25: The roots that [solve] returns are in order: the first is never
    greater than the second. *)
Theorem solve_ordered (a b c x0 x1 : float) :
  solve a b c = Some (x0, x1) -> F32Ext.ltb x1 x0 = false.
Proof. apply solve_roots_ordered. Qed.

(** X26: [intersect] takes the roots as [solve] returns them: its own exchange
    of the two never takes place, and the result is the first root unless
    it is negative, then the second unless that is negative too. *)
Theorem intersect_roots (float3_sub : float3 -> float3 -> float3)
    (dot : float3 -> float3 -> float) (ray : Ray) (sphere : Sphere) :
  intersect float3_sub dot ray sphere
  = match solve (dot (dir ray) (dir ray))
            (F32.mul (F32Ext.of_int 2)
               (dot (dir ray) (float3_sub (orig ray) (center sphere))))
            (F32.sub (dot (float3_sub (orig ray) (center sphere))
                          (float3_sub (orig ray) (center sphere)))
                     (radius2 sphere)) with
    | None => None
    | Some (t0, t1) =>
        if F32Ext.ltb t0 (F32Ext.of_int 0)
        then if F32Ext.ltb t1 (F32Ext.of_int 0) then None else Some t1
        else Some t0
    end.
Proof.
  unfold intersect. cbv zeta.
  match goal with
  | |- match ?roots with _ => _ end = _ => destruct roots as [[t0 t1]|] eqn:E
  end; [|reflexivity].
  rewrite (solve_roots_ordered _ _ _ _ _ E). reflexivity.
Qed.

(** X27: A ray that hits has a parameter that is not negative. *)
Theorem intersect_not_behind (float3_sub : float3 -> float3 -> float3)
    (dot : float3 -> float3 -> float) (ray : Ray) (sphere : Sphere)
    (t : float) :
  intersect float3_sub dot ray sphere = Some t ->
  F32Ext.ltb t (F32Ext.of_int 0) = false.
Proof.
  unfold intersect. cbv zeta.
  match goal with
  | |- match ?roots with _ => _ end = _ -> _ => destruct roots as [[t0 t1]|]
  end; [|discriminate].
  destruct (F32Ext.ltb t1 t0).
  - destruct (F32Ext.ltb t1 _) eqn:E1.
    + destruct (F32Ext.ltb t0 _) eqn:E0; [discriminate|].
      intros H; inversion H; subst. exact E0.
    + intros H; inversion H; subst. exact E1.
  - destruct (F32Ext.ltb t0 _) eqn:E0.
    + destruct (F32Ext.ltb t1 _) eqn:E1; [discriminate|].
      intros H; inversion H; subst. exact E1.
    + intros H; inversion H; subst. exact E0.
Qed.

(** ** [compare], in general *)

(** X19: When the first components are within [epsilon] of each other, [compare]
    returns 1, whatever the components after them. *)
Theorem compare_first_pair_decides (a b : LinearImage) (epsilon x y : float)
    (l1 l2 : list float) :
  valid_image a -> valid_image b ->
  getWidth b = getWidth a -> getHeight b = getHeight a ->
  getChannels b = getChannels a ->
  get a = x :: l1 -> get b = y :: l2 ->
  within epsilon x y = true ->
  compare a b epsilon = Ok 1.
Proof. apply compare_first_within. Qed.

(** X20: When no two components at the same place are within [epsilon] of each
    other, [compare] returns 0. *)
Theorem compare_apart_is_zero (a b : LinearImage) (epsilon : float) :
  valid_image a -> valid_image b ->
  getWidth b = getWidth a -> getHeight b = getHeight a ->
  getChannels b = getChannels a ->
  Forall2 (fun x y => within epsilon x y = false /\ within epsilon y x = false)
          (get a) (get b) ->
  compare a b epsilon = Ok 0.
Proof. apply compare_none_within. Qed.

(** * The further theorems at concrete buffers *)

Lemma hstack_single_witness : hstack [img2x2] = Ok img2x2.
Proof. apply (hstack_single img2x2). concrete_image. Defined.

Lemma vstack_single_witness : vstack [img2x2] = Ok img2x2.
Proof. apply (vstack_single img2x2). concrete_image. Defined.

Lemma combineChannels_single_witness : combineChannels [img2x2] = Ok img2x2.
Proof.
  apply (combineChannels_single img2x2); [concrete_image | reflexivity].
Defined.

Lemma cropRegion_full_witness : cropRegion img2x2 0 0 2 2 = Ok img2x2.
Proof.
  apply (cropRegion_full img2x2); [concrete_image | cbn; lia | cbn; lia].
Defined.

Lemma cropRegion_cropRegion_witness :
  (let! outer := cropRegion img2x2 0 0 2 2 in cropRegion outer 1 0 2 1)
  = cropRegion img2x2 (0 + 1) (0 + 0) (0 + 2) (0 + 1).
Proof.
  apply (cropRegion_cropRegion img2x2 0 0 2 2 1 0 2 1);
    first [concrete_image | cbn; lia].
Defined.

Lemma transpose_cropRegion_witness :
  (let! region := cropRegion img2x2 1 0 2 2 in transpose region)
  = (let! flipped := transpose img2x2 in cropRegion flipped 0 1 2 2).
Proof.
  apply (transpose_cropRegion img2x2 1 0 2 2);
    first [concrete_image | cbn; lia].
Defined.

Lemma hstack_app_witness :
  (let! a := hstack [img2x2] in let! b := hstack [img_tens] in hstack [a; b])
  = hstack ([img2x2] ++ [img_tens]).
Proof.
  apply (hstack_app [img2x2] [img_tens] 2 1).
  - discriminate.
  - discriminate.
  - repeat constructor; concrete_image.
  - repeat constructor.
  - concrete_image.
Defined.

Lemma vstack_of_transposed_witness :
  vstack [img2x2_flipped; img_tens]
  = (let! wide := hstack [img2x2; img_tens] in transpose wide).
Proof.
  apply (vstack_of_transposed [img2x2; img_tens] [img2x2_flipped; img_tens]).
  - discriminate.
  - repeat constructor; concrete_image.
  - constructor; [reflexivity | constructor; [reflexivity | constructor]].
Defined.

Lemma cropRegion_hstack_witness :
  (let! wide := hstack [img2x2; img_tens] in
   cropRegion wide (sum_widths (take 1 [img2x2; img_tens])) 0
     (sum_widths (take 1 [img2x2; img_tens]) + getWidth img_tens) 2)
  = Ok img_tens.
Proof.
  apply (cropRegion_hstack [img2x2; img_tens] 2 1 1 img_tens).
  - repeat constructor; concrete_image.
  - repeat constructor.
  - concrete_image.
  - reflexivity.
  - cbn. lia.
  - lia.
Defined.

Lemma compare_result_witness :
  (1 = -1
   /\ (getWidth img2x2 <> getWidth img2x2 \/ getHeight img2x2 <> getHeight img2x2
       \/ getChannels img2x2 <> getChannels img2x2))
  \/ ((1 = 0 \/ 1 = 1)
      /\ getWidth img2x2 = getWidth img2x2 /\ getHeight img2x2 = getHeight img2x2
      /\ getChannels img2x2 = getChannels img2x2).
Proof. apply (compare_result img2x2 img2x2 F32.zero 1). reflexivity. Defined.

Lemma hstack_width_wraps_witness :
  hstack [img_wide; img_wide] = Ok (mkLinearImage 4294967294 1 0 [])
  /\ getWidth (mkLinearImage 4294967294 1 0 [])
     = sum_widths [img_wide; img_wide] mod 2 ^ 32.
Proof.
  split; [reflexivity|].
  apply (hstack_width_wraps [img_wide; img_wide]). reflexivity.
Defined.

Lemma hstack_leading_empty_witness :
  hstack [mkLinearImage 0 0 0 []; img2x2] = hstack [img2x2].
Proof.
  apply (hstack_leading_empty (mkLinearImage 0 0 0 []) [img2x2]);
    first [reflexivity | discriminate].
Defined.

Lemma cropRegion_below_source_witness : cropRegion img2x2 0 0 2 3 = Undefined.
Proof.
  apply (cropRegion_below_source img2x2 0 0 2 3);
    first [concrete_image | cbn; unfold two32; lia].
Defined.

Lemma cropRegion_past_right_edge_witness :
  exists result,
    cropRegion img2x2 1 0 3 1 = Ok result
    /\ getWidth result = 3 - 1
    /\ getHeight result = 1 - 0
    /\ getChannels result = getChannels img2x2
    /\ (forall row col k,
          0 <= row < 1 - 0 -> 0 <= col < 3 - 1 ->
          0 <= k < getChannels img2x2 ->
          (col + 1 < getWidth img2x2 ->
           pixel result row col k = pixel img2x2 (row + 0) (col + 1) k)
          /\ (getWidth img2x2 <= col + 1 ->
              pixel result row col k
              = pixel img2x2 (row + 0 + 1) (col + 1 - getWidth img2x2) k)).
Proof.
  apply (cropRegion_past_right_edge img2x2 1 0 3 1);
    first [concrete_image | cbn; lia].
Defined.

Lemma vectorsToColors_transpose_witness :
  (let! flipped := transpose img_vector in vectorsToColors flipped)
  = (let! colors := vectorsToColors img_vector in transpose colors).
Proof.
  apply (vectorsToColors_transpose img_vector); [concrete_image | reflexivity].
Defined.

Lemma vectorsToColors_cropRegion_witness :
  (let! region := cropRegion img_vector 0 0 1 1 in vectorsToColors region)
  = (let! colors := vectorsToColors img_vector in cropRegion colors 0 0 1 1).
Proof.
  apply (vectorsToColors_cropRegion img_vector 0 0 1 1);
    first [concrete_image | reflexivity | cbn; lia].
Defined.

Lemma cropRegion_vstack_witness :
  (let! tall := vstack [img2x2; img_tens] in
   cropRegion tall 0 (sum_heights (take 1 [img2x2; img_tens])) 2
     (sum_heights (take 1 [img2x2; img_tens]) + getHeight img_tens))
  = Ok img_tens.
Proof.
  apply (cropRegion_vstack [img2x2; img_tens] 2 1 1 img_tens).
  - repeat constructor; concrete_image.
  - repeat constructor.
  - concrete_image.
  - reflexivity.
  - cbn. lia.
  - lia.
Defined.

Lemma combineChannels_transpose_witness :
  combineChannels [img2x2_flipped; img_tens]
  = (let! combined := combineChannels [img2x2; img_tens] in
     transpose combined).
Proof.
  apply (combineChannels_transpose img2x2 [img_tens]
           [img2x2_flipped; img_tens]).
  - repeat constructor; concrete_image.
  - repeat constructor.
  - concrete_image.
  - constructor; [reflexivity | constructor; [reflexivity | constructor]].
Defined.

Lemma diffImages_self_witness :
  diffImages img2x2 img2x2 = Ok (newLinearImage 2 2 1).
Proof.
  apply (diffImages_self img2x2); [concrete_image | repeat constructor].
Defined.

Lemma diffImages_fails_exactly_witness :
  diffImages img2x2 (img_row F32.zero F32.zero)
  = PreconditionPanic "Images must have same shape."
  /\ exists result,
       diffImages img2x2 img_tens = Ok result
       /\ getWidth result = getWidth img2x2
       /\ getHeight result = getHeight img2x2
       /\ getChannels result = getChannels img2x2
       /\ length (get result) = length (get img2x2).
Proof.
  split.
  - apply (proj1 (diffImages_fails_exactly img2x2 (img_row F32.zero F32.zero)
                    ltac:(concrete_image) ltac:(concrete_image))).
    right. left. cbn. lia.
  - apply (proj2 (diffImages_fails_exactly img2x2 img_tens
                    ltac:(concrete_image) ltac:(concrete_image)));
      reflexivity.
Defined.

Lemma createImageFromAscii_grid_witness :
  createImageFromAscii "01 23 45"
  = Ok (mkLinearImage 2 3 1 (map char_value (concat rows_grid))).
Proof.
  apply (createImageFromAscii_grid rows_grid 2).
  - discriminate.
  - repeat constructor; discriminate.
  - repeat constructor.
  - cbn. unfold two32. lia.
Defined.

Lemma createImageFromAscii_ragged_witness :
  createImageFromAscii "012 3" = Undefined.
Proof.
  apply (createImageFromAscii_ragged rows_ragged (list_ascii_of_string "3")).
  - repeat constructor; discriminate.
  - cbn. unfold two32. lia.
  - cbn. lia.
Defined.

Lemma solve_ordered_witness : F32Ext.ltb F32.one F32.minus_one = false.
Proof.
  apply (solve_ordered F32.one F32.zero F32.minus_one F32.minus_one F32.one).
  vm_compute. reflexivity.
Defined.

Lemma intersect_not_behind_witness :
  intersect vec_sub vec_dot ray_down sphere_half = Some F32.half
  /\ F32Ext.ltb F32.half (F32Ext.of_int 0) = false.
Proof.
  assert (intersect vec_sub vec_dot ray_down sphere_half = Some F32.half) as E
    by (vm_compute; reflexivity).
  split; [exact E|].
  apply (intersect_not_behind vec_sub vec_dot ray_down sphere_half). exact E.
Defined.

Lemma compare_first_pair_decides_witness :
  compare (img_row F32.zero F32.ten) (img_row F32.zero F32.zero) F32.zero
  = Ok 1.
Proof.
  apply (compare_first_pair_decides (img_row F32.zero F32.ten)
           (img_row F32.zero F32.zero) F32.zero F32.zero F32.zero
           [F32.ten] [F32.zero]);
    first [concrete_image | reflexivity].
Defined.

Lemma compare_apart_is_zero_witness : compare img2x2 img_tens F32.zero = Ok 0.
Proof.
  apply (compare_apart_is_zero img2x2 img_tens F32.zero);
    try first [concrete_image | reflexivity].
  repeat constructor.
Defined.
